(** * Project initializer of auto-claude-ui: install, update and version check

    A shallow embedding of [src/auto-claude-ui/src/main/project-initializer.ts].

    - The file system is one shared tree of directories and regular files,
      addressed by absolute, normalised paths (lists of components). Symbolic
      links, permissions and relative paths are outside the model; the errors
      are the ones a tree of files and directories can raise ([ENOENT],
      [ENOTDIR], [EISDIR], [EEXIST]).
    - Text is a sequence of UTF-8 bytes.
    - Every function of the program is a state transformer on the file system
      that returns a value or throws; the recursive copy reads the file system
      as it is at each step, so it takes fuel.
    - What the program takes from the host ([localeCompare], SHA-256, [JSON])
      is an interface, [Runtime]; [Sample.runtime] is an instance to run the
      program on examples.
    - [new Date().toISOString()] is the argument [now] of the three
      operations. [debug] only logs and is left out. *)

From Stdlib Require Import List String Ascii ZArith Lia Bool Arith Permutation.
From Stdlib Require Import DecimalString Sorted.
Import ListNotations.
Open Scope string_scope.
Open Scope list_scope.

Infix "+++" := String.append (at level 60, right associativity).

Set Warnings "-register-all".

(** ** Paths *)

(** An absolute, normalised path is the list of its components;
    [path.join(p, name)] appends one component. *)
Abbreviation path := (list string).

Definition path_join (p : path) (name : string) : path := p ++ [name].

Fixpoint path_str (p : path) : string :=
  match p with
  | [] => ""
  | n :: p' => "/" +++ n +++ path_str p'
  end.

(** [is_prefix q p]: [p] is [q] or lies below [q]. *)
Definition is_prefix (q p : path) : Prop := exists r, p = q ++ r.

(** ** The file system *)

Inductive node : Type :=
| File (content : string)
| Dir (entries : list (string * node)).

(** The state is the root directory. The order of a directory's entries is the
    order in which [readdirSync] enumerates them. *)
Abbreviation FS := node.

Inductive kind : Type :=
| KFile (content : string)
| KDir.

Definition kind_of (t : node) : kind :=
  match t with
  | File c => KFile c
  | Dir _ => KDir
  end.

Fixpoint assoc {A : Type} (k : string) (l : list (string * A)) : option A :=
  match l with
  | [] => None
  | (k', v) :: l' => if String.eqb k k' then Some v else assoc k l'
  end.

(** Replace the entry [k] where it stands, or add it after the others. *)
Fixpoint set_entry {A : Type} (k : string) (v : A) (l : list (string * A))
  : list (string * A) :=
  match l with
  | [] => [(k, v)]
  | (k', v') :: l' =>
      if String.eqb k k' then (k, v) :: l' else (k', v') :: set_entry k v l'
  end.

Fixpoint lookupO (o : option node) (p : path) : option node :=
  match p with
  | [] => o
  | n :: p' =>
      match o with
      | Some (Dir es) => lookupO (assoc n es) p'
      | _ => None
      end
  end.

Definition lookup (fs : FS) (p : path) : option node := lookupO (Some fs) p.

Definition stat (fs : FS) (p : path) : option kind :=
  option_map kind_of (lookup fs p).

(** Node.js error codes raised by the [fs] calls the program makes. *)
Inductive errno : Type := ENOENT | ENOTDIR | EISDIR | EEXIST.

Record exn : Type := mkExn { code : errno; syscall : string; epath : path }.

Definition errno_str (e : errno) : string :=
  match e with
  | ENOENT => "ENOENT: no such file or directory"
  | ENOTDIR => "ENOTDIR: not a directory"
  | EISDIR => "EISDIR: illegal operation on a directory"
  | EEXIST => "EEXIST: file already exists"
  end.

(** [error.message] of a thrown file-system error. *)
Definition message (e : exn) : string :=
  errno_str (code e) +++ ", " +++ syscall e +++ " '" +++ path_str (epath e) +++ "'".

Inductive result (A : Type) : Type :=
| Ok (a : A)
| Err (e : errno).
Arguments Ok {A} a.
Arguments Err {A} e.

(** Rewrite the slot at [p], given what it holds now. With [mk] the missing
    ancestors are created on the way (the [recursive] option of [mkdirSync]);
    without it a missing ancestor is [ENOENT]. An ancestor that is a file is
    [ENOTDIR]. *)
Fixpoint modifyO (mk : bool) (f : option node -> result node)
         (o : option node) (p : path) : result node :=
  match p with
  | [] => f o
  | n :: p' =>
      match o with
      | Some (File _) => Err ENOTDIR
      | Some (Dir es) =>
          match modifyO mk f (assoc n es) p' with
          | Ok c => Ok (Dir (set_entry n c es))
          | Err e => Err e
          end
      | None =>
          if mk then
            match modifyO mk f None p' with
            | Ok c => Ok (Dir [(n, c)])
            | Err e => Err e
            end
          else Err ENOENT
      end
  end.

Definition put_file (c : string) (o : option node) : result node :=
  match o with
  | Some (Dir _) => Err EISDIR
  | _ => Ok (File c)
  end.

Definition ensure_dir (o : option node) : result node :=
  match o with
  | None => Ok (Dir [])
  | Some (Dir es) => Ok (Dir es)
  | Some (File _) => Err EEXIST
  end.

Definition write_at (fs : FS) (p : path) (c : string) : result FS :=
  modifyO false (put_file c) (Some fs) p.

Definition mkdirp_at (fs : FS) (p : path) : result FS :=
  modifyO true ensure_dir (Some fs) p.

(** ** The monad of the program: state, exceptions, and fuel

    [None] is "out of fuel"; only the recursive copy consumes fuel. *)
Definition M (A : Type) : Type := FS -> option (FS * (A + exn)).

Definition ret {A : Type} (a : A) : M A := fun fs => Some (fs, inl a).

Definition throw {A : Type} (e : exn) : M A := fun fs => Some (fs, inr e).

Definition bind {A B : Type} (m : M A) (k : A -> M B) : M B :=
  fun fs =>
    match m fs with
    | None => None
    | Some (fs', inr e) => Some (fs', inr e)
    | Some (fs', inl a) => k a fs'
    end.

Notation "x <- m ;; k" := (bind m (fun x => k))
  (at level 61, m at next level, right associativity).
Notation "m ;;; k" := (bind m (fun _ => k))
  (at level 61, right associativity).

Definition when (b : bool) (m : M unit) : M unit := if b then m else ret tt.

(** [try { m } catch (error) { h error }] *)
Definition try_catch {A : Type} (m : M A) (h : exn -> A) : M A :=
  fun fs =>
    match m fs with
    | None => None
    | Some (fs', inr e) => Some (fs', inl (h e))
    | Some (fs', inl a) => Some (fs', inl a)
    end.

(** *** The [fs] calls *)

Definition existsSync (p : path) : M bool :=
  fun fs => Some (fs, inl (match lookup fs p with Some _ => true | None => false end)).

Definition mkdirSync_recursive (p : path) : M unit :=
  fun fs =>
    match mkdirp_at fs p with
    | Ok fs' => Some (fs', inl tt)
    | Err e => Some (fs, inr (mkExn e "mkdir" p))
    end.

Definition readFileSync (p : path) : M string :=
  fun fs =>
    match lookup fs p with
    | Some (File c) => Some (fs, inl c)
    | Some (Dir _) => Some (fs, inr (mkExn EISDIR "read" p))
    | None => Some (fs, inr (mkExn ENOENT "open" p))
    end.

Definition writeFileSync (p : path) (c : string) : M unit :=
  fun fs =>
    match write_at fs p c with
    | Ok fs' => Some (fs', inl tt)
    | Err e => Some (fs, inr (mkExn e "open" p))
    end.

Definition copyFileSync (src dest : path) : M unit :=
  fun fs =>
    match lookup fs src with
    | Some (File c) =>
        match write_at fs dest c with
        | Ok fs' => Some (fs', inl tt)
        | Err e => Some (fs, inr (mkExn e "copyfile" dest))
        end
    | Some (Dir _) => Some (fs, inr (mkExn EISDIR "copyfile" src))
    | None => Some (fs, inr (mkExn ENOENT "copyfile" src))
    end.

(** A [Dirent] of [readdirSync(p, { withFileTypes: true })]. *)
Record Dirent : Type := mkDirent { name : string; isDirectory : bool }.

Definition dirent_of (e : string * node) : Dirent :=
  mkDirent (fst e) (match snd e with Dir _ => true | File _ => false end).

Definition readdirSync (p : path) : M (list Dirent) :=
  fun fs =>
    match lookup fs p with
    | Some (Dir es) => Some (fs, inl (map dirent_of es))
    | Some (File _) => Some (fs, inr (mkExn ENOTDIR "scandir" p))
    | None => Some (fs, inr (mkExn ENOENT "scandir" p))
    end.

(** ** String helpers of the JavaScript runtime *)

(** [name.endsWith(ext)] *)
Definition endsWith (s ext : string) : bool :=
  (String.length ext <=? String.length s)%nat
  && String.eqb (substring (String.length s - String.length ext) (String.length ext) s) ext.

(** [pattern.startsWith('*')] *)
Definition startsWith (s pre : string) : bool := String.prefix pre s.

(** [pattern.slice(1)] *)
Definition slice1 (s : string) : string :=
  match s with
  | EmptyString => EmptyString
  | String _ r => r
  end.

(** Template literal [`${n}`] of a non-negative integer. *)
Definition decimal (n : nat) : string := NilEmpty.string_of_uint (Nat.to_uint n).

Fixpoint string_rev_onto (s acc : string) : string :=
  match s with
  | EmptyString => acc
  | String c r => string_rev_onto r (String c acc)
  end.

Definition string_rev (s : string) : string := string_rev_onto s EmptyString.

(** White space and line terminators of ECMAScript, on UTF-8 text: the
    one-byte ones (TAB, LF, VT, FF, CR, SP), U+00A0, U+1680, U+2000..U+200A,
    U+2028, U+2029, U+202F, U+205F, U+3000 and U+FEFF. *)
Definition ws1 (c : ascii) : bool :=
  let n := nat_of_ascii c in (((9 <=? n) && (n <=? 13)) || (n =? 32))%nat.

Definition ws2 (c1 c2 : ascii) : bool :=
  ((nat_of_ascii c1 =? 194) && (nat_of_ascii c2 =? 160))%nat.

Definition ws3 (c1 c2 c3 : ascii) : bool :=
  let a := nat_of_ascii c1 in
  let b := nat_of_ascii c2 in
  let c := nat_of_ascii c3 in
  (((a =? 225) && (b =? 154) && (c =? 128))
   || ((a =? 226) && (b =? 128)
       && (((128 <=? c) && (c <=? 138)) || (c =? 168) || (c =? 169) || (c =? 175)))
   || ((a =? 226) && (b =? 129) && (c =? 159))
   || ((a =? 227) && (b =? 128) && (c =? 128))
   || ((a =? 239) && (b =? 187) && (c =? 191)))%nat.

(** Drop the white space at the front; with [back] the text is read from its
    end, so the bytes of a character come last byte first. *)
Fixpoint strip (back : bool) (s : string) : string :=
  match s with
  | EmptyString => s
  | String c r =>
      if ws1 c then strip back r
      else
        match r with
        | EmptyString => s
        | String c2 r2 =>
            if (if back then ws2 c2 c else ws2 c c2) then strip back r2
            else
              match r2 with
              | EmptyString => s
              | String c3 r3 =>
                  if (if back then ws3 c3 c2 c else ws3 c c2 c3)
                  then strip back r3 else s
              end
        end
  end.

(** [String.prototype.trim] *)
Definition trim (s : string) : string :=
  string_rev (strip true (string_rev (strip false s))).

(** ** Exclusion and preservation policy *)

Definition EXCLUDE_PATTERNS : list string :=
  ["__pycache__"; ".DS_Store"; "*.pyc"; ".env"; "specs"; ".git"].

Definition PRESERVE_ON_UPDATE : list string := ["specs"; ".env"].

Fixpoint matchesAny (name : string) (patterns : list string) : bool :=
  match patterns with
  | [] => false
  | pattern :: rest =>
      if startsWith pattern "*" then
        if endsWith name (slice1 pattern) then true else matchesAny name rest
      else if String.eqb name pattern then true
      else matchesAny name rest
  end.

Definition shouldExclude (name : string) : bool := matchesAny name EXCLUDE_PATTERNS.

(** [PRESERVE_ON_UPDATE.includes(name)] *)
Definition shouldPreserve (name : string) : bool :=
  existsb (String.eqb name) PRESERVE_ON_UPDATE.

(** ** JSON values *)

Inductive json : Type :=
| JNull
| JBool (b : bool)
| JNumber (n : Z)
| JString (s : string)
| JArray (items : list json)
| JObject (fields : list (string * json)).

(** The value of an expression; [None] is [undefined]. *)
Definition jsval := option json.

(** Truthiness, as [!v] and [v || w] test it. *)
Definition truthy (v : jsval) : bool :=
  match v with
  | None => false
  | Some JNull => false
  | Some (JBool b) => b
  | Some (JNumber n) => negb (n =? 0)%Z
  | Some (JString s) => negb (String.eqb s "")
  | Some (JArray _) => true
  | Some (JObject _) => true
  end.

(** [v || d] *)
Definition js_or (v : jsval) (d : json) : json :=
  match v with
  | Some t => if truthy v then t else d
  | None => d
  end.

(** Property access [v.k] (and [v?.k]): [undefined] unless [v] is an object
    that has the key. *)
Definition js_get (k : string) (v : json) : jsval :=
  match v with
  | JObject fields => assoc k fields
  | _ => None
  end.

(** [v !== s] for a string [s]. *)
Definition strict_neq (v : jsval) (s : string) : bool :=
  match v with
  | Some (JString s') => negb (String.eqb s' s)
  | _ => true
  end.

(** ** Result records *)

Record VersionMetadata : Type := mkMetadata {
  version : string;
  sourceHash : string;
  sourcePath : string;
  initializedAt : json;
  updatedAt : string
}.

(** The object literal the program hands to [JSON.stringify]. *)
Definition metadata_json (m : VersionMetadata) : json :=
  JObject [("version", JString (version m));
           ("sourceHash", JString (sourceHash m));
           ("sourcePath", JString (sourcePath m));
           ("initializedAt", initializedAt m);
           ("updatedAt", JString (updatedAt m))].

Record InitializationResult : Type := mkInit {
  success : bool;
  error : option string;
  init_version : option string;
  wasUpdate : option bool
}.

Record VersionCheckResult : Type := mkCheck {
  isInitialized : bool;
  currentVersion : jsval;
  sourceVersion : option string;
  updateAvailable : bool;
  check_sourcePath : option path
}.

(** ** The host runtime

    What the program takes from Node.js besides the file system:
    [String.prototype.localeCompare], the SHA-256 digest in hexadecimal of
    [crypto.createHash('sha256')], [JSON.parse] ([None] is a thrown
    [SyntaxError]) and [JSON.stringify(v, null, 2)]. *)
Class Runtime : Type := {
  localeCompare : string -> string -> Z;
  sha256_hex : string -> string;
  JSON_parse : string -> option json;
  JSON_stringify : json -> string
}.

(** [Array.prototype.sort(comparefn)]: a stable sort; [x] stays in front of
    [y] unless [comparefn x y > 0]. *)
Fixpoint sort_insert {A : Type} (comparefn : A -> A -> Z) (x : A) (l : list A) : list A :=
  match l with
  | [] => [x]
  | y :: l' =>
      if (comparefn x y >? 0)%Z then y :: sort_insert comparefn x l' else x :: l
  end.

Definition array_sort {A : Type} (comparefn : A -> A -> Z) (l : list A) : list A :=
  fold_right (sort_insert comparefn) [] l.

Fixpoint concat_str (l : list string) : string :=
  match l with
  | [] => ""
  | s :: l' => s +++ concat_str l'
  end.

Section Program.

Context {RT : Runtime}.

(** *** calculateDirectoryHash *)

(** The comparison the hasher sorts with: [(a, b) => a.name.localeCompare(b.name)]. *)
Definition by_name {A : Type} (a b : string * A) : Z := localeCompare (fst a) (fst b).

(** The bytes [processDirectory] feeds to [hash.update] while it visits a
    directory. The traversal only reads, so it is a function of the tree
    below the path. Each entry is paired with the bytes of its own visit, and
    the pairs are then put in the order of the sorted listing
    (see [processDirectory_unfold]). *)
Fixpoint processDirectory (t : node) : string :=
  match t with
  | File _ => ""
  | Dir es =>
      concat_str (map snd (array_sort by_name
        (map (fun e =>
                (fst e,
                 if shouldExclude (fst e) then ""
                 else match snd e with
                      | Dir _ => "dir:" +++ fst e +++ processDirectory (snd e)
                      | File content =>
                          "file:" +++ fst e +++ ":" +++ decimal (String.length content)
                          +++ content
                      end)) es)))
  end.

(** [hash.digest('hex').slice(0, 16)] of the bytes fed. *)
Definition digest16 (fed : string) : string := substring 0 16 (sha256_hex fed).

Definition calculateDirectoryHash (dirPath : path) : M string :=
  fun fs =>
    match lookup fs dirPath with
    | None => Some (fs, inl (digest16 ""))
    | Some (File _) => Some (fs, inr (mkExn ENOTDIR "scandir" dirPath))
    | Some (Dir es) => Some (fs, inl (digest16 (processDirectory (Dir es))))
    end.

(** *** copyDirectoryRecursive *)

(** The body of [for (const entry of entries)]; [rec] is the recursive call. *)
Definition copyEntries (rec : path -> path -> bool -> M unit)
           (src dest : path) (isUpdate : bool) : list Dirent -> M unit :=
  fix loop (entries : list Dirent) : M unit :=
    match entries with
    | [] => ret tt
    | entry :: rest =>
        let srcPath := path_join src (name entry) in
        let destPath := path_join dest (name entry) in
        if shouldExclude (name entry) then loop rest
        else
          skip <- (if isUpdate && shouldPreserve (name entry)
                   then existsSync destPath else ret false) ;;
          if skip then loop rest
          else
            (if isDirectory entry
             then rec srcPath destPath isUpdate
             else copyFileSync srcPath destPath) ;;;
            loop rest
    end.

Fixpoint copyDirectoryRecursive (fuel : nat) (src dest : path) (isUpdate : bool)
  : M unit :=
  match fuel with
  | O => fun _ => None
  | S fuel' =>
      ex <- existsSync dest ;;
      when (negb ex) (mkdirSync_recursive dest) ;;;
      entries <- readdirSync src ;;
      copyEntries (copyDirectoryRecursive fuel') src dest isUpdate entries
  end.

(** *** Version marker and metadata sidecar *)

Definition readSourceVersion (sourcePath : path) : M string :=
  let versionFile := path_join sourcePath "VERSION" in
  ex <- existsSync versionFile ;;
  if ex then
    c <- readFileSync versionFile ;;
    ret (trim c)
  else ret "0.0.0".

(** Returns [JNull] for [null]. *)
Definition readVersionMetadata (autoBuildPath : path) : M json :=
  let metadataPath := path_join autoBuildPath ".version.json" in
  ex <- existsSync metadataPath ;;
  if ex then
    try_catch
      (c <- readFileSync metadataPath ;;
       ret (match JSON_parse c with
            | Some v => v
            | None => JNull
            end))
      (fun _ => JNull)
  else ret JNull.

Definition writeVersionMetadata (autoBuildPath : path) (metadata : VersionMetadata)
  : M unit :=
  let metadataPath := path_join autoBuildPath ".version.json" in
  writeFileSync metadataPath (JSON_stringify (metadata_json metadata)).

(** *** checkVersion

    [now] is what [new Date().toISOString()] returns during the call. *)
Definition checkVersion (projectPath sourcePath : path) (now : string)
  : M VersionCheckResult :=
  let dotAutoBuildPath := path_join projectPath ".auto-claude" in
  dotExists <- existsSync dotAutoBuildPath ;;
  if negb dotExists then
    ret (mkCheck false None None false None)
  else
    let installedPath := dotAutoBuildPath in
    metadata0 <- readVersionMetadata installedPath ;;
    sourceExists <- existsSync sourcePath ;;
    metadata <-
      (if negb (truthy (Some metadata0)) && sourceExists then
         sourceVersion <- readSourceVersion sourcePath ;;
         installedHash <- calculateDirectoryHash installedPath ;;
         let synthesized :=
           mkMetadata sourceVersion installedHash (path_str sourcePath)
                      (JString now) now in
         writeVersionMetadata installedPath synthesized ;;;
         ret (metadata_json synthesized)
       else ret metadata0) ;;
    if negb (truthy (Some metadata)) then
      ret (mkCheck true None None false (Some installedPath))
    else
      sourceExists' <- existsSync sourcePath ;;
      if negb sourceExists' then
        ret (mkCheck true (js_get "version" metadata) None false (Some installedPath))
      else
        sourceVersion <- readSourceVersion sourcePath ;;
        sourceHash <- calculateDirectoryHash sourcePath ;;
        let hashDiffers := strict_neq (js_get "sourceHash" metadata) sourceHash in
        let versionDiffers := strict_neq (js_get "version" metadata) sourceVersion in
        let updateAvailable := hashDiffers && versionDiffers in
        ret (mkCheck true (js_get "version" metadata) (Some sourceVersion)
                     updateAvailable (Some installedPath)).

(** *** initializeProject *)

(** [if (!existsSync(dir)) mkdirSync(dir, { recursive: true });
     writeFileSync(path.join(dir, '.gitkeep'), '')] *)
Definition createDataDirectory (dir : path) : M unit :=
  ex <- existsSync dir ;;
  when (negb ex) (mkdirSync_recursive dir) ;;;
  writeFileSync (path_join dir ".gitkeep") "".

Definition initializeBody (fuel : nat) (sourcePath dotAutoBuildPath : path)
           (now : string) : M InitializationResult :=
  copyDirectoryRecursive fuel sourcePath dotAutoBuildPath false ;;;
  createDataDirectory (path_join dotAutoBuildPath "specs") ;;;
  createDataDirectory (path_join dotAutoBuildPath "roadmap") ;;;
  createDataDirectory (path_join dotAutoBuildPath "ideation") ;;;
  let envExamplePath := path_join dotAutoBuildPath ".env.example" in
  let envPath := path_join dotAutoBuildPath ".env" in
  exampleExists <- existsSync envExamplePath ;;
  envExists <- existsSync envPath ;;
  when (exampleExists && negb envExists) (copyFileSync envExamplePath envPath) ;;;
  version <- readSourceVersion sourcePath ;;
  sourceHash <- calculateDirectoryHash sourcePath ;;
  writeVersionMetadata dotAutoBuildPath
    (mkMetadata version sourceHash (path_str sourcePath) (JString now) now) ;;;
  ret (mkInit true None (Some version) (Some false)).

Definition initializeProject (fuel : nat) (projectPath sourcePath : path)
           (now : string) : M InitializationResult :=
  sourceFound <- existsSync sourcePath ;;
  if negb sourceFound then
    ret (mkInit false
           (Some ("Auto-build source not found at: " +++ path_str sourcePath))
           None None)
  else
    projectFound <- existsSync projectPath ;;
    if negb projectFound then
      ret (mkInit false
             (Some ("Project directory not found: " +++ path_str projectPath))
             None None)
    else
      let dotAutoBuildPath := path_join projectPath ".auto-claude" in
      dotExists <- existsSync dotAutoBuildPath ;;
      if dotExists then
        ret (mkInit false
               (Some "Project already has auto-claude initialized (.auto-claude exists)")
               None None)
      else
        try_catch (initializeBody fuel sourcePath dotAutoBuildPath now)
                  (fun e => mkInit false (Some (message e)) None None).

(** *** updateProject *)

Definition updateBody (fuel : nat) (sourcePath targetPath : path) (now : string)
  : M InitializationResult :=
  copyDirectoryRecursive fuel sourcePath targetPath true ;;;
  version <- readSourceVersion sourcePath ;;
  sourceHash <- calculateDirectoryHash sourcePath ;;
  existingMetadata <- readVersionMetadata targetPath ;;
  writeVersionMetadata targetPath
    (mkMetadata version sourceHash (path_str sourcePath)
       (js_or (js_get "initializedAt" existingMetadata) (JString now))
       now) ;;;
  ret (mkInit true None (Some version) (Some true)).

Definition updateProject (fuel : nat) (projectPath sourcePath : path)
           (now : string) : M InitializationResult :=
  sourceFound <- existsSync sourcePath ;;
  if negb sourceFound then
    ret (mkInit false
           (Some ("Auto-build source not found at: " +++ path_str sourcePath))
           None None)
  else
    let dotAutoBuildPath := path_join projectPath ".auto-claude" in
    dotExists <- existsSync dotAutoBuildPath ;;
    if negb dotExists then
      ret (mkInit false
             (Some "No .auto-claude folder found to update. Initialize the project first.")
             None None)
    else
      let targetPath := dotAutoBuildPath in
      try_catch (updateBody fuel sourcePath targetPath now)
                (fun e => mkInit false (Some (message e)) None None).

End Program.


(** ** The other entry points of the module *)

Definition hasLocalSource (projectPath : path) : M bool :=
  let localSourcePath := path_join projectPath "auto-claude" in
  let versionFile := path_join localSourcePath "VERSION" in
  sourceDir <- existsSync localSourcePath ;;
  if sourceDir then existsSync versionFile else ret false.

Definition getLocalSourcePath (projectPath : path) : M (option path) :=
  let localSourcePath := path_join projectPath "auto-claude" in
  found <- hasLocalSource projectPath ;;
  if found then ret (Some localSourcePath) else ret None.

Definition hasCustomEnv (autoBuildPath : path) : M bool :=
  let envPath := path_join autoBuildPath ".env" in
  let envExamplePath := path_join autoBuildPath ".env.example" in
  envExists <- existsSync envPath ;;
  if negb envExists then ret false
  else
    exampleExists <- existsSync envExamplePath ;;
    if negb exampleExists then ret true
    else
      envContent <- readFileSync envPath ;;
      exampleContent <- readFileSync envExamplePath ;;
      ret (negb (String.eqb envContent exampleContent)).

(** Returns the name of the folder, relative to the project. *)
Definition getAutoBuildPath (projectPath : path) : M (option string) :=
  let dotAutoBuildPath := path_join projectPath ".auto-claude" in
  dotExists <- existsSync dotAutoBuildPath ;;
  if dotExists then ret (Some ".auto-claude") else ret None.

(** ** A concrete runtime, to run the program on examples *)

Module Sample.

(** *** SHA-256 (FIPS 180-4) on bytes *)

Definition K256 : list N :=
  [1116352408; 1899447441; 3049323471; 3921009573; 961987163; 1508970993;
   2453635748; 2870763221; 3624381080; 310598401; 607225278; 1426881987;
   1925078388; 2162078206; 2614888103; 3248222580; 3835390401; 4022224774;
   264347078; 604807628; 770255983; 1249150122; 1555081692; 1996064986;
   2554220882; 2821834349; 2952996808; 3210313671; 3336571891; 3584528711;
   113926993; 338241895; 666307205; 773529912; 1294757372; 1396182291;
   1695183700; 1986661051; 2177026350; 2456956037; 2730485921; 2820302411;
   3259730800; 3345764771; 3516065817; 3600352804; 4094571909; 275423344;
   430227734; 506948616; 659060556; 883997877; 958139571; 1322822218;
   1537002063; 1747873779; 1955562222; 2024104815; 2227730452; 2361852424;
   2428436474; 2756734187; 3204031479; 3329325298]%N.

Definition H256 : list N :=
  [1779033703; 3144134277; 1013904242; 2773480762; 1359893119; 2600822924;
   528734635; 1541459225]%N.

Definition w32 (x : N) : N := N.land x 4294967295.

Definition add32 (x y : N) : N := w32 (x + y).

Definition rotr (n x : N) : N := N.lor (N.shiftr x n) (w32 (N.shiftl x (32 - n))).

Definition bsig0 (x : N) : N := N.lxor (N.lxor (rotr 2 x) (rotr 13 x)) (rotr 22 x).
Definition bsig1 (x : N) : N := N.lxor (N.lxor (rotr 6 x) (rotr 11 x)) (rotr 25 x).
Definition ssig0 (x : N) : N := N.lxor (N.lxor (rotr 7 x) (rotr 18 x)) (N.shiftr x 3).
Definition ssig1 (x : N) : N := N.lxor (N.lxor (rotr 17 x) (rotr 19 x)) (N.shiftr x 10).
Definition ch (x y z : N) : N := N.lxor (N.land x y) (N.land (N.lxor x 4294967295) z).
Definition maj (x y z : N) : N :=
  N.lxor (N.lxor (N.land x y) (N.land x z)) (N.land y z).

Definition bytes_of (s : string) : list N := map N_of_ascii (list_ascii_of_string s).

(** The message followed by 0x80, zeros, and its length in bits on 8 bytes. *)
Definition pad (msg : list N) : list N :=
  let len := List.length msg in
  let zeros := (64 - ((len + 9) mod 64)) mod 64 in
  let bits := N.of_nat (8 * len) in
  msg ++ [128%N] ++ repeat 0%N zeros
      ++ map (fun i => N.land (N.shiftr bits (8 * N.of_nat (7 - i))) 255) (seq 0 8).

Fixpoint words_of (fuel : nat) (bs : list N) : list N :=
  match fuel, bs with
  | S fuel', a :: b :: c :: d :: rest =>
      (N.shiftl a 24 + N.shiftl b 16 + N.shiftl c 8 + d)%N :: words_of fuel' rest
  | _, _ => []
  end.

(** The message schedule, most recent word first. *)
Fixpoint schedule (n : nat) (ws : list N) : list N :=
  match n with
  | O => ws
  | S n' =>
      let w :=
        add32 (add32 (ssig1 (nth 1 ws 0%N)) (nth 6 ws 0%N))
              (add32 (ssig0 (nth 14 ws 0%N)) (nth 15 ws 0%N)) in
      schedule n' (w :: ws)
  end.

Definition round (st : list N) (kw : N * N) : list N :=
  match st with
  | [a; b; c; d; e; f; g; h] =>
      let t1 := add32 (add32 (add32 h (bsig1 e)) (add32 (ch e f g) (fst kw))) (snd kw) in
      let t2 := add32 (bsig0 a) (maj a b c) in
      [add32 t1 t2; a; b; c; add32 d t1; e; f; g]
  | _ => st
  end.

Definition compress (st : list N) (block : list N) : list N :=
  let ws := rev (schedule 48 (rev block)) in
  map (fun p => add32 (fst p) (snd p))
      (combine st (fold_left round (combine K256 ws) st)).

Fixpoint blocks (fuel : nat) (st : list N) (ws : list N) : list N :=
  match fuel with
  | O => st
  | S fuel' =>
      match ws with
      | [] => st
      | _ => blocks fuel' (compress st (firstn 16 ws)) (skipn 16 ws)
      end
  end.

Definition hex_digit (n : N) : ascii :=
  ascii_of_N (if (n <? 10)%N then 48 + n else 87 + n).

Definition hex_word (w : N) : string :=
  string_of_list_ascii
    (map (fun i => hex_digit (N.land (N.shiftr w (4 * N.of_nat (7 - i))) 15)) (seq 0 8)).

Definition sha256 (s : string) : string :=
  let bs := pad (bytes_of s) in
  let ws := words_of (List.length bs) bs in
  concat_str (map hex_word (blocks (List.length ws) H256 ws)).

(** *** JSON text *)

Definition DQ : ascii := ascii_of_nat 34.
Definition BS : ascii := ascii_of_nat 92.
Definition LF : string := String (ascii_of_nat 10) "".

Definition hex_nibble (n : nat) : ascii :=
  ascii_of_nat (if (n <? 10)%nat then 48 + n else 87 + n).

Fixpoint escape (s : string) : string :=
  match s with
  | EmptyString => ""
  | String c r =>
      let n := nat_of_ascii c in
      (if (n =? 34)%nat then String BS (String DQ "")
       else if (n =? 92)%nat then String BS (String BS "")
       else if (n =? 8)%nat then String BS "b"
       else if (n =? 12)%nat then String BS "f"
       else if (n =? 10)%nat then String BS "n"
       else if (n =? 13)%nat then String BS "r"
       else if (n =? 9)%nat then String BS "t"
       else if (n <? 32)%nat then
         String BS ("u00" +++ String (hex_nibble (n / 16)) (String (hex_nibble (n mod 16)) ""))
       else String c "") +++ escape r
  end.

Definition quote (s : string) : string := String DQ (escape s) +++ String DQ "".

Definition decimalZ (n : Z) : string :=
  match n with
  | Zneg p => "-" +++ decimal (Pos.to_nat p)
  | _ => decimal (Z.to_nat n)
  end.

Fixpoint join (sep : string) (l : list string) : string :=
  match l with
  | [] => ""
  | [x] => x
  | x :: l' => x +++ sep +++ join sep l'
  end.

(** [JSON.stringify(v, null, 2)], [v] standing at indentation [indent]. *)
Fixpoint stringify_at (indent : string) (v : json) : string :=
  match v with
  | JNull => "null"
  | JBool true => "true"
  | JBool false => "false"
  | JNumber n => decimalZ n
  | JString s => quote s
  | JArray [] => "[]"
  | JArray items =>
      "[" +++ LF
      +++ join ("," +++ LF)
            (map (fun x => indent +++ "  " +++ stringify_at (indent +++ "  ") x) items)
      +++ LF +++ indent +++ "]"
  | JObject [] => "{}"
  | JObject fields =>
      "{" +++ LF
      +++ join ("," +++ LF)
            (map (fun kv => indent +++ "  " +++ quote (fst kv) +++ ": "
                            +++ stringify_at (indent +++ "  ") (snd kv)) fields)
      +++ LF +++ indent +++ "}"
  end.

Definition stringify (v : json) : string := stringify_at "" v.

Fixpoint skip_ws (s : string) : string :=
  match s with
  | String c r =>
      let n := nat_of_ascii c in
      if ((n =? 32) || (n =? 9) || (n =? 10) || (n =? 13))%nat then skip_ws r else s
  | EmptyString => s
  end.

Definition hex_value (c : ascii) : option nat :=
  let n := nat_of_ascii c in
  if ((48 <=? n) && (n <=? 57))%nat then Some (n - 48)
  else if ((97 <=? n) && (n <=? 102))%nat then Some (n - 87)
  else if ((65 <=? n) && (n <=? 70))%nat then Some (n - 55)
  else None.

(** UTF-8 of a code point of the basic plane. *)
Definition utf8 (cp : nat) : string :=
  if (cp <? 128)%nat then String (ascii_of_nat cp) ""
  else if (cp <? 2048)%nat then
    String (ascii_of_nat (192 + cp / 64)) (String (ascii_of_nat (128 + cp mod 64)) "")
  else
    String (ascii_of_nat (224 + cp / 4096))
      (String (ascii_of_nat (128 + (cp / 64) mod 64))
         (String (ascii_of_nat (128 + cp mod 64)) "")).

(** The characters of a string literal after its opening quote, and the rest. *)
Fixpoint read_string (s : string) (acc : string) : option (string * string) :=
  match s with
  | EmptyString => None
  | String c r =>
      let n := nat_of_ascii c in
      if (n =? 34)%nat then Some (string_rev acc, r)
      else if (n <? 32)%nat then None
      else if (n =? 92)%nat then
        match r with
        | EmptyString => None
        | String e r' =>
            let m := nat_of_ascii e in
            if (m =? 117)%nat then
              match r' with
              | String h1 (String h2 (String h3 (String h4 r''))) =>
                  match hex_value h1, hex_value h2, hex_value h3, hex_value h4 with
                  | Some a, Some b, Some c', Some d =>
                      read_string r''
                        (string_rev (utf8 (4096 * a + 256 * b + 16 * c' + d)) +++ acc)
                  | _, _, _, _ => None
                  end
              | _ => None
              end
            else
              match (if (m =? 34)%nat then Some 34
                     else if (m =? 92)%nat then Some 92
                     else if (m =? 47)%nat then Some 47
                     else if (m =? 98)%nat then Some 8
                     else if (m =? 102)%nat then Some 12
                     else if (m =? 110)%nat then Some 10
                     else if (m =? 114)%nat then Some 13
                     else if (m =? 116)%nat then Some 9
                     else None) with
              | Some k => read_string r' (String (ascii_of_nat k) acc)
              | None => None
              end
        end
      else read_string r (String c acc)
  end.

Fixpoint read_digits (s : string) (acc : Z) : Z * string :=
  match s with
  | String c r =>
      let n := nat_of_ascii c in
      if ((48 <=? n) && (n <=? 57))%nat
      then read_digits r (10 * acc + Z.of_nat (n - 48))%Z
      else (acc, s)
  | EmptyString => (acc, s)
  end.

Definition is_digit (s : string) : bool :=
  match s with
  | String c _ => ((48 <=? nat_of_ascii c) && (nat_of_ascii c <=? 57))%nat
  | EmptyString => false
  end.

(** An integer literal; a fraction or an exponent is not read. *)
Definition read_number (s : string) : option (json * string) :=
  let '(neg, body) :=
    match s with
    | String c r => if (nat_of_ascii c =? 45)%nat then (true, r) else (false, s)
    | EmptyString => (false, s)
    end in
  if is_digit body then
    let '(n, rest) := read_digits body 0%Z in
    match rest with
    | String c _ =>
        let k := nat_of_ascii c in
        if ((k =? 46) || (k =? 101) || (k =? 69))%nat then None
        else Some (JNumber (if neg then - n else n)%Z, rest)
    | EmptyString => Some (JNumber (if neg then - n else n)%Z, rest)
    end
  else None.

Definition drop (n : nat) (s : string) : string := substring n (String.length s - n) s.

Fixpoint read_value (fuel : nat) (s : string) : option (json * string) :=
  match fuel with
  | O => None
  | S fuel' =>
      let s := skip_ws s in
      match s with
      | EmptyString => None
      | String c r =>
          let n := nat_of_ascii c in
          if (n =? 34)%nat then
            match read_string r "" with
            | Some (str, rest) => Some (JString str, rest)
            | None => None
            end
          else if (n =? 91)%nat then
            match skip_ws r with
            | String c' r' =>
                if (nat_of_ascii c' =? 93)%nat then Some (JArray [], r')
                else read_items fuel' r []
            | EmptyString => None
            end
          else if (n =? 123)%nat then
            match skip_ws r with
            | String c' r' =>
                if (nat_of_ascii c' =? 125)%nat then Some (JObject [], r')
                else read_members fuel' r []
            | EmptyString => None
            end
          else if String.prefix "null" s then Some (JNull, drop 4 s)
          else if String.prefix "true" s then Some (JBool true, drop 4 s)
          else if String.prefix "false" s then Some (JBool false, drop 5 s)
          else read_number s
      end
  end
with read_items (fuel : nat) (s : string) (acc : list json) : option (json * string) :=
  match fuel with
  | O => None
  | S fuel' =>
      match read_value fuel' s with
      | Some (v, rest) =>
          match skip_ws rest with
          | String c r =>
              if (nat_of_ascii c =? 44)%nat then read_items fuel' r (acc ++ [v])
              else if (nat_of_ascii c =? 93)%nat then Some (JArray (acc ++ [v]), r)
              else None
          | EmptyString => None
          end
      | None => None
      end
  end
with read_members (fuel : nat) (s : string) (acc : list (string * json))
  : option (json * string) :=
  match fuel with
  | O => None
  | S fuel' =>
      match skip_ws s with
      | String q r =>
          if (nat_of_ascii q =? 34)%nat then
            match read_string r "" with
            | Some (key, rest) =>
                match skip_ws rest with
                | String colon rest' =>
                    if (nat_of_ascii colon =? 58)%nat then
                      match read_value fuel' rest' with
                      | Some (v, rest'') =>
                          match skip_ws rest'' with
                          | String c r' =>
                              if (nat_of_ascii c =? 44)%nat
                              then read_members fuel' r' (set_entry key v acc)
                              else if (nat_of_ascii c =? 125)%nat
                              then Some (JObject (set_entry key v acc), r')
                              else None
                          | EmptyString => None
                          end
                      | None => None
                      end
                    else None
                | EmptyString => None
                end
            | None => None
            end
          else None
      | EmptyString => None
      end
  end.

Definition parse (s : string) : option json :=
  match read_value (2 * String.length s + 2) s with
  | Some (v, rest) =>
      match skip_ws rest with
      | EmptyString => Some v
      | _ => None
      end
  | None => None
  end.

(** Comparison of the UTF-8 bytes, in place of a locale's collation. *)
Definition ordinalCompare (a b : string) : Z :=
  match String.compare a b with
  | Lt => (-1)%Z
  | Eq => 0%Z
  | Gt => 1%Z
  end.

Definition runtime : Runtime :=
  {| localeCompare := ordinalCompare;
     sha256_hex := sha256;
     JSON_parse := parse;
     JSON_stringify := stringify |}.

End Sample.

(** ** Notions the statements use *)

(** Neither path lies at or below the other. *)
Definition apart (p q : path) : Prop := ~ is_prefix p q /\ ~ is_prefix q p.

(** Height of a tree: the number of nested directories. *)
Fixpoint depth (t : node) : nat :=
  match t with
  | File _ => 0
  | Dir es => S (fold_right (fun e m => Nat.max (depth (snd e)) m) 0 es)
  end.

(** The same tree, its directories enumerated in another order. *)
Inductive tree_perm : node -> node -> Prop :=
| tp_file : forall c, tree_perm (File c) (File c)
| tp_dir : forall es es' es'',
    Forall2 (fun e e' => fst e = fst e' /\ tree_perm (snd e) (snd e')) es es' ->
    Permutation es' es'' ->
    tree_perm (Dir es) (Dir es'').

Section Collation.

Context {RT : Runtime}.

Fixpoint no_tie_with (a : string) (l : list string) : bool :=
  match l with
  | [] => true
  | b :: l' => negb (localeCompare a b =? 0)%Z && no_tie_with a l'
  end.

Fixpoint no_ties (l : list string) : bool :=
  match l with
  | [] => true
  | a :: l' => no_tie_with a l' && no_ties l'
  end.

(** In every directory of the tree, [localeCompare] tells any two entries
    apart. *)
Fixpoint collation_separates (t : node) : bool :=
  match t with
  | File _ => true
  | Dir es =>
      no_ties (map fst es) && forallb (fun e => collation_separates (snd e)) es
  end.

(** [localeCompare] is a consistent comparison function, in the sense
    [Array.prototype.sort] asks of its argument. *)
Definition consistent_comparator : Prop :=
  (forall a b, Z.sgn (localeCompare b a) = (- Z.sgn (localeCompare a b))%Z)
  /\ (forall a b c, (localeCompare a b <= 0)%Z -> (localeCompare b c <= 0)%Z ->
                    (localeCompare a c <= 0)%Z).

End Collation.

(** The reading "first line, trimmed" of a version marker. *)
Fixpoint first_line (s : string) : string :=
  match s with
  | EmptyString => EmptyString
  | String c r => if (nat_of_ascii c =? 10)%nat then EmptyString else String c (first_line r)
  end.

Definition first_line_trimmed (s : string) : string := trim (first_line s).

(** ** Effects and frames *)

(** Every run of [m] relates the state before to the state after. *)
Definition preserves {A : Type} (P : FS -> FS -> Prop) (m : M A) : Prop :=
  forall fs fs' r, m fs = Some (fs', r) -> P fs fs'.

Definition preorder (P : FS -> FS -> Prop) : Prop :=
  (forall x, P x x) /\ (forall x y z, P x y -> P y z -> P x z).

(** [m] never runs out of fuel. *)
Definition total {A : Type} (m : M A) : Prop := forall fs, m fs <> None.

(** Nothing outside or at-and-above the write targets [W] changes, subtree
    by subtree. *)
Definition frame_outside (W : path -> Prop) (fs fs' : FS) : Prop :=
  forall q, (forall p, W p -> ~ is_prefix q p) -> lookup fs' q = lookup fs q.

(** What exists keeps its kind and content unless it is in [W]. *)
Definition stat_outside (W : path -> Prop) (fs fs' : FS) : Prop :=
  forall q, stat fs q <> None -> ~ W q -> stat fs' q = stat fs q.

(** What exists goes on existing. *)
Definition grows (fs fs' : FS) : Prop :=
  forall q, stat fs q <> None -> stat fs' q <> None.

(** Every value [m] returns satisfies [Q]. *)
Definition returns_with {A : Type} (Q : A -> Prop) (m : M A) : Prop :=
  forall fs fs' a, m fs = Some (fs', inl a) -> Q a.

(** The paths a copy into [dest] may write: [dest] and what lies below it
    through names that are not excluded. *)
Definition copy_targets (dest : path) (p : path) : Prop :=
  exists rel, Forall (fun n => shouldExclude n = false) rel /\ p = dest ++ rel.

Definition strictly_below (dest : path) (q : path) : Prop :=
  exists n r, q = dest ++ n :: r.

(** Below [dest], through one of the listed entries that is not excluded. *)
Definition below_entries (dest : path) (entries : list Dirent) (q : path) : Prop :=
  exists e r, In e entries /\ shouldExclude (name e) = false /\ q = dest ++ name e :: r.

Definition depth_at (fs : FS) (p : path) : nat :=
  match lookup fs p with
  | Some t => depth t
  | None => 0
  end.

(** The file at [rel] in the destination is there with content [c], and the
    source has nothing at [rel]. *)
Definition unshipped (src dest rel : path) (c : string) (fs : FS) : Prop :=
  stat fs (dest ++ rel) = Some (KFile c) /\ lookup fs (src ++ rel) = None.

(** The version a bundle declares, when reading it does not throw. *)
Definition version_of (fs : FS) (sourcePath : path) : string :=
  match lookup fs (path_join sourcePath "VERSION") with
  | Some (File c) => trim c
  | _ => "0.0.0"
  end.

(** A data directory and its marker, once made. *)
Definition scaffolded (d : path) (fs : FS) : Prop :=
  stat fs d = Some KDir /\ stat fs (path_join d ".gitkeep") = Some (KFile "").

Section Observations.

Context {RT : Runtime}.

(** The fingerprint of what is at [p], when computing it does not throw. *)
Definition hash_of (fs : FS) (p : path) : string :=
  match lookup fs p with
  | Some t => digest16 (processDirectory t)
  | None => digest16 ""
  end.

(** What [readVersionMetadata] returns, as a function of the state. *)
Definition metadata_of (fs : FS) (autoBuildPath : path) : json :=
  match lookup fs (path_join autoBuildPath ".version.json") with
  | Some (File c) =>
      match JSON_parse c with
      | Some v => v
      | None => JNull
      end
  | _ => JNull
  end.

(** The metadata [checkVersion] makes up for an instance that has none. *)
Definition synthesized (fs : FS) (projectPath sourcePath : path) (now : string)
  : VersionMetadata :=
  mkMetadata (version_of fs sourcePath)
             (hash_of fs (path_join projectPath ".auto-claude"))
             (path_str sourcePath) (JString now) now.

(** What the visit of one entry feeds to the hash. *)
Definition entry_feed (e : string * node) : string :=
  if shouldExclude (fst e) then ""
  else match snd e with
       | Dir _ => "dir:" +++ fst e +++ processDirectory (snd e)
       | File content =>
           "file:" +++ fst e +++ ":" +++ decimal (String.length content) +++ content
       end.

End Observations.

(** ** Notions the further properties are stated with *)

(** At or below [d]. *)
Definition inside (d : path) (p : path) : Prop := is_prefix d p.

(** The two shapes of an [InitializationResult] the program builds. *)
Definition completed (isUpdate : bool) (r : InitializationResult) : Prop :=
  success r = true /\ error r = None
  /\ (exists v, init_version r = Some v) /\ wasUpdate r = Some isUpdate.

Definition failed (r : InitializationResult) : Prop :=
  success r = false /\ (exists msg, error r = Some msg)
  /\ init_version r = None /\ wasUpdate r = None.

(** The part of a tree the program ships and fingerprints: the tree without
    its excluded entries, at every level. *)
Fixpoint shipped (t : node) : node :=
  match t with
  | File c => File c
  | Dir es =>
      Dir ((fix entries (l : list (string * node)) : list (string * node) :=
              match l with
              | [] => []
              | e :: l' =>
                  if shouldExclude (fst e) then entries l'
                  else (fst e, shipped (snd e)) :: entries l'
              end) es)
  end.

Definition shipped_entries (es : list (string * node)) : list (string * node) :=
  match shipped (Dir es) with
  | Dir l => l
  | File _ => []
  end.

(** No directory of the tree lists a name twice. *)
Fixpoint distinct (l : list string) : bool :=
  match l with
  | [] => true
  | a :: l' => negb (existsb (String.eqb a) l') && distinct l'
  end.

Fixpoint well_formed (t : node) : bool :=
  match t with
  | File _ => true
  | Dir es => distinct (map fst es) && forallb (fun e => well_formed (snd e)) es
  end.

(** Put the tree [t] at [p], making the missing directories on the way. *)
Definition graft (fs : FS) (p : path) (t : node) : result FS :=
  modifyO true (fun _ => Ok t) (Some fs) p.

Definition is_file (o : option node) : bool :=
  match o with
  | Some (File _) => true
  | _ => false
  end.

Definition is_dir (o : option node) : bool :=
  match o with
  | Some (Dir _) => true
  | _ => false
  end.

(** What [initializeProject] asks of the entries of a bundle besides being
    a directory: [roadmap] and [ideation] are not regular files and hold no
    directory named [.gitkeep], and [.env.example], [.version.json] and
    [VERSION] are not directories. *)
Definition installable (es : list (string * node)) : bool :=
  negb (is_file (assoc "roadmap" es))
  && negb (is_dir (lookupO (assoc "roadmap" es) [".gitkeep"]))
  && negb (is_file (assoc "ideation" es))
  && negb (is_dir (lookupO (assoc "ideation" es) [".gitkeep"]))
  && negb (is_dir (assoc ".env.example" es))
  && negb (is_dir (assoc ".version.json" es))
  && negb (is_dir (assoc "VERSION" es)).

(** What the copy of the tree [s] leaves at a destination that holds [d]
    ([None]: nothing there yet): the entries of [d], with every shipped file of
    [s] put in place and every shipped directory of [s] merged in, entry by
    entry in the order of the enumeration. [None] when the copy throws: a
    file of [s] meets a directory of [d], or a directory of [s] that ships
    something meets a file of [d]. *)
Fixpoint overlay (d : option node) (s : node) {struct s} : option node :=
  match s with
  | File c =>
      match d with
      | Some (Dir _) => None
      | _ => Some (File c)
      end
  | Dir es =>
      match d with
      | Some (File c0) =>
          match shipped_entries es with
          | [] => Some (File c0)
          | _ :: _ => None
          end
      | _ =>
          option_map Dir
            ((fix entries (l : list (string * node)) (acc : list (string * node))
                : option (list (string * node)) :=
                match l with
                | [] => Some acc
                | e :: l' =>
                    if shouldExclude (fst e) then entries l' acc
                    else
                      match overlay (assoc (fst e) acc) (snd e) with
                      | Some t => entries l' (set_entry (fst e) t acc)
                      | None => None
                      end
                end) es
               match d with
               | Some (Dir L) => L
               | _ => []
               end)
      end
  end.

Definition overlay_entries (l acc : list (string * node)) : option (list (string * node)) :=
  match overlay (Some (Dir acc)) (Dir l) with
  | Some (Dir L) => Some L
  | _ => None
  end.

(** ** Sample inputs *)

Module Inputs.

Definition bundle : path := ["opt"; "auto-claude"].
Definition project : path := ["home"; "app"].
Definition installed : path := path_join project ".auto-claude".
Definition sidecar : path := path_join installed ".version.json".

Definition t1 : string := "2026-01-01T00:00:00.000Z".
Definition t2 : string := "2026-02-02T00:00:00.000Z".

(** A bundle whose version marker has two lines. *)
Definition two_line_marker : FS :=
  Dir [("opt", Dir [("auto-claude",
          Dir [("VERSION", File ("1.0.0" +++ Sample.LF +++ "2.0.0" +++ Sample.LF))])])].

(** A bundle of version 1.1.0 that has a [roadmap] directory. *)
Definition bundle_1_1_0 : node :=
  Dir [("VERSION", File ("1.1.0" +++ Sample.LF));
       ("README.md", File "read me");
       (".env", File "KEY=");
       ("specs", Dir [("template", File "shipped")]);
       ("roadmap", Dir [("plan.md", File "plan")])].

(** A project that has no installed instance. *)
Definition fresh : FS :=
  Dir [("opt", Dir [("auto-claude", bundle_1_1_0)]);
       ("home", Dir [("app", Dir [("src", Dir [])])])].

(** The stored metadata of the example of the specification, in an installed
    instance that has files and data of its own. *)
Definition stored_1_0_0 : FS :=
  Dir [("opt", Dir [("auto-claude", bundle_1_1_0)]);
       ("home", Dir [("app",
          Dir [(".auto-claude",
             Dir [(".version.json",
                   File (Sample.stringify
                           (JObject [("version", JString "1.0.0");
                                     ("sourceHash", JString "abc123")])));
                  ("notes.txt", File "mine");
                  ("specs", Dir [("001", File "kept")]);
                  (".env", File "KEY=secret")])])])].

(** An installed instance from before version tracking: no sidecar. *)
Definition legacy : FS :=
  Dir [("opt", Dir [("auto-claude", bundle_1_1_0)]);
       ("home", Dir [("app",
          Dir [(".auto-claude", Dir [("README.md", File "old read me")])])])].

(** An installed instance initialized at [t1], and a bundle that has a
    [.version.json] of its own. *)
Definition bundle_with_sidecar : FS :=
  Dir [("opt", Dir [("auto-claude",
          Dir [("VERSION", File "2.0.0");
               (".version.json",
                File (Sample.stringify
                        (JObject [("version", JString "0.1.0");
                                  ("initializedAt", JString "1999-12-31T00:00:00.000Z")])))])]);
       ("home", Dir [("app",
          Dir [(".auto-claude",
             Dir [(".version.json",
                   File (Sample.stringify
                           (metadata_json
                              (mkMetadata "1.0.0" "abc123" "/opt/auto-claude"
                                          (JString t1) t1))))])])])].

(** An installed instance whose stored [initializedAt] is the empty string. *)
Definition blank_initializedAt : FS :=
  Dir [("opt", Dir [("auto-claude", bundle_1_1_0)]);
       ("home", Dir [("app",
          Dir [(".auto-claude",
             Dir [(".version.json",
                   File (Sample.stringify
                           (metadata_json
                              (mkMetadata "1.0.0" "abc123" "/opt/auto-claude"
                                          (JString "") t1))))])])])].

(** A bundle that lies inside the installed instance. *)
Definition bundle_inside_instance : FS :=
  Dir [("home", Dir [("app",
          Dir [(".auto-claude",
             Dir [("sub", Dir [("sub", Dir [("R", Dir [("x", File "new")])]);
                               ("R", Dir [])]);
                  ("R", Dir [("x", File "mine")])])])])].

(** One directory, enumerated in two orders. *)
Definition listed_one_way : FS :=
  Dir [("d", Dir [("b.txt", File "B");
                  ("a", Dir [("y", File "1"); ("x", File "2")])])].

Definition listed_another_way : FS :=
  Dir [("d", Dir [("a", Dir [("x", File "2"); ("y", File "1")]);
                  ("b.txt", File "B")])].

End Inputs.

(** ** A runtime whose comparison ignores control characters

    [localeCompare] compares by collation weight, not byte by byte: it
    returns 0 for two strings that differ only in characters to which the
    collation gives no weight, as the default Unicode collation does for
    control characters ([U+0000] to [U+0008] and [U+000E] to [U+001F]). *)

Module Collating.

Definition ignorable (c : ascii) : bool :=
  let n := nat_of_ascii c in
  (n <=? 8)%nat || ((14 <=? n)%nat && (n <=? 31)%nat).

(** The characters of [s] that carry a weight. *)
Fixpoint weighted (s : string) : string :=
  match s with
  | EmptyString => EmptyString
  | String c r => if ignorable c then weighted r else String c (weighted r)
  end.

Definition collate (a b : string) : Z := Sample.ordinalCompare (weighted a) (weighted b).

Definition runtime : Runtime :=
  {| localeCompare := collate;
     sha256_hex := Sample.sha256;
     JSON_parse := Sample.parse;
     JSON_stringify := Sample.stringify |}.

End Collating.

(** ** More sample inputs *)

Module Cases.

(** A bundle that ships an [.env.example] beside an [.env] of its own. *)
Definition bundle_with_example : node :=
  Dir [("VERSION", File "2.0.0");
       (".env", File "KEY=mine");
       (".env.example", File "KEY=");
       ("run.py", File "print(1)");
       ("run.pyc", File "compiled")].

Definition with_example : FS :=
  Dir [("opt", Dir [("auto-claude", bundle_with_example)]);
       ("home", Dir [("app", Dir [("auto-claude", Dir [("VERSION", File "dev")])])])].

(** The bundle of [with_example] after use: caches, a repository, local data
    and another [.env]. *)
Definition used_bundle : FS :=
  Dir [("opt", Dir [("auto-claude",
          Dir [("__pycache__", Dir [("run.cpython.pyc", File "cache")]);
               ("VERSION", File "2.0.0");
               (".git", Dir [("HEAD", File "ref")]);
               (".env.example", File "KEY=");
               (".env", File "KEY=other");
               ("specs", Dir [("001", File "spec")]);
               ("run.py", File "print(1)")])])].

(** The path of a regular file of the bundle. *)
Definition marker : path := ["opt"; "auto-claude"; "VERSION"].

(** [U+0001], a control character. *)
Definition SOH : string := String (ascii_of_nat 1) "".

(** One directory with two names that differ in a control character only,
    enumerated in two orders. *)
Definition tied_one_way : FS :=
  Dir [("d", Dir [("a", File "1"); (SOH +++ "a", File "2")])].

Definition tied_another_way : FS :=
  Dir [("d", Dir [(SOH +++ "a", File "2"); ("a", File "1")])].

(** An installed instance initialized at [Inputs.t1], and a bundle without a
    [.version.json] of its own. *)
Definition tracked_since_t1 : FS :=
  Dir [("opt", Dir [("auto-claude", Inputs.bundle_1_1_0)]);
       ("home", Dir [("app",
          Dir [(".auto-claude",
             Dir [(".version.json",
                   File (Sample.stringify
                           (metadata_json
                              (mkMetadata "1.0.0" "abc123" "/opt/auto-claude"
                                          (JString Inputs.t1) Inputs.t1))))])])])].

End Cases.

(** ** Reasoning about the file system *)

Lemma is_prefix_refl (p : path) : is_prefix p p.
Proof. exists []. now rewrite app_nil_r. Qed.

Lemma is_prefix_nil (p : path) : is_prefix [] p.
Proof. now exists p. Qed.

Lemma is_prefix_cons (n m : string) (p q : path) :
  is_prefix (n :: p) (m :: q) <-> n = m /\ is_prefix p q.
Proof.
  split.
  - intros [r H]. simpl in H. injection H as -> ->. split; [reflexivity | now exists r].
  - intros [-> [r ->]]. now exists r.
Qed.

Lemma is_prefix_app (p r : path) : is_prefix p (p ++ r).
Proof. now exists r. Qed.

Lemma is_prefix_trans (p q r : path) : is_prefix p q -> is_prefix q r -> is_prefix p r.
Proof. intros [a ->] [b ->]. exists (a ++ b). now rewrite app_assoc. Qed.

Lemma is_prefix_dec (p q : path) : {is_prefix p q} + {~ is_prefix p q}.
Proof.
  revert q. induction p as [|n p IH]; intros q.
  - left. apply is_prefix_nil.
  - destruct q as [|m q].
    + right. intros [r H]. discriminate H.
    + destruct (string_dec n m) as [->|Hn].
      * destruct (IH q) as [H|H].
        -- left. now apply is_prefix_cons.
        -- right. intros H'. apply is_prefix_cons in H'. tauto.
      * right. intros H'. apply is_prefix_cons in H'. tauto.
Qed.

(** Two prefixes of one path are comparable. *)
Lemma is_prefix_both (p q x : path) :
  is_prefix p x -> is_prefix q x -> is_prefix p q \/ is_prefix q p.
Proof.
  revert q x. induction p as [|n p IH]; intros q x Hp Hq.
  - left. apply is_prefix_nil.
  - destruct q as [|m q]; [right; apply is_prefix_nil|].
    destruct x as [|k x]; [destruct Hp as [r Hr]; discriminate Hr|].
    apply is_prefix_cons in Hp. apply is_prefix_cons in Hq.
    destruct Hp as [-> Hp]. destruct Hq as [-> Hq].
    destruct (IH q x Hp Hq) as [H|H]; [left|right]; now apply is_prefix_cons.
Qed.

Lemma apart_below (p q : path) (r s : path) : apart p q -> apart (p ++ r) (q ++ s).
Proof.
  intros [H1 H2]. split; intros H.
  - destruct (is_prefix_both p q (q ++ s)) as [H'|H']; try tauto.
    + eapply is_prefix_trans; [apply is_prefix_app | exact H].
    + apply is_prefix_app.
  - destruct (is_prefix_both p q (p ++ r)) as [H'|H']; try tauto.
    + apply is_prefix_app.
    + eapply is_prefix_trans; [apply is_prefix_app | exact H].
Qed.

Lemma assoc_set_same {A : Type} (k : string) (v : A) (l : list (string * A)) :
  assoc k (set_entry k v l) = Some v.
Proof.
  induction l as [|[k' v'] l IH]; simpl.
  - now rewrite String.eqb_refl.
  - destruct (String.eqb k k') eqn:E; simpl.
    + now rewrite String.eqb_refl.
    + now rewrite E.
Qed.

Lemma assoc_set_other {A : Type} (k k' : string) (v : A) (l : list (string * A)) :
  k' <> k -> assoc k' (set_entry k v l) = assoc k' l.
Proof.
  intros Hk. induction l as [|[k0 v0] l IH]; simpl.
  - destruct (String.eqb k' k) eqn:E; [apply String.eqb_eq in E; contradiction | reflexivity].
  - destruct (String.eqb k k0) eqn:E; simpl.
    + apply String.eqb_eq in E. subst k0.
      destruct (String.eqb k' k) eqn:E'; [apply String.eqb_eq in E'; contradiction | reflexivity].
    + destruct (String.eqb k' k0); [reflexivity | exact IH].
Qed.

Lemma lookupO_None (p : path) : lookupO None p = None.
Proof. destruct p; reflexivity. Qed.

Lemma lookupO_app (o : option node) (p r : path) :
  lookupO o (p ++ r) = lookupO (lookupO o p) r.
Proof.
  revert o. induction p as [|n p IH]; intros o; simpl; [reflexivity|].
  destruct o as [[c|es]|]; simpl; try (now rewrite lookupO_None).
  apply IH.
Qed.

Lemma lookup_app (fs : FS) (p r : path) :
  lookup fs (p ++ r) = lookupO (lookup fs p) r.
Proof. apply lookupO_app. Qed.

(** What exists has all its ancestors. *)
Lemma lookupO_prefix (o : option node) (p r : path) :
  lookupO o (p ++ r) <> None -> lookupO o p <> None.
Proof.
  rewrite lookupO_app. intros H E. rewrite E, lookupO_None in H. now apply H.
Qed.

(** The slot rewritten holds what [f] made of its former content. *)
Lemma modifyO_at (mk : bool) (f : option node -> result node) (p : path) :
  forall o t', modifyO mk f o p = Ok t' ->
    exists c, f (lookupO o p) = Ok c /\ lookupO (Some t') p = Some c.
Proof.
  induction p as [|n p IH]; intros o t' H; simpl in *.
  - exists t'. now split.
  - destruct o as [[c|es]|].
    + discriminate.
    + destruct (modifyO mk f (assoc n es) p) as [c|e] eqn:E; [|discriminate].
      injection H as <-. destruct (IH _ _ E) as [c' [Hf Hl]].
      exists c'. split; [exact Hf|]. now rewrite assoc_set_same.
    + destruct mk; [|discriminate].
      destruct (modifyO true f None p) as [c|e] eqn:E; [|discriminate].
      injection H as <-. destruct (IH _ _ E) as [c' [Hf Hl]].
      exists c'. rewrite lookupO_None in Hf. split; [exact Hf|].
      simpl. now rewrite String.eqb_refl.
Qed.

(** Paths apart from the slot are not touched. *)
Lemma modifyO_apart (mk : bool) (f : option node -> result node) (p : path) :
  forall o t' q, modifyO mk f o p = Ok t' -> apart q p ->
    lookupO (Some t') q = lookupO o q.
Proof.
  induction p as [|n p IH]; intros o t' q H [Hq1 Hq2].
  - exfalso. apply Hq2. apply is_prefix_nil.
  - destruct q as [|m q]; [exfalso; apply Hq1; apply is_prefix_nil|].
    simpl in H. destruct o as [[c|es]|].
    + discriminate.
    + destruct (modifyO mk f (assoc n es) p) as [c|e] eqn:E; [|discriminate].
      injection H as <-. simpl.
      destruct (string_dec m n) as [->|Hmn].
      * rewrite assoc_set_same. apply (IH _ _ _ E).
        split; intros H'; [apply Hq1 | apply Hq2]; now apply is_prefix_cons.
      * now rewrite assoc_set_other.
    + destruct mk; [|discriminate].
      destruct (modifyO true f None p) as [c|e] eqn:E; [|discriminate].
      injection H as <-. simpl.
      destruct (String.eqb m n) eqn:Emn; [|apply lookupO_None].
      apply String.eqb_eq in Emn. subst m.
      rewrite (IH _ _ q E), lookupO_None; [reflexivity|].
      split; intros H'; [apply Hq1 | apply Hq2]; now apply is_prefix_cons.
Qed.

(** The proper ancestors of the slot are directories afterwards, and were
    directories or absent before (absent only when ancestors are created). *)
Lemma modifyO_above (mk : bool) (f : option node -> result node) (q : path) :
  forall o t' r n, modifyO mk f o (q ++ n :: r) = Ok t' ->
    (exists es, lookupO (Some t') q = Some (Dir es))
    /\ ((exists es, lookupO o q = Some (Dir es)) \/ (lookupO o q = None /\ mk = true)).
Proof.
  induction q as [|m q IH]; intros o t' r n H; simpl in H.
  - simpl. destruct o as [[c|es]|].
    + discriminate.
    + destruct (modifyO mk f (assoc n es) r); [|discriminate].
      injection H as <-. split; [eauto | left; eauto].
    + destruct mk; [|discriminate].
      destruct (modifyO true f None r); [|discriminate].
      injection H as <-. split; [eauto | right; auto].
  - destruct o as [[c|es]|].
    + discriminate.
    + destruct (modifyO mk f (assoc m es) (q ++ n :: r)) as [c|e] eqn:E; [|discriminate].
      injection H as <-. simpl. rewrite assoc_set_same.
      apply (IH _ _ _ _ E).
    + destruct mk; [|discriminate].
      destruct (modifyO true f None (q ++ n :: r)) as [c|e] eqn:E; [|discriminate].
      injection H as <-. simpl. rewrite String.eqb_refl.
      destruct (IH _ _ _ _ E) as [H1 H2]. split; [exact H1|].
      right. split; reflexivity.
Qed.

Lemma path_compare (q p : path) :
  is_prefix q p \/ (exists n r, q = p ++ n :: r) \/ apart q p.
Proof.
  destruct (is_prefix_dec q p) as [H|H]; [now left|].
  destruct (is_prefix_dec p q) as [[r ->]|H']; [|right; right; now split].
  destruct r as [|n r].
  - exfalso. apply H. rewrite app_nil_r. apply is_prefix_refl.
  - right; left. now exists n, r.
Qed.

Lemma is_prefix_strict (q p : path) :
  is_prefix q p -> q <> p -> exists n r, p = q ++ n :: r.
Proof.
  intros [[|n r] ->] H.
  - exfalso. apply H. now rewrite app_nil_r.
  - now exists n, r.
Qed.

Lemma stat_lookup (fs fs' : FS) (q : path) :
  lookup fs' q = lookup fs q -> stat fs' q = stat fs q.
Proof. unfold stat. now intros ->. Qed.

Lemma stat_None (fs : FS) (q : path) : stat fs q = None <-> lookup fs q = None.
Proof. unfold stat. destruct (lookup fs q); simpl; split; congruence. Qed.

(** *** writing a file *)

Lemma write_at_lookup (fs fs' : FS) (p : path) (c : string) :
  write_at fs p c = Ok fs' ->
  lookup fs' p = Some (File c)
  /\ forall es, lookup fs p <> Some (Dir es).
Proof.
  unfold write_at, lookup. intros H.
  destruct (modifyO_at _ _ _ _ _ H) as [c0 [Hf Hl]].
  unfold put_file in Hf.
  destruct (lookupO (Some fs) p) as [[c1|es1]|]; try discriminate;
    injection Hf as <-; (split; [exact Hl | congruence]).
Qed.

Lemma write_at_lookup_other (fs fs' : FS) (p q : path) (c : string) :
  write_at fs p c = Ok fs' -> ~ is_prefix q p -> lookup fs' q = lookup fs q.
Proof.
  intros H Hq. destruct (path_compare q p) as [Hp|[[n [r ->]]|Ha]].
  - contradiction.
  - destruct (write_at_lookup _ _ _ _ H) as [H1 H2].
    rewrite !lookup_app, H1. simpl.
    destruct (lookup fs p) as [[c1|es1]|]; simpl; try reflexivity.
    exfalso. now apply (H2 es1).
  - unfold lookup. now apply (modifyO_apart _ _ _ _ _ _ H).
Qed.

Lemma write_at_stat_other (fs fs' : FS) (p q : path) (c : string) :
  write_at fs p c = Ok fs' -> q <> p -> stat fs' q = stat fs q.
Proof.
  intros H Hq. destruct (is_prefix_dec q p) as [Hp|Hp].
  - destruct (is_prefix_strict _ _ Hp Hq) as [n [r ->]].
    unfold write_at in H. destruct (modifyO_above _ _ _ _ _ _ _ H) as [[es1 H1] H2].
    unfold stat, lookup. rewrite H1.
    destruct H2 as [[es2 H2]|[_ H2]]; [now rewrite H2 | discriminate].
  - apply stat_lookup. now apply (write_at_lookup_other _ _ _ _ _ H).
Qed.

(** *** creating a directory and its missing ancestors *)

Lemma mkdirp_at_lookup (fs fs' : FS) (p : path) :
  mkdirp_at fs p = Ok fs' ->
  (lookup fs p = None /\ lookup fs' p = Some (Dir []))
  \/ (exists es, lookup fs p = Some (Dir es) /\ lookup fs' p = Some (Dir es)).
Proof.
  unfold mkdirp_at, lookup. intros H.
  destruct (modifyO_at _ _ _ _ _ H) as [c0 [Hf Hl]].
  unfold ensure_dir in Hf.
  destruct (lookupO (Some fs) p) as [[c1|es1]|]; try discriminate; injection Hf as <-.
  - right. eauto.
  - left. auto.
Qed.

Lemma mkdirp_at_lookup_other (fs fs' : FS) (p q : path) :
  mkdirp_at fs p = Ok fs' -> ~ is_prefix q p -> lookup fs' q = lookup fs q.
Proof.
  intros H Hq. destruct (path_compare q p) as [Hp|[[n [r ->]]|Ha]].
  - contradiction.
  - rewrite !lookup_app.
    destruct (mkdirp_at_lookup _ _ _ H) as [[H1 H2]|[es [H1 H2]]];
      rewrite H1, H2; simpl; rewrite ?lookupO_None; reflexivity.
  - unfold lookup. now apply (modifyO_apart _ _ _ _ _ _ H).
Qed.

Lemma mkdirp_at_stat_existing (fs fs' : FS) (p q : path) :
  mkdirp_at fs p = Ok fs' -> stat fs q <> None -> stat fs' q = stat fs q.
Proof.
  intros H Hq. destruct (is_prefix_dec q p) as [Hp|Hp].
  - destruct (list_eq_dec string_dec q p) as [->|Hne].
    + destruct (mkdirp_at_lookup _ _ _ H) as [[H1 H2]|[es [H1 H2]]].
      * exfalso. apply Hq. now apply stat_None.
      * unfold stat. now rewrite H1, H2.
    + destruct (is_prefix_strict _ _ Hp Hne) as [n [r ->]].
      unfold mkdirp_at in H. destruct (modifyO_above _ _ _ _ _ _ _ H) as [[es1 H1] H2].
      unfold stat, lookup in *. rewrite H1.
      destruct H2 as [[es2 H2]|[H2 _]]; rewrite H2 in *; [reflexivity | simpl in Hq; congruence].
  - apply stat_lookup. now apply (mkdirp_at_lookup_other _ _ _ _ H).
Qed.

(** ** Reasoning about the program's monad *)

Lemma preorder_eq : preorder (@eq FS).
Proof. split; congruence. Qed.

Lemma preorder_frame_outside (W : path -> Prop) : preorder (frame_outside W).
Proof.
  split; unfold frame_outside; intros.
  - reflexivity.
  - rewrite H0, H; auto.
Qed.

Lemma preorder_stat_outside (W : path -> Prop) : preorder (stat_outside W).
Proof.
  split; unfold stat_outside; intros.
  - reflexivity.
  - rewrite H0; [now apply H | rewrite H; assumption | assumption].
Qed.

Lemma preorder_grows : preorder grows.
Proof. split; unfold grows; auto. Qed.

Lemma preorder_invariant (I : FS -> Prop) : preorder (fun fs fs' => I fs -> I fs').
Proof. split; auto. Qed.

Lemma frame_outside_mono (W W' : path -> Prop) (fs fs' : FS) :
  (forall p, W' p -> W p) -> frame_outside W' fs fs' -> frame_outside W fs fs'.
Proof. unfold frame_outside. intros HW H q Hq. apply H. auto. Qed.

Lemma stat_outside_mono (W W' : path -> Prop) (fs fs' : FS) :
  (forall p, W' p -> W p) -> stat_outside W' fs fs' -> stat_outside W fs fs'.
Proof. unfold stat_outside. intros HW H q Hq Hn. apply H; auto. Qed.

Lemma preserves_mono {A : Type} (P Q : FS -> FS -> Prop) (m : M A) :
  (forall fs fs', P fs fs' -> Q fs fs') -> preserves P m -> preserves Q m.
Proof. unfold preserves. eauto. Qed.

Lemma bind_inv {A B : Type} (m : M A) (k : A -> M B) fs fs' r :
  bind m k fs = Some (fs', r) ->
  (exists e, m fs = Some (fs', inr e) /\ r = inr e)
  \/ (exists fs1 a, m fs = Some (fs1, inl a) /\ k a fs1 = Some (fs', r)).
Proof.
  unfold bind. destruct (m fs) as [[fs1 [a|e]]|]; intros H.
  - right. eauto.
  - injection H as <- <-. left. eauto.
  - discriminate.
Qed.

Lemma preserves_ret {A : Type} (P : FS -> FS -> Prop) (a : A) :
  preorder P -> preserves P (ret a).
Proof. intros [Hr _] fs fs' r H. injection H as <- _. apply Hr. Qed.

Lemma preserves_bind {A B : Type} (P : FS -> FS -> Prop) (m : M A) (k : A -> M B) :
  preorder P -> preserves P m -> (forall a, preserves P (k a)) ->
  preserves P (bind m k).
Proof.
  intros [_ Ht] Hm Hk fs fs' r H.
  destruct (bind_inv _ _ _ _ _ H) as [[e [H1 _]]|[fs1 [a [H1 H2]]]].
  - exact (Hm _ _ _ H1).
  - exact (Ht _ _ _ (Hm _ _ _ H1) (Hk _ _ _ _ H2)).
Qed.

Lemma preserves_when (P : FS -> FS -> Prop) (b : bool) (m : M unit) :
  preorder P -> preserves P m -> preserves P (when b m).
Proof. intros HP Hm. destruct b; simpl; [exact Hm | now apply preserves_ret]. Qed.

Lemma preserves_try_catch {A : Type} (P : FS -> FS -> Prop) (m : M A) (h : exn -> A) :
  preserves P m -> preserves P (try_catch m h).
Proof.
  intros Hm fs fs' r H. unfold try_catch in H.
  destruct (m fs) as [[fs1 [a|e]]|] eqn:E; [| |discriminate];
    injection H as <- _; exact (Hm _ _ _ E).
Qed.

Lemma preserves_eq {A : Type} (P : FS -> FS -> Prop) (m : M A) :
  preorder P -> preserves eq m -> preserves P m.
Proof. intros [Hr _] Hm fs fs' r H. rewrite <- (Hm _ _ _ H). apply Hr. Qed.

Lemma existsSync_pure (p : path) : preserves eq (existsSync p).
Proof. intros fs fs' r H. unfold existsSync in H. now injection H as <- _. Qed.

Lemma readFileSync_pure (p : path) : preserves eq (readFileSync p).
Proof.
  intros fs fs' r H. unfold readFileSync in H.
  destruct (lookup fs p) as [[c|es]|]; now injection H as <- _.
Qed.

Lemma readdirSync_pure (p : path) : preserves eq (readdirSync p).
Proof.
  intros fs fs' r H. unfold readdirSync in H.
  destruct (lookup fs p) as [[c|es]|]; now injection H as <- _.
Qed.

(** *** the effect of the writing calls *)

Lemma writeFileSync_frame (W : path -> Prop) (p : path) (c : string) :
  W p -> preserves (frame_outside W) (writeFileSync p c).
Proof.
  intros HW fs fs' r H q Hq. unfold writeFileSync in H.
  destruct (write_at fs p c) as [fs1|e] eqn:E; injection H as <- _; [|reflexivity].
  apply (write_at_lookup_other _ _ _ _ _ E). now apply Hq.
Qed.

Lemma writeFileSync_stat (W : path -> Prop) (p : path) (c : string) :
  W p -> preserves (stat_outside W) (writeFileSync p c).
Proof.
  intros HW fs fs' r H q _ Hq. unfold writeFileSync in H.
  destruct (write_at fs p c) as [fs1|e] eqn:E; injection H as <- _; [|reflexivity].
  apply (write_at_stat_other _ _ _ _ _ E). congruence.
Qed.

Lemma write_at_grows (fs fs' : FS) (p : path) (c : string) :
  write_at fs p c = Ok fs' -> grows fs fs'.
Proof.
  intros E q Hq. destruct (list_eq_dec string_dec q p) as [->|Hne].
  - unfold stat. destruct (write_at_lookup _ _ _ _ E) as [-> _]. discriminate.
  - now rewrite (write_at_stat_other _ _ _ _ _ E Hne).
Qed.

Lemma writeFileSync_grows (p : path) (c : string) : preserves grows (writeFileSync p c).
Proof.
  intros fs fs' r H. unfold writeFileSync in H.
  destruct (write_at fs p c) as [fs1|e] eqn:E; injection H as <- _.
  - exact (write_at_grows _ _ _ _ E).
  - apply preorder_grows.
Qed.

Lemma copyFileSync_frame (W : path -> Prop) (s d : path) :
  W d -> preserves (frame_outside W) (copyFileSync s d).
Proof.
  intros HW fs fs' r H q Hq. unfold copyFileSync in H.
  destruct (lookup fs s) as [[c|es]|]; try (now injection H as <- _).
  destruct (write_at fs d c) as [fs1|e] eqn:E; injection H as <- _; [|reflexivity].
  apply (write_at_lookup_other _ _ _ _ _ E). now apply Hq.
Qed.

Lemma copyFileSync_stat (W : path -> Prop) (s d : path) :
  W d -> preserves (stat_outside W) (copyFileSync s d).
Proof.
  intros HW fs fs' r H q _ Hq. unfold copyFileSync in H.
  destruct (lookup fs s) as [[c|es]|]; try (now injection H as <- _).
  destruct (write_at fs d c) as [fs1|e] eqn:E; injection H as <- _; [|reflexivity].
  apply (write_at_stat_other _ _ _ _ _ E). congruence.
Qed.

Lemma copyFileSync_grows (s d : path) : preserves grows (copyFileSync s d).
Proof.
  intros fs fs' r H. unfold copyFileSync in H.
  destruct (lookup fs s) as [[c|es]|]; try (injection H as <- _; apply preorder_grows).
  destruct (write_at fs d c) as [fs1|e] eqn:E; injection H as <- _.
  - exact (write_at_grows _ _ _ _ E).
  - apply preorder_grows.
Qed.

Lemma mkdirSync_frame (W : path -> Prop) (p : path) :
  W p -> preserves (frame_outside W) (mkdirSync_recursive p).
Proof.
  intros HW fs fs' r H q Hq. unfold mkdirSync_recursive in H.
  destruct (mkdirp_at fs p) as [fs1|e] eqn:E; injection H as <- _; [|reflexivity].
  apply (mkdirp_at_lookup_other _ _ _ _ E). now apply Hq.
Qed.

Lemma mkdirSync_stat (W : path -> Prop) (p : path) :
  preserves (stat_outside W) (mkdirSync_recursive p).
Proof.
  intros fs fs' r H q Hq _. unfold mkdirSync_recursive in H.
  destruct (mkdirp_at fs p) as [fs1|e] eqn:E; injection H as <- _; [|reflexivity].
  now apply (mkdirp_at_stat_existing _ _ _ _ E).
Qed.

Lemma mkdirSync_grows (p : path) : preserves grows (mkdirSync_recursive p).
Proof.
  intros fs fs' r H q Hq. unfold mkdirSync_recursive in H.
  destruct (mkdirp_at fs p) as [fs1|e] eqn:E; injection H as <- _; [|exact Hq].
  now rewrite (mkdirp_at_stat_existing _ _ _ _ E Hq).
Qed.

(** ** The recursive copy *)

Lemma preserves_copyEntries (P : FS -> FS -> Prop)
      (rec : path -> path -> bool -> M unit) (src dest : path) (u : bool)
      (entries : list Dirent) :
  preorder P ->
  (forall e, In e entries -> shouldExclude (name e) = false ->
             preserves P (rec (path_join src (name e)) (path_join dest (name e)) u)) ->
  (forall e, In e entries -> shouldExclude (name e) = false ->
             preserves P (copyFileSync (path_join src (name e)) (path_join dest (name e)))) ->
  preserves P (copyEntries rec src dest u entries).
Proof.
  intros HP. induction entries as [|e rest IH]; intros Hrec Hcp; simpl.
  - now apply preserves_ret.
  - assert (Hrest : preserves P (copyEntries rec src dest u rest)).
    { apply IH; intros; [apply Hrec | apply Hcp]; simpl; auto. }
    destruct (shouldExclude (name e)) eqn:Ex; [exact Hrest|].
    apply preserves_bind; [exact HP | |].
    + destruct (u && shouldPreserve (name e)).
      * apply preserves_eq; [exact HP | apply existsSync_pure].
      * now apply preserves_ret.
    + intros [|]; [exact Hrest|].
      apply preserves_bind; [exact HP | | intros _; exact Hrest].
      destruct (isDirectory e); [apply Hrec | apply Hcp]; simpl; auto.
Qed.

Lemma preserves_copy_step (P : FS -> FS -> Prop) (fuel : nat) (src dest : path) (u : bool) :
  preorder P ->
  preserves P (mkdirSync_recursive dest) ->
  (forall entries, preserves P (copyEntries (copyDirectoryRecursive fuel) src dest u entries)) ->
  preserves P (copyDirectoryRecursive (S fuel) src dest u).
Proof.
  intros HP Hmk Hloop. simpl.
  apply preserves_bind; [exact HP | apply preserves_eq; [exact HP | apply existsSync_pure] |].
  intros ex. apply preserves_bind; [exact HP | now apply preserves_when |].
  intros _. apply preserves_bind; [exact HP | apply preserves_eq; [exact HP | apply readdirSync_pure] |].
  exact Hloop.
Qed.

Lemma copy_targets_self (dest : path) : copy_targets dest dest.
Proof. exists []. split; [constructor | now rewrite app_nil_r]. Qed.

Lemma copy_targets_child (dest : path) (n : string) (p : path) :
  shouldExclude n = false -> copy_targets (path_join dest n) p -> copy_targets dest p.
Proof.
  intros Hn [rel [Hrel ->]]. exists (n :: rel). split; [now constructor|].
  unfold path_join. now rewrite <- app_assoc.
Qed.

(** The copy writes at its targets only. *)
Lemma copy_frame (fuel : nat) :
  forall src dest u,
    preserves (frame_outside (copy_targets dest)) (copyDirectoryRecursive fuel src dest u).
Proof.
  induction fuel as [|fuel IH]; intros src dest u.
  - intros fs fs' r H. discriminate H.
  - apply preserves_copy_step.
    + apply preorder_frame_outside.
    + apply mkdirSync_frame. apply copy_targets_self.
    + intros entries. apply preserves_copyEntries.
      * apply preorder_frame_outside.
      * intros e _ Hex. eapply preserves_mono; [|apply IH].
        intros fs fs'. apply frame_outside_mono. intros p. now apply copy_targets_child.
      * intros e _ Hex. apply copyFileSync_frame.
        apply (copy_targets_child dest (name e)); [exact Hex | apply copy_targets_self].
Qed.

Lemma copyEntries_stat (rec : path -> path -> bool -> M unit) (src dest : path)
      (u : bool) (entries : list Dirent) :
  (forall s d, preserves (stat_outside (strictly_below d)) (rec s d u)) ->
  preserves (stat_outside (below_entries dest entries)) (copyEntries rec src dest u entries).
Proof.
  intros Hrec. apply preserves_copyEntries.
  - apply preorder_stat_outside.
  - intros e He Hex. eapply preserves_mono; [|apply Hrec].
    intros fs fs'. apply stat_outside_mono. intros p [n [r ->]].
    exists e, (n :: r). repeat split; auto. unfold path_join. now rewrite <- app_assoc.
  - intros e He Hex. apply copyFileSync_stat. exists e, []. repeat split; auto.
Qed.

(** What exists at or above [dest], or elsewhere, keeps kind and content. *)
Lemma copy_stat (fuel : nat) :
  forall src dest u,
    preserves (stat_outside (strictly_below dest)) (copyDirectoryRecursive fuel src dest u).
Proof.
  induction fuel as [|fuel IH]; intros src dest u.
  - intros fs fs' r H. discriminate H.
  - apply preserves_copy_step.
    + apply preorder_stat_outside.
    + apply mkdirSync_stat.
    + intros entries. eapply preserves_mono; [|apply copyEntries_stat; intros; apply IH].
      intros fs fs'. apply stat_outside_mono. intros p [e [r [_ [_ ->]]]]. now exists (name e), r.
Qed.

(** The copy deletes nothing. *)
Lemma copy_grows (fuel : nat) :
  forall src dest u, preserves grows (copyDirectoryRecursive fuel src dest u).
Proof.
  induction fuel as [|fuel IH]; intros src dest u.
  - intros fs fs' r H. discriminate H.
  - apply preserves_copy_step.
    + apply preorder_grows.
    + apply mkdirSync_grows.
    + intros entries. apply preserves_copyEntries.
      * apply preorder_grows.
      * intros. apply IH.
      * intros. apply copyFileSync_grows.
Qed.

(** *** the copy returns *)

Lemma bind_total {A B : Type} (m : M A) (k : A -> M B) (fs : FS) :
  m fs <> None ->
  (forall fs1 a, m fs = Some (fs1, inl a) -> k a fs1 <> None) ->
  bind m k fs <> None.
Proof.
  unfold bind. intros Hm Hk. destruct (m fs) as [[fs1 [a|e]]|].
  - now apply Hk.
  - discriminate.
  - contradiction.
Qed.

Lemma existsSync_total (p : path) : total (existsSync p).
Proof. intros fs. discriminate. Qed.

Lemma mkdirSync_total (p : path) : total (mkdirSync_recursive p).
Proof. intros fs. unfold mkdirSync_recursive. destruct (mkdirp_at fs p); discriminate. Qed.

Lemma readFileSync_total (p : path) : total (readFileSync p).
Proof. intros fs. unfold readFileSync. destruct (lookup fs p) as [[?|?]|]; discriminate. Qed.

Lemma writeFileSync_total (p : path) (c : string) : total (writeFileSync p c).
Proof. intros fs. unfold writeFileSync. destruct (write_at fs p c); discriminate. Qed.

Lemma copyFileSync_total (s d : path) : total (copyFileSync s d).
Proof.
  intros fs. unfold copyFileSync. destruct (lookup fs s) as [[?|?]|]; try discriminate.
  destruct (write_at fs d _); discriminate.
Qed.

Lemma readdirSync_total (p : path) : total (readdirSync p).
Proof. intros fs. unfold readdirSync. destruct (lookup fs p) as [[?|?]|]; discriminate. Qed.

Lemma apart_not_target (q d p : path) : apart q d -> copy_targets d p -> ~ is_prefix q p.
Proof.
  intros [H1 H2] [rel [_ ->]] H.
  destruct (is_prefix_both q d (d ++ rel) H (is_prefix_app d rel)); contradiction.
Qed.

Lemma frame_apart (d : path) (fs fs' : FS) (q : path) :
  frame_outside (copy_targets d) fs fs' -> apart q d -> lookup fs' q = lookup fs q.
Proof. intros H Ha. apply H. intros p Hp. now apply (apart_not_target q d p). Qed.

Lemma depth_assoc (n : string) (es : list (string * node)) (t : node) :
  assoc n es = Some t -> depth t < depth (Dir es).
Proof.
  simpl. induction es as [|[k v] es IH]; simpl; [discriminate|].
  destruct (String.eqb n k).
  - intros H. injection H as ->. lia.
  - intros H. specialize (IH H). lia.
Qed.

Lemma depth_at_child (fs : FS) (p : path) (es : list (string * node)) (n : string) :
  lookup fs p = Some (Dir es) -> depth_at fs (path_join p n) < depth (Dir es).
Proof.
  intros H. unfold depth_at, path_join. rewrite lookup_app, H. simpl lookupO.
  destruct (assoc n es) eqn:E; [now apply depth_assoc with n | simpl; lia].
Qed.

Lemma copyEntries_total (rec : path -> path -> bool -> M unit) (src dest : path)
      (u : bool) (fuel : nat) :
  apart src dest ->
  (forall s d fs, apart s d -> depth_at fs s < fuel -> rec s d u fs <> None) ->
  (forall s d, preserves (frame_outside (copy_targets d)) (rec s d u)) ->
  forall entries fs,
    (forall e, In e entries -> depth_at fs (path_join src (name e)) < fuel) ->
    copyEntries rec src dest u entries fs <> None.
Proof.
  intros Ha Htot Hfr. induction entries as [|e rest IH]; intros fs Hd; simpl.
  - discriminate.
  - assert (Hrest : copyEntries rec src dest u rest fs <> None).
    { apply IH. intros e' He'. apply Hd. now right. }
    destruct (shouldExclude (name e)); [exact Hrest|].
    apply bind_total.
    + destruct (u && shouldPreserve (name e)); [apply existsSync_total | discriminate].
    + intros fs1 skip Hskip.
      assert (fs1 = fs) as ->.
      { destruct (u && shouldPreserve (name e)).
        - symmetry. exact (existsSync_pure _ _ _ _ Hskip).
        - now injection Hskip as <- _. }
      destruct skip; [exact Hrest|].
      assert (Hap : apart (path_join src (name e)) (path_join dest (name e)))
        by now apply apart_below.
      apply bind_total.
      * destruct (isDirectory e).
        -- apply Htot; [exact Hap | apply Hd; now left].
        -- apply copyFileSync_total.
      * intros fs2 [] Hstep. apply IH. intros e' He'.
        assert (Hl : lookup fs2 (path_join src (name e')) = lookup fs (path_join src (name e'))).
        { apply (frame_apart (path_join dest (name e))).
          - destruct (isDirectory e).
            + exact (Hfr _ _ _ _ _ Hstep).
            + eapply copyFileSync_frame; [apply copy_targets_self | exact Hstep].
          - apply apart_below. exact Ha. }
        unfold depth_at. rewrite Hl. apply Hd. now right.
Qed.

(** With the source apart from the destination, fuel beyond the height of
    the source tree is enough for the copy to return. *)
Lemma copy_total (fuel : nat) :
  forall src dest u fs,
    apart src dest -> depth_at fs src < fuel ->
    copyDirectoryRecursive fuel src dest u fs <> None.
Proof.
  induction fuel as [|fuel IH]; intros src dest u fs Ha Hd; [lia|].
  simpl. apply bind_total; [apply existsSync_total|].
  intros fs1 ex Hex. rewrite <- (existsSync_pure _ _ _ _ Hex). clear fs1 Hex.
  apply bind_total; [destruct ex; simpl; [discriminate | apply mkdirSync_total]|].
  intros fs1 [] Hmk.
  assert (Hsrc : forall q, is_prefix src q -> lookup fs1 q = lookup fs q).
  { intros q [r ->]. destruct ex; simpl in Hmk.
    - now injection Hmk as <-.
    - apply (frame_apart dest); [|apply (apart_below src dest r []) in Ha; now rewrite app_nil_r in Ha].
      eapply mkdirSync_frame; [apply copy_targets_self | exact Hmk]. }
  apply bind_total; [apply readdirSync_total|].
  intros fs2 entries Hrd. rewrite <- (readdirSync_pure _ _ _ _ Hrd).
  unfold readdirSync in Hrd.
  destruct (lookup fs1 src) as [[c|es]|] eqn:E; try discriminate.
  injection Hrd as _ <-.
  apply (copyEntries_total _ src dest u fuel Ha).
  - intros. now apply IH.
  - intros. apply copy_frame.
  - intros e He. apply in_map_iff in He. destruct He as [[n t] [<- _]]. simpl.
    pose proof (depth_at_child fs1 src es n E) as Hc.
    unfold depth_at in Hd. rewrite <- (Hsrc src (is_prefix_refl src)), E in Hd. lia.
Qed.

(** *** files the source does not have *)

Lemma preserves_unshipped {A : Type} (W W' : path -> Prop) (src dest rel : path)
      (c : string) (m : M A) :
  preserves (stat_outside W) m -> preserves (frame_outside W') m ->
  ~ W (dest ++ rel) -> (forall p, W' p -> ~ is_prefix (src ++ rel) p) ->
  preserves (fun fs fs' => unshipped src dest rel c fs -> unshipped src dest rel c fs') m.
Proof.
  intros Hs Hf HW HW' fs fs' r H [H1 H2]. split.
  - rewrite <- H1. apply (Hs _ _ _ H); [rewrite H1; discriminate | exact HW].
  - rewrite <- H2. apply (Hf _ _ _ H). exact HW'.
Qed.

Lemma copy_keeps_unshipped (fuel : nat) :
  forall src dest u rel c,
    apart src dest ->
    preserves (fun fs fs' => unshipped src dest rel c fs -> unshipped src dest rel c fs')
              (copyDirectoryRecursive fuel src dest u).
Proof.
  induction fuel as [|fuel IH]; intros src dest u rel c Ha.
  - intros fs fs' r H. discriminate H.
  - apply preserves_copy_step.
    + apply (preorder_invariant (unshipped src dest rel c)).
    + apply (preserves_unshipped (fun _ => False) (copy_targets dest)).
      * apply mkdirSync_stat.
      * apply mkdirSync_frame. apply copy_targets_self.
      * tauto.
      * intros p Hp. apply (apart_not_target _ dest); [|exact Hp].
        apply (apart_below src dest rel []) in Ha. now rewrite app_nil_r in Ha.
    + intros entries. apply preserves_copyEntries.
      * apply (preorder_invariant (unshipped src dest rel c)).
      * intros e _ _.
        assert (Hap : apart (path_join src (name e)) (path_join dest (name e)))
          by now apply apart_below.
        destruct rel as [|m r].
        -- apply (preserves_unshipped (strictly_below (path_join dest (name e)))
                                      (copy_targets (path_join dest (name e)))).
           ++ apply copy_stat.
           ++ apply copy_frame.
           ++ intros [n [r H]]. unfold path_join in H. rewrite <- app_assoc in H.
              apply app_inv_head in H. discriminate.
           ++ intros p Hp. apply (apart_not_target _ (path_join dest (name e))); [|exact Hp].
              apply (apart_below src dest [] [name e]). exact Ha.
        -- destruct (string_dec m (name e)) as [->|Hm].
           ++ intros fs fs' x H. specialize (IH _ _ u r c Hap fs fs' x H).
              unfold unshipped, path_join in *. rewrite <- !app_assoc in IH. exact IH.
           ++ apply (preserves_unshipped (strictly_below (path_join dest (name e)))
                                         (copy_targets (path_join dest (name e)))).
              ** apply copy_stat.
              ** apply copy_frame.
              ** intros [n [r' H]]. unfold path_join in H. rewrite <- app_assoc in H.
                 apply app_inv_head in H. simpl in H. congruence.
              ** intros p Hp. apply (apart_not_target _ (path_join dest (name e))); [|exact Hp].
                 apply (apart_below src dest (m :: r) [name e]). exact Ha.
      * intros e _ _.
        destruct (list_eq_dec string_dec rel [name e]) as [->|Hne].
        -- intros fs fs' x H [H1 H2]. unfold copyFileSync, path_join in H.
           rewrite H2 in H. injection H as <- _. now split.
        -- apply (preserves_unshipped (eq (path_join dest (name e)))
                                      (eq (path_join dest (name e)))).
           ++ now apply copyFileSync_stat.
           ++ now apply copyFileSync_frame.
           ++ intros H. unfold path_join in H. apply app_inv_head in H. congruence.
           ++ intros p <-. apply (apart_below src dest rel [name e]). exact Ha.
Qed.

(** ** The version marker and the sidecar *)

Lemma bind_run {A B : Type} (m : M A) (k : A -> M B) (fs fs1 : FS) (a : A) :
  m fs = Some (fs1, inl a) -> bind m k fs = k a fs1.
Proof. unfold bind. now intros ->. Qed.

Lemma bind_inl_inv {A B : Type} (m : M A) (k : A -> M B) (fs fs' : FS) (b : B) :
  bind m k fs = Some (fs', inl b) ->
  exists fs1 a, m fs = Some (fs1, inl a) /\ k a fs1 = Some (fs', inl b).
Proof.
  intros H. destruct (bind_inv _ _ _ _ _ H) as [[e [_ He]]|H']; [discriminate | exact H'].
Qed.

Lemma existsSync_run (p : path) (fs : FS) :
  existsSync p fs
  = Some (fs, inl (match lookup fs p with Some _ => true | None => false end)).
Proof. reflexivity. Qed.

Lemma strict_neq_true (v : jsval) (s : string) :
  strict_neq v s = true <-> v <> Some (JString s).
Proof.
  unfold strict_neq. destruct v as [[| | |s'| |]|]; try (split; [discriminate | reflexivity]).
  rewrite negb_true_iff. split.
  - intros H E. injection E as ->. now rewrite String.eqb_refl in H.
  - intros H. destruct (String.eqb s' s) eqn:E; [|reflexivity].
    apply String.eqb_eq in E. subst. now elim H.
Qed.

(** *** what a computation returns, and that it returns *)

Lemma returns_ret {A : Type} (Q : A -> Prop) (a : A) : Q a -> returns_with Q (ret a).
Proof. intros H fs fs' a' E. now injection E as _ <-. Qed.

Lemma returns_bind {A B : Type} (Q : B -> Prop) (m : M A) (k : A -> M B) :
  (forall a, returns_with Q (k a)) -> returns_with Q (bind m k).
Proof.
  intros Hk fs fs' b H. apply bind_inl_inv in H. destruct H as [fs1 [a [_ H]]].
  exact (Hk _ _ _ _ H).
Qed.

Lemma returns_if {A : Type} (Q : A -> Prop) (b : bool) (m1 m2 : M A) :
  returns_with Q m1 -> returns_with Q m2 -> returns_with Q (if b then m1 else m2).
Proof. now destruct b. Qed.

Lemma total_ret {A : Type} (a : A) : total (ret a).
Proof. intros fs. discriminate. Qed.

Lemma total_bind {A B : Type} (m : M A) (k : A -> M B) :
  total m -> (forall a, total (k a)) -> total (bind m k).
Proof. intros Hm Hk fs. apply bind_total; [apply Hm | intros; apply Hk]. Qed.

Lemma total_if {A : Type} (b : bool) (m1 m2 : M A) :
  total m1 -> total m2 -> total (if b then m1 else m2).
Proof. now destruct b. Qed.

Lemma readSourceVersion_pure (sp : path) : preserves eq (readSourceVersion sp).
Proof.
  unfold readSourceVersion.
  apply preserves_bind; [apply preorder_eq | apply existsSync_pure |].
  intros [|]; [|apply preserves_ret; apply preorder_eq].
  apply preserves_bind; [apply preorder_eq | apply readFileSync_pure |].
  intros c. apply preserves_ret. apply preorder_eq.
Qed.

Lemma readSourceVersion_total (sp : path) : total (readSourceVersion sp).
Proof.
  intros fs. unfold readSourceVersion. apply bind_total; [apply existsSync_total|].
  intros fs1 [|] _; [|discriminate].
  apply bind_total; [apply readFileSync_total | discriminate].
Qed.

Lemma readSourceVersion_run (sp : path) (fs : FS) :
  (forall es, lookup fs (path_join sp "VERSION") <> Some (Dir es)) ->
  readSourceVersion sp fs = Some (fs, inl (version_of fs sp)).
Proof.
  intros H. unfold readSourceVersion, version_of, bind, existsSync, readFileSync.
  destruct (lookup fs (path_join sp "VERSION")) as [[c|es]|] eqn:E;
    rewrite ?E; try reflexivity.
  now elim (H es).
Qed.

Section Sidecar.

Context {RT : Runtime}.

Lemma calculateDirectoryHash_pure (p : path) : preserves eq (calculateDirectoryHash p).
Proof.
  intros fs fs' r H. unfold calculateDirectoryHash in H.
  destruct (lookup fs p) as [[c|es]|]; now injection H as <- _.
Qed.

Lemma calculateDirectoryHash_total (p : path) : total (calculateDirectoryHash p).
Proof.
  intros fs. unfold calculateDirectoryHash. destruct (lookup fs p) as [[c|es]|]; discriminate.
Qed.

Lemma calculateDirectoryHash_run (p : path) (fs : FS) (es : list (string * node)) :
  lookup fs p = Some (Dir es) ->
  calculateDirectoryHash p fs = Some (fs, inl (hash_of fs p)).
Proof. intros H. unfold calculateDirectoryHash, hash_of. now rewrite H. Qed.

Lemma readVersionMetadata_run (p : path) (fs : FS) :
  readVersionMetadata p fs = Some (fs, inl (metadata_of fs p)).
Proof.
  unfold readVersionMetadata, metadata_of, bind, existsSync, try_catch, readFileSync, ret.
  destruct (lookup fs (path_join p ".version.json")) as [[c|es]|] eqn:E;
    rewrite ?E; reflexivity.
Qed.

Lemma readVersionMetadata_pure (p : path) : preserves eq (readVersionMetadata p).
Proof. intros fs fs' r H. rewrite readVersionMetadata_run in H. now injection H as <- _. Qed.

Lemma readVersionMetadata_total (p : path) : total (readVersionMetadata p).
Proof. intros fs. rewrite readVersionMetadata_run. discriminate. Qed.

End Sidecar.

(** ** The claims *)

Section Claims.

Context {RT : Runtime}.

(** C8, as the code has it: reading the source version returns the whole
    content of the version marker file with the white space at both ends
    removed, when the file exists, and ["0.0.0"] without raising an error when
    it is absent. *)
Theorem readSourceVersion_trims_whole_content (fs : FS) (sourcePath : path) :
  (forall c, lookup fs (path_join sourcePath "VERSION") = Some (File c) ->
             readSourceVersion sourcePath fs = Some (fs, inl (trim c)))
  /\ (lookup fs (path_join sourcePath "VERSION") = None ->
      readSourceVersion sourcePath fs = Some (fs, inl "0.0.0")).
Proof.
  split.
  - intros c H. rewrite readSourceVersion_run.
    + unfold version_of. now rewrite H.
    + intros es. rewrite H. discriminate.
  - intros H. rewrite readSourceVersion_run.
    + unfold version_of. now rewrite H.
    + intros es. rewrite H. discriminate.
Qed.

(** [checkVersion] on an instance whose metadata is readable, with the bundle
    present. *)
Lemma checkVersion_tracked
      (fs : FS) (projectPath sourcePath : path) (now : string)
      (es : list (string * node)) :
  let installedPath := path_join projectPath ".auto-claude" in
  let metadata := metadata_of fs installedPath in
  lookup fs installedPath <> None ->
  truthy (Some metadata) = true ->
  lookup fs sourcePath = Some (Dir es) ->
  (forall es', lookup fs (path_join sourcePath "VERSION") <> Some (Dir es')) ->
  checkVersion projectPath sourcePath now fs
  = Some (fs, inl (mkCheck true (js_get "version" metadata)
                     (Some (version_of fs sourcePath))
                     (strict_neq (js_get "sourceHash" metadata) (hash_of fs sourcePath)
                      && strict_neq (js_get "version" metadata) (version_of fs sourcePath))
                     (Some installedPath))).
Proof.
  intros installedPath metadata Hinst Htruthy Hsrc Hver.
  unfold checkVersion. fold installedPath.
  rewrite (bind_run _ _ _ _ _ (existsSync_run _ _)).
  destruct (lookup fs installedPath) eqn:Ei; [|contradiction]. cbn [negb].
  rewrite (bind_run _ _ _ _ _ (readVersionMetadata_run _ _)). fold metadata.
  rewrite (bind_run _ _ _ _ _ (existsSync_run _ _)). rewrite Hsrc.
  rewrite Htruthy. cbn [negb andb].
  rewrite (bind_run _ _ _ _ _ (eq_refl : ret metadata fs = Some (fs, inl metadata))).
  rewrite Htruthy. cbn [negb].
  rewrite (bind_run _ _ _ _ _ (existsSync_run _ _)). rewrite Hsrc. cbn [negb].
  rewrite (bind_run _ _ _ _ _ (readSourceVersion_run _ _ Hver)).
  rewrite (bind_run _ _ _ _ _ (calculateDirectoryHash_run _ _ _ Hsrc)).
  reflexivity.
Qed.

(** C1: with the installed instance present, its metadata readable and the
    bundle present with a readable version marker, [checkVersion] returns,
    changes nothing, and reports an update exactly when the hash freshly
    computed from the bundle differs from the stored [sourceHash] and the
    version read from the bundle differs from the stored [version]. *)
Theorem checkVersion_updateAvailable_iff
        (fs : FS) (projectPath sourcePath : path) (now : string)
        (es : list (string * node)) :
  let installedPath := path_join projectPath ".auto-claude" in
  let metadata := metadata_of fs installedPath in
  lookup fs installedPath <> None ->
  truthy (Some metadata) = true ->
  lookup fs sourcePath = Some (Dir es) ->
  (forall es', lookup fs (path_join sourcePath "VERSION") <> Some (Dir es')) ->
  readVersionMetadata installedPath fs = Some (fs, inl metadata)
  /\ readSourceVersion sourcePath fs = Some (fs, inl (version_of fs sourcePath))
  /\ calculateDirectoryHash sourcePath fs = Some (fs, inl (hash_of fs sourcePath))
  /\ exists r,
      checkVersion projectPath sourcePath now fs = Some (fs, inl r)
      /\ (updateAvailable r = true <->
          js_get "sourceHash" metadata <> Some (JString (hash_of fs sourcePath))
          /\ js_get "version" metadata <> Some (JString (version_of fs sourcePath))).
Proof.
  intros installedPath metadata Hinst Htruthy Hsrc Hver.
  split; [apply readVersionMetadata_run|].
  split; [now apply readSourceVersion_run|].
  split; [now apply (calculateDirectoryHash_run _ _ es)|].
  eexists. split.
  - exact (checkVersion_tracked fs projectPath sourcePath now es Hinst Htruthy Hsrc Hver).
  - cbn [updateAvailable]. rewrite andb_true_iff, !strict_neq_true. reflexivity.
Qed.

(** *** initialize *)

Lemma try_catch_inl_inv {A : Type} (m : M A) (h : exn -> A) (fs fs' : FS) (a : A) :
  try_catch m h fs = Some (fs', inl a) ->
  m fs = Some (fs', inl a) \/ exists e, m fs = Some (fs', inr e) /\ a = h e.
Proof.
  unfold try_catch. destruct (m fs) as [[fs1 [a1|e]]|]; intros H; try discriminate;
    injection H as <- <-; eauto.
Qed.

Lemma writeFileSync_ok (p : path) (c : string) (fs fs' : FS) (u : unit) :
  writeFileSync p c fs = Some (fs', inl u) -> write_at fs p c = Ok fs'.
Proof.
  unfold writeFileSync. destruct (write_at fs p c); intros H; [|discriminate].
  now injection H as <- _.
Qed.

Lemma write_at_parent (fs fs' : FS) (d : path) (n c : string) :
  write_at fs (path_join d n) c = Ok fs' -> stat fs' d = Some KDir.
Proof.
  unfold write_at, path_join. intros H.
  destruct (modifyO_above _ _ _ _ _ _ _ H) as [[es H1] _].
  unfold stat, lookup. now rewrite H1.
Qed.

(** The run of [initializeBody] that succeeds, step by step. *)
Lemma initializeBody_steps (fuel : nat) (sourcePath dot : path) (now : string)
      (fs fs' : FS) (r : InitializationResult) :
  initializeBody fuel sourcePath dot now fs = Some (fs', inl r) ->
  exists fs1 fs2 fs3 fs4 fs5 version sourceHash,
    copyDirectoryRecursive fuel sourcePath dot false fs = Some (fs1, inl tt)
    /\ createDataDirectory (path_join dot "specs") fs1 = Some (fs2, inl tt)
    /\ createDataDirectory (path_join dot "roadmap") fs2 = Some (fs3, inl tt)
    /\ createDataDirectory (path_join dot "ideation") fs3 = Some (fs4, inl tt)
    /\ stat_outside (eq (path_join dot ".env")) fs4 fs5
    /\ readSourceVersion sourcePath fs5 = Some (fs5, inl version)
    /\ calculateDirectoryHash sourcePath fs5 = Some (fs5, inl sourceHash)
    /\ write_at fs5 (path_join dot ".version.json")
         (JSON_stringify (metadata_json
            (mkMetadata version sourceHash (path_str sourcePath) (JString now) now)))
       = Ok fs'
    /\ r = mkInit true None (Some version) (Some false).
Proof.
  unfold initializeBody. intros H.
  apply bind_inl_inv in H. destruct H as [fs1 [[] [H1 H]]].
  apply bind_inl_inv in H. destruct H as [fs2 [[] [H2 H]]].
  apply bind_inl_inv in H. destruct H as [fs3 [[] [H3 H]]].
  apply bind_inl_inv in H. destruct H as [fs4 [[] [H4 H]]].
  apply bind_inl_inv in H. destruct H as [fs4' [ex1 [E1 H]]].
  rewrite <- (existsSync_pure _ _ _ _ E1) in H. clear fs4' E1.
  apply bind_inl_inv in H. destruct H as [fs4' [ex2 [E2 H]]].
  rewrite <- (existsSync_pure _ _ _ _ E2) in H. clear fs4' E2.
  apply bind_inl_inv in H. destruct H as [fs5 [[] [H5 H]]].
  apply bind_inl_inv in H. destruct H as [fs5' [version [H6 H]]].
  pose proof (readSourceVersion_pure _ _ _ _ H6) as <-.
  apply bind_inl_inv in H. destruct H as [fs5' [sourceHash [H7 H]]].
  pose proof (calculateDirectoryHash_pure _ _ _ _ H7) as <-.
  apply bind_inl_inv in H. destruct H as [fs6 [[] [H8 H]]].
  injection H as <- <-.
  exists fs1, fs2, fs3, fs4, fs5, version, sourceHash.
  repeat split; try assumption.
  - revert H5. apply preserves_when; [apply preorder_stat_outside|].
    now apply copyFileSync_stat.
  - now apply writeFileSync_ok in H8.
Qed.

Lemma initializeProject_inv (fuel : nat) (projectPath sourcePath : path) (now : string)
      (fs fs' : FS) (r : InitializationResult) :
  initializeProject fuel projectPath sourcePath now fs = Some (fs', inl r) ->
  success r = true ->
  lookup fs (path_join projectPath ".auto-claude") = None
  /\ initializeBody fuel sourcePath (path_join projectPath ".auto-claude") now fs
     = Some (fs', inl r).
Proof.
  unfold initializeProject. intros H Hs.
  rewrite (bind_run _ _ _ _ _ (existsSync_run _ _)) in H.
  destruct (lookup fs sourcePath); cbn [negb] in H;
    [|injection H as _ <-; discriminate].
  rewrite (bind_run _ _ _ _ _ (existsSync_run _ _)) in H.
  destruct (lookup fs projectPath); cbn [negb] in H;
    [|injection H as _ <-; discriminate].
  rewrite (bind_run _ _ _ _ _ (existsSync_run _ _)) in H.
  destruct (lookup fs (path_join projectPath ".auto-claude"));
    [injection H as _ <-; discriminate|].
  split; [reflexivity|].
  apply try_catch_inl_inv in H. destruct H as [H|[e [_ ->]]]; [exact H | discriminate].
Qed.

Lemma createDataDirectory_total (d : path) : total (createDataDirectory d).
Proof.
  unfold createDataDirectory. apply total_bind; [apply existsSync_total | intros ex].
  apply total_bind; [|intros; apply writeFileSync_total].
  destruct ex; simpl; [apply total_ret | apply mkdirSync_total].
Qed.

(** [initializeProject] catches what is thrown, and with the bundle apart
    from the place of the installed instance and fuel beyond the bundle's
    height it returns. *)
Lemma initializeProject_returns (fuel : nat) (pp sp : path) (now : string) (fs : FS) :
  apart sp (path_join pp ".auto-claude") -> depth_at fs sp < fuel ->
  exists fs' r, initializeProject fuel pp sp now fs = Some (fs', inl r).
Proof.
  intros Ha Hd. unfold initializeProject.
  rewrite (bind_run _ _ _ _ _ (existsSync_run _ _)).
  destruct (lookup fs sp); cbn [negb]; [|eexists; eexists; reflexivity].
  rewrite (bind_run _ _ _ _ _ (existsSync_run _ _)).
  destruct (lookup fs pp); cbn [negb]; [|eexists; eexists; reflexivity].
  rewrite (bind_run _ _ _ _ _ (existsSync_run _ _)).
  destruct (lookup fs (path_join pp ".auto-claude")); [eexists; eexists; reflexivity|].
  assert (Ht : initializeBody fuel sp (path_join pp ".auto-claude") now fs <> None).
  { unfold initializeBody. apply bind_total; [now apply copy_total|]. intros fs1 [] _.
    revert fs1.
    repeat first
      [ apply createDataDirectory_total
      | apply existsSync_total
      | apply readSourceVersion_total
      | apply calculateDirectoryHash_total
      | apply writeFileSync_total
      | apply copyFileSync_total
      | apply total_ret
      | apply total_if
      | apply total_bind; [|intros ?] ]. }
  unfold try_catch.
  destruct (initializeBody fuel sp (path_join pp ".auto-claude") now fs) as [[fs1 [r|e]]|];
    [eexists; eexists; reflexivity.. | contradiction].
Qed.

(** C3: [initializeProject] returns a failure with a message and leaves the
    file system as it was when the bundle is missing, the project directory
    is missing, or the installed instance already exists; and after a call
    that succeeded, any further call on the project fails in that way. *)
Theorem initializeProject_fails_fast
        (fuel : nat) (fs : FS) (projectPath sourcePath : path) (now : string) :
  let installedPath := path_join projectPath ".auto-claude" in
  (lookup fs sourcePath = None \/ lookup fs projectPath = None
   \/ lookup fs installedPath <> None ->
   exists msg,
     initializeProject fuel projectPath sourcePath now fs
     = Some (fs, inl (mkInit false (Some msg) None None)))
  /\ (forall fs1 r1,
         initializeProject fuel projectPath sourcePath now fs = Some (fs1, inl r1) ->
         success r1 = true ->
         forall fuel' sourcePath' now',
         exists msg,
           initializeProject fuel' projectPath sourcePath' now' fs1
           = Some (fs1, inl (mkInit false (Some msg) None None))).
Proof.
  intros installedPath.
  assert (Hfail : forall fuel0 fs0 sp0 now0,
             lookup fs0 sp0 = None \/ lookup fs0 projectPath = None
             \/ lookup fs0 installedPath <> None ->
             exists msg,
               initializeProject fuel0 projectPath sp0 now0 fs0
               = Some (fs0, inl (mkInit false (Some msg) None None))).
  { intros fuel0 fs0 sp0 now0 H. unfold initializeProject. fold installedPath.
    rewrite (bind_run _ _ _ _ _ (existsSync_run _ _)).
    destruct (lookup fs0 sp0) eqn:E1; cbn [negb]; [|eexists; reflexivity].
    rewrite (bind_run _ _ _ _ _ (existsSync_run _ _)).
    destruct (lookup fs0 projectPath) eqn:E2; cbn [negb]; [|eexists; reflexivity].
    rewrite (bind_run _ _ _ _ _ (existsSync_run _ _)).
    destruct (lookup fs0 installedPath) eqn:E3; [eexists; reflexivity|].
    destruct H as [H|[H|H]]; try discriminate. now elim H. }
  split; [apply Hfail|].
  intros fs1 r1 H Hs fuel' sourcePath' now'. apply Hfail. right; right.
  apply initializeProject_inv in H; [|exact Hs]. destruct H as [_ H].
  apply initializeBody_steps in H.
  destruct H as [f1 [f2 [f3 [f4 [f5 [v [h [_ [_ [_ [_ [_ [_ [_ [Hw _]]]]]]]]]]]]]]].
  apply write_at_parent in Hw. fold installedPath in Hw.
  intros E. apply stat_None in E. congruence.
Qed.

Lemma createDataDirectory_ok (d : path) (fs fs' : FS) :
  createDataDirectory d fs = Some (fs', inl tt) ->
  stat fs' d = Some KDir
  /\ stat fs' (path_join d ".gitkeep") = Some (KFile "")
  /\ stat_outside (eq (path_join d ".gitkeep")) fs fs'.
Proof.
  intros H. split; [|split].
  - unfold createDataDirectory in H.
    apply bind_inl_inv in H. destruct H as [fs1 [ex [_ H]]].
    apply bind_inl_inv in H. destruct H as [fs2 [[] [_ H]]].
    apply writeFileSync_ok in H. now apply write_at_parent in H.
  - unfold createDataDirectory in H.
    apply bind_inl_inv in H. destruct H as [fs1 [ex [_ H]]].
    apply bind_inl_inv in H. destruct H as [fs2 [[] [_ H]]].
    apply writeFileSync_ok in H. apply write_at_lookup in H.
    unfold stat. now destruct H as [-> _].
  - revert H. unfold createDataDirectory.
    apply preserves_bind; [apply preorder_stat_outside | |].
    + apply preserves_eq; [apply preorder_stat_outside | apply existsSync_pure].
    + intros ex. apply preserves_bind; [apply preorder_stat_outside | |].
      * apply preserves_when; [apply preorder_stat_outside | apply mkdirSync_stat].
      * intros _. now apply writeFileSync_stat.
Qed.

Lemma scaffolded_kept (d p : path) (fs fs' : FS) :
  scaffolded d fs -> stat_outside (eq p) fs fs' ->
  p <> d -> p <> path_join d ".gitkeep" -> scaffolded d fs'.
Proof.
  intros [H1 H2] Hs Hd Hm. split.
  - rewrite <- H1. apply Hs; [rewrite H1; discriminate | congruence].
  - rewrite <- H2. apply Hs; [rewrite H2; discriminate | congruence].
Qed.

(** C9, as the code has it: after every successful initialize each of the
    three data directories exists in the installed instance and holds an empty
    marker file, whether the directory was made by initialize or came from the
    copy. *)
Theorem initializeProject_scaffolds_data_directories
        (fuel : nat) (fs fs' : FS) (projectPath sourcePath : path) (now : string)
        (r : InitializationResult) :
  initializeProject fuel projectPath sourcePath now fs = Some (fs', inl r) ->
  success r = true ->
  forall d, In d ["specs"; "roadmap"; "ideation"] ->
    stat fs' (path_join (path_join projectPath ".auto-claude") d) = Some KDir
    /\ stat fs' (path_join (path_join (path_join projectPath ".auto-claude") d) ".gitkeep")
       = Some (KFile "").
Proof.
  intros H Hs d Hd. apply initializeProject_inv in H; [|exact Hs]. destruct H as [_ H].
  apply initializeBody_steps in H.
  destruct H as [f1 [f2 [f3 [f4 [f5 [v [h [_ [H2 [H3 [H4 [H5 [_ [_ [Hw _]]]]]]]]]]]]]]].
  set (dot := path_join projectPath ".auto-claude") in *.
  apply createDataDirectory_ok in H2, H3, H4.
  destruct H2 as [A2 [B2 _]]. destruct H3 as [A3 [B3 S3]]. destruct H4 as [A4 [B4 S4]].
  assert (Sw : stat_outside (eq (path_join dot ".version.json")) f5 fs').
  { intros q _ Hq. apply (write_at_stat_other _ _ _ _ _ Hw). congruence. }
  assert (Hne : forall (a b : list string), a <> b -> dot ++ a <> dot ++ b).
  { intros a b Hab E. apply app_inv_head in E. contradiction. }
  change (scaffolded (path_join dot d) fs').
  unfold path_join in *. simpl in Hd.
  destruct Hd as [<-|[<-|[<-|[]]]].
  - refine (scaffolded_kept _ _ _ _ _ Sw _ _);
      [|unfold path_join; rewrite <- ?app_assoc; apply Hne; simpl; discriminate..].
    refine (scaffolded_kept _ _ _ _ _ H5 _ _);
      [|unfold path_join; rewrite <- ?app_assoc; apply Hne; simpl; discriminate..].
    refine (scaffolded_kept _ _ _ _ _ S4 _ _);
      [|unfold path_join; rewrite <- ?app_assoc; apply Hne; simpl; discriminate..].
    refine (scaffolded_kept _ _ _ _ _ S3 _ _);
      [|unfold path_join; rewrite <- ?app_assoc; apply Hne; simpl; discriminate..].
    now split.
  - refine (scaffolded_kept _ _ _ _ _ Sw _ _);
      [|unfold path_join; rewrite <- ?app_assoc; apply Hne; simpl; discriminate..].
    refine (scaffolded_kept _ _ _ _ _ H5 _ _);
      [|unfold path_join; rewrite <- ?app_assoc; apply Hne; simpl; discriminate..].
    refine (scaffolded_kept _ _ _ _ _ S4 _ _);
      [|unfold path_join; rewrite <- ?app_assoc; apply Hne; simpl; discriminate..].
    now split.
  - refine (scaffolded_kept _ _ _ _ _ Sw _ _);
      [|unfold path_join; rewrite <- ?app_assoc; apply Hne; simpl; discriminate..].
    refine (scaffolded_kept _ _ _ _ _ H5 _ _);
      [|unfold path_join; rewrite <- ?app_assoc; apply Hne; simpl; discriminate..].
    now split.
Qed.

(** *** update *)

Lemma preserves_updateBody (P : FS -> FS -> Prop) (fuel : nat) (sp dot : path)
      (now : string) :
  preorder P ->
  preserves P (copyDirectoryRecursive fuel sp dot true) ->
  (forall c, preserves P (writeFileSync (path_join dot ".version.json") c)) ->
  preserves P (updateBody fuel sp dot now).
Proof.
  intros HP Hc Hw. unfold updateBody.
  apply preserves_bind; [exact HP | exact Hc | intros _].
  apply preserves_bind; [exact HP | apply preserves_eq; [exact HP | apply readSourceVersion_pure] | intros v].
  apply preserves_bind; [exact HP | apply preserves_eq; [exact HP | apply calculateDirectoryHash_pure] | intros h].
  apply preserves_bind; [exact HP | apply preserves_eq; [exact HP | apply readVersionMetadata_pure] | intros md].
  apply preserves_bind; [exact HP | apply Hw | intros _].
  now apply preserves_ret.
Qed.

Lemma preserves_updateProject (P : FS -> FS -> Prop) (fuel : nat) (pp sp : path)
      (now : string) :
  preorder P ->
  preserves P (copyDirectoryRecursive fuel sp (path_join pp ".auto-claude") true) ->
  (forall c, preserves P
               (writeFileSync (path_join (path_join pp ".auto-claude") ".version.json") c)) ->
  preserves P (updateProject fuel pp sp now).
Proof.
  intros HP Hc Hw. unfold updateProject.
  apply preserves_bind; [exact HP | apply preserves_eq; [exact HP | apply existsSync_pure] | intros ex1].
  destruct (negb ex1); [now apply preserves_ret|].
  apply preserves_bind; [exact HP | apply preserves_eq; [exact HP | apply existsSync_pure] | intros ex2].
  destruct (negb ex2); [now apply preserves_ret|].
  apply preserves_try_catch. now apply preserves_updateBody.
Qed.

(** [updateProject] catches what is thrown, and with the bundle apart from
    the installed instance and fuel beyond the bundle's height it returns. *)
Lemma updateProject_returns (fuel : nat) (pp sp : path) (now : string) (fs : FS) :
  apart sp (path_join pp ".auto-claude") -> depth_at fs sp < fuel ->
  exists fs' r, updateProject fuel pp sp now fs = Some (fs', inl r).
Proof.
  intros Ha Hd. unfold updateProject.
  rewrite (bind_run _ _ _ _ _ (existsSync_run _ _)).
  destruct (lookup fs sp); cbn [negb]; [|eexists; eexists; reflexivity].
  rewrite (bind_run _ _ _ _ _ (existsSync_run _ _)).
  destruct (lookup fs (path_join pp ".auto-claude")); cbn [negb];
    [|eexists; eexists; reflexivity].
  assert (Ht : updateBody fuel sp (path_join pp ".auto-claude") now fs <> None).
  { unfold updateBody. apply bind_total; [now apply copy_total|]. intros fs1 [] _.
    apply bind_total; [apply readSourceVersion_total|]. intros fs2 v _.
    apply bind_total; [apply calculateDirectoryHash_total|]. intros fs3 h _.
    apply bind_total; [apply readVersionMetadata_total|]. intros fs4 md _.
    apply bind_total; [apply writeFileSync_total | discriminate]. }
  unfold try_catch.
  destruct (updateBody fuel sp (path_join pp ".auto-claude") now fs) as [[fs1 [r|e]]|];
    [eexists; eexists; reflexivity.. | contradiction].
Qed.

Lemma updateProject_grows (fuel : nat) (pp sp : path) (now : string) :
  preserves grows (updateProject fuel pp sp now).
Proof.
  apply preserves_updateProject.
  - apply preorder_grows.
  - apply copy_grows.
  - intros c. apply writeFileSync_grows.
Qed.

(** C2, as the code has it: with the bundle apart from the installed
    instance, every file of the installed instance that the bundle does not
    have, other than the metadata sidecar, is there with the same bytes after
    [updateProject] returns; and nothing that existed has ceased to exist. *)
Theorem updateProject_keeps_unshipped_files
        (fuel : nat) (fs : FS) (projectPath sourcePath : path) (now : string)
        (rel : path) (c : string) :
  let installedPath := path_join projectPath ".auto-claude" in
  apart sourcePath installedPath ->
  depth_at fs sourcePath < fuel ->
  stat fs (installedPath ++ rel) = Some (KFile c) ->
  lookup fs (sourcePath ++ rel) = None ->
  rel <> [".version.json"] ->
  exists fs' r,
    updateProject fuel projectPath sourcePath now fs = Some (fs', inl r)
    /\ stat fs' (installedPath ++ rel) = Some (KFile c)
    /\ grows fs fs'.
Proof.
  intros installedPath Ha Hd Hfile Habsent Hrel.
  destruct (updateProject_returns fuel projectPath sourcePath now fs Ha Hd) as [fs' [r H]].
  exists fs', r. split; [exact H|]. split; [|exact (updateProject_grows _ _ _ _ _ _ _ H)].
  assert (Hp : preserves (fun fs fs' => unshipped sourcePath installedPath rel c fs ->
                                        unshipped sourcePath installedPath rel c fs')
                         (updateProject fuel projectPath sourcePath now)).
  { apply preserves_updateProject.
    - apply (preorder_invariant (unshipped sourcePath installedPath rel c)).
    - now apply copy_keeps_unshipped.
    - intros c0. fold installedPath.
      apply (preserves_unshipped (eq (path_join installedPath ".version.json"))
                                 (eq (path_join installedPath ".version.json"))).
      + now apply writeFileSync_stat.
      + now apply writeFileSync_frame.
      + intros E. unfold path_join in E. apply app_inv_head in E. congruence.
      + intros p <-. apply (apart_below sourcePath installedPath rel [".version.json"]).
        exact Ha. }
  apply (Hp _ _ _ H). now split.
Qed.

Lemma shouldPreserve_excluded (n : string) :
  shouldPreserve n = true -> shouldExclude n = true.
Proof.
  unfold shouldPreserve. simpl. rewrite !orb_true_iff.
  intros [H|[H|H]]; try discriminate; apply String.eqb_eq in H; subst; reflexivity.
Qed.

Lemma preserved_not_target (dest rel : path) (n : string) (p : path) :
  shouldPreserve n = true -> copy_targets dest p -> ~ is_prefix (dest ++ rel ++ [n]) p.
Proof.
  intros Hn [rel' [Hall ->]] [r E].
  rewrite <- !app_assoc in E. apply app_inv_head in E. subst rel'.
  rewrite Forall_app in Hall. destruct Hall as [_ Hall].
  rewrite Forall_app in Hall. destruct Hall as [Hall _].
  inversion Hall as [|? ? Hex _]. rewrite (shouldPreserve_excluded n Hn) in Hex. discriminate.
Qed.

(** C5: an entry of the installed instance whose name is preserved is there
    unchanged, with all it contains, after [updateProject] returns, whatever
    the bundle holds under that name; and in update mode the loop of the copy
    passes over a source entry of a preserved name whose destination exists. *)
Theorem updateProject_preserves_entries
        (fuel : nat) (fs : FS) (projectPath sourcePath : path) (now : string)
        (rel : path) (n : string) (t : node) :
  let installedPath := path_join projectPath ".auto-claude" in
  shouldPreserve n = true ->
  lookup fs (installedPath ++ rel ++ [n]) = Some t ->
  apart sourcePath installedPath ->
  depth_at fs sourcePath < fuel ->
  (exists fs' r,
      updateProject fuel projectPath sourcePath now fs = Some (fs', inl r)
      /\ lookup fs' (installedPath ++ rel ++ [n]) = Some t)
  /\ (forall rec src dest e rest fs0,
         name e = n -> lookup fs0 (path_join dest n) <> None ->
         copyEntries rec src dest true (e :: rest) fs0
         = copyEntries rec src dest true rest fs0).
Proof.
  intros installedPath Hn Ht Ha Hd. split.
  - destruct (updateProject_returns fuel projectPath sourcePath now fs Ha Hd) as [fs' [r H]].
    exists fs', r. split; [exact H|]. rewrite <- Ht.
    assert (Hp : preserves (frame_outside (copy_targets installedPath))
                           (updateProject fuel projectPath sourcePath now)).
    { apply preserves_updateProject.
      - apply preorder_frame_outside.
      - apply copy_frame.
      - intros c. apply writeFileSync_frame.
        apply (copy_targets_child installedPath ".version.json");
          [reflexivity | apply copy_targets_self]. }
    apply (Hp _ _ _ H). intros p Hp'. now apply preserved_not_target.
  - intros rec src dest e rest fs0 He Hex. simpl. rewrite He.
    rewrite (shouldPreserve_excluded n Hn). reflexivity.
Qed.

(** *** the sidecar across a sync *)

Lemma assoc_In {A : Type} (n : string) (v : A) (l : list (string * A)) :
  In (n, v) l -> assoc n l <> None.
Proof.
  induction l as [|[k w] l IH]; simpl; [tauto|].
  intros [E|H].
  - injection E as -> ->. now rewrite String.eqb_refl.
  - destruct (String.eqb n k); [discriminate | now apply IH].
Qed.

Lemma copyEntries_frame (rec : path -> path -> bool -> M unit) (src dest : path)
      (u : bool) (entries : list Dirent) :
  (forall s d, preserves (frame_outside (copy_targets d)) (rec s d u)) ->
  preserves (frame_outside (below_entries dest entries)) (copyEntries rec src dest u entries).
Proof.
  intros Hrec. apply preserves_copyEntries.
  - apply preorder_frame_outside.
  - intros e He Hex. eapply preserves_mono; [|apply Hrec].
    intros fs fs'. apply frame_outside_mono. intros p [rel [_ ->]].
    exists e, rel. repeat split; auto. unfold path_join. now rewrite <- app_assoc.
  - intros e He Hex. apply copyFileSync_frame. exists e, []. repeat split; auto.
Qed.

(** A copy into an existing directory leaves alone what is at a name the
    source directory does not list. *)
Lemma copy_unlisted (fuel : nat) (src dest : path) (u : bool) (fs fs' : FS)
      (x : unit + exn) (n : string) (r : path) :
  copyDirectoryRecursive fuel src dest u fs = Some (fs', x) ->
  lookup fs dest <> None ->
  lookup fs (path_join src n) = None ->
  lookup fs' (dest ++ n :: r) = lookup fs (dest ++ n :: r).
Proof.
  destruct fuel as [|fuel]; [discriminate|]. simpl. intros H Hdest Hn.
  rewrite (bind_run _ _ _ _ _ (existsSync_run _ _)) in H.
  destruct (lookup fs dest) eqn:Ed; [|contradiction]. cbn [negb when] in H.
  rewrite (bind_run _ _ _ _ _ (eq_refl : ret tt fs = Some (fs, inl tt))) in H.
  destruct (bind_inv _ _ _ _ _ H) as [[e [H1 _]]|[fs1 [entries [H1 H2]]]].
  - now rewrite (readdirSync_pure _ _ _ _ H1).
  - pose proof (readdirSync_pure _ _ _ _ H1) as <-.
    unfold readdirSync in H1.
    destruct (lookup fs src) as [[c|es]|] eqn:Es; try discriminate.
    injection H1 as <-.
    apply (copyEntries_frame _ src dest u _ (fun s d => copy_frame fuel s d u) _ _ _ H2).
    intros p [e [r' [He [_ ->]]]] [r'' E].
    rewrite <- app_assoc in E. apply app_inv_head in E. simpl in E.
    injection E as E _. apply in_map_iff in He. destruct He as [[k t] [<- Hin]].
    simpl in E. subst k. apply assoc_In in Hin.
    unfold path_join in Hn. rewrite lookup_app, Es in Hn. simpl in Hn. contradiction.
Qed.

(** The run of [updateBody] that succeeds, step by step. *)
Lemma updateBody_steps (fuel : nat) (sourcePath dot : path) (now : string)
      (fs fs' : FS) (r : InitializationResult) :
  updateBody fuel sourcePath dot now fs = Some (fs', inl r) ->
  exists fs1 version sourceHash,
    copyDirectoryRecursive fuel sourcePath dot true fs = Some (fs1, inl tt)
    /\ write_at fs1 (path_join dot ".version.json")
         (JSON_stringify (metadata_json
            (mkMetadata version sourceHash (path_str sourcePath)
               (js_or (js_get "initializedAt" (metadata_of fs1 dot)) (JString now)) now)))
       = Ok fs'
    /\ r = mkInit true None (Some version) (Some true).
Proof.
  unfold updateBody. intros H.
  apply bind_inl_inv in H. destruct H as [fs1 [[] [H1 H]]].
  apply bind_inl_inv in H. destruct H as [fs2 [version [H2 H]]].
  pose proof (readSourceVersion_pure _ _ _ _ H2) as <-.
  apply bind_inl_inv in H. destruct H as [fs2 [sourceHash [H3 H]]].
  pose proof (calculateDirectoryHash_pure _ _ _ _ H3) as <-.
  rewrite (bind_run _ _ _ _ _ (readVersionMetadata_run _ _)) in H.
  apply bind_inl_inv in H. destruct H as [fs3 [[] [H4 H]]].
  injection H as <- <-. apply writeFileSync_ok in H4.
  exists fs1, version, sourceHash. auto.
Qed.

Lemma updateProject_inv (fuel : nat) (projectPath sourcePath : path) (now : string)
      (fs fs' : FS) (r : InitializationResult) :
  updateProject fuel projectPath sourcePath now fs = Some (fs', inl r) ->
  success r = true ->
  lookup fs (path_join projectPath ".auto-claude") <> None
  /\ updateBody fuel sourcePath (path_join projectPath ".auto-claude") now fs
     = Some (fs', inl r).
Proof.
  unfold updateProject. intros H Hs.
  rewrite (bind_run _ _ _ _ _ (existsSync_run _ _)) in H.
  destruct (lookup fs sourcePath); cbn [negb] in H;
    [|injection H as _ <-; discriminate].
  rewrite (bind_run _ _ _ _ _ (existsSync_run _ _)) in H.
  destruct (lookup fs (path_join projectPath ".auto-claude")); cbn [negb] in H;
    [|injection H as _ <-; discriminate].
  split; [discriminate|].
  apply try_catch_inl_inv in H. destruct H as [H|[e [_ ->]]]; [exact H | discriminate].
Qed.

(** Where the timestamps are as intended: a successful update from a bundle
    that has no [.version.json] of its own writes a sidecar whose
    [initializedAt] is the one of the metadata read before the update when
    that is truthy and the time of the update otherwise, and whose
    [updatedAt] is the time of the update; a successful initialize writes a
    sidecar with both set to the time of the call. *)
Theorem sidecar_timestamps
        (fuel : nat) (fs fs' : FS) (projectPath sourcePath : path) (now : string)
        (r : InitializationResult) :
  let installedPath := path_join projectPath ".auto-claude" in
  let sidecar := path_join installedPath ".version.json" in
  (updateProject fuel projectPath sourcePath now fs = Some (fs', inl r) ->
   success r = true ->
   lookup fs (path_join sourcePath ".version.json") = None ->
   exists version sourceHash,
     stat fs' sidecar
     = Some (KFile (JSON_stringify (metadata_json
         (mkMetadata version sourceHash (path_str sourcePath)
            (js_or (js_get "initializedAt" (metadata_of fs installedPath)) (JString now))
            now)))))
  /\ (initializeProject fuel projectPath sourcePath now fs = Some (fs', inl r) ->
      success r = true ->
      exists version sourceHash,
        stat fs' sidecar
        = Some (KFile (JSON_stringify (metadata_json
            (mkMetadata version sourceHash (path_str sourcePath) (JString now) now))))).
Proof.
  intros installedPath sidecar. split.
  - intros H Hs Hsrc. apply updateProject_inv in H; [|exact Hs].
    destruct H as [Hinst H]. apply updateBody_steps in H.
    destruct H as [fs1 [v [h [Hc [Hw _]]]]]. fold installedPath in Hc, Hw, Hinst.
    exists v, h.
    assert (Hm : metadata_of fs1 installedPath = metadata_of fs installedPath).
    { unfold metadata_of, path_join.
      now rewrite (copy_unlisted _ _ _ _ _ _ _ ".version.json" [] Hc Hinst Hsrc). }
    rewrite Hm in Hw. apply write_at_lookup in Hw. unfold stat. fold sidecar in Hw.
    now destruct Hw as [-> _].
  - intros H Hs. apply initializeProject_inv in H; [|exact Hs]. destruct H as [_ H].
    apply initializeBody_steps in H.
    destruct H as [f1 [f2 [f3 [f4 [f5 [v [h [_ [_ [_ [_ [_ [_ [_ [Hw _]]]]]]]]]]]]]]].
    exists v, h. apply write_at_lookup in Hw. unfold stat. fold installedPath sidecar in Hw.
    now destruct Hw as [-> _].
Qed.

(** *** retroactive metadata *)

Lemma modifyO_put_file (c : string) (d : path) :
  forall (o : option node) (es : list (string * node)) (n : string),
    lookupO o d = Some (Dir es) ->
    (forall es', assoc n es <> Some (Dir es')) ->
    exists t', modifyO false (put_file c) o (d ++ [n]) = Ok t'.
Proof.
  induction d as [|m d IH]; intros o es n Hd Hn; simpl in *.
  - subst o. unfold put_file.
    destruct (assoc n es) as [[c'|es']|] eqn:E; try (eexists; reflexivity).
    now elim (Hn es').
  - destruct o as [[c'|es0]|]; try discriminate.
    destruct (IH _ _ _ Hd Hn) as [t' ->]. eexists; reflexivity.
Qed.

Lemma write_at_succeeds (fs : FS) (d : path) (n c : string) (es : list (string * node)) :
  lookup fs d = Some (Dir es) ->
  (forall es', lookup fs (path_join d n) <> Some (Dir es')) ->
  exists fs', write_at fs (path_join d n) c = Ok fs'.
Proof.
  intros Hd Hn. apply (modifyO_put_file c d (Some fs) es n Hd).
  intros es'. specialize (Hn es'). unfold path_join in Hn.
  rewrite lookup_app, Hd in Hn. exact Hn.
Qed.

Lemma stat_dir (fs : FS) (p : path) :
  stat fs p = Some KDir -> exists es, lookup fs p = Some (Dir es).
Proof.
  unfold stat. destruct (lookup fs p) as [[c|es]|]; try discriminate. eauto.
Qed.

Lemma stat_not_dir (fs fs' : FS) (p : path) :
  stat fs' p = stat fs p ->
  (forall es, lookup fs p <> Some (Dir es)) -> forall es, lookup fs' p <> Some (Dir es).
Proof.
  unfold stat. intros E H es E'. rewrite E' in E.
  destruct (lookup fs p) as [[c|es0]|]; try discriminate. now elim (H es0).
Qed.

(** C7: on an installed instance without a sidecar, with the bundle present
    and JSON reading back the metadata it printed, the first [checkVersion]
    writes a sidecar holding the bundle's version and the hash of the
    installed tree; a second [checkVersion] changes nothing and reports the
    same [currentVersion]. *)
Theorem checkVersion_synthesizes_once
        (fs : FS) (projectPath sourcePath : path) (now now' : string)
        (es ies : list (string * node)) :
  let installedPath := path_join projectPath ".auto-claude" in
  let sidecar := path_join installedPath ".version.json" in
  let metadata := metadata_json (synthesized fs projectPath sourcePath now) in
  lookup fs installedPath = Some (Dir ies) ->
  lookup fs sidecar = None ->
  lookup fs sourcePath = Some (Dir es) ->
  (forall es', lookup fs (path_join sourcePath "VERSION") <> Some (Dir es')) ->
  JSON_parse (JSON_stringify metadata) = Some metadata ->
  readSourceVersion sourcePath fs = Some (fs, inl (version_of fs sourcePath))
  /\ calculateDirectoryHash installedPath fs = Some (fs, inl (hash_of fs installedPath))
  /\ exists fs1 r1,
      checkVersion projectPath sourcePath now fs = Some (fs1, inl r1)
      /\ stat fs1 sidecar = Some (KFile (JSON_stringify metadata))
      /\ currentVersion r1 = Some (JString (version_of fs sourcePath))
      /\ exists r2,
          checkVersion projectPath sourcePath now' fs1 = Some (fs1, inl r2)
          /\ currentVersion r2 = currentVersion r1.
Proof.
  intros installedPath sidecar metadata Hinst Hside Hsrc Hver Hjson.
  split; [now apply readSourceVersion_run|].
  split; [now apply (calculateDirectoryHash_run _ _ ies)|].
  destruct (write_at_succeeds fs installedPath ".version.json"
              (JSON_stringify metadata) ies Hinst) as [fs1 Hw].
  { intros es'. fold sidecar. rewrite Hside. discriminate. }
  fold sidecar in Hw.
  assert (Hstat : forall q, q <> sidecar -> stat fs1 q = stat fs q).
  { intros q Hq. exact (write_at_stat_other _ _ _ _ _ Hw Hq). }
  assert (Hsp : sourcePath <> sidecar).
  { intros E. rewrite E, Hside in Hsrc. discriminate. }
  assert (Hvp : path_join sourcePath "VERSION" <> sidecar).
  { unfold sidecar, path_join. intros E. apply app_inj_tail in E. destruct E as [_ E].
    discriminate. }
  destruct (stat_dir fs1 sourcePath) as [es1 Hsrc1].
  { rewrite (Hstat _ Hsp). unfold stat. now rewrite Hsrc. }
  assert (Hver1 : forall es', lookup fs1 (path_join sourcePath "VERSION") <> Some (Dir es')).
  { apply (stat_not_dir fs); [now apply Hstat | exact Hver]. }
  assert (Hside1 : lookup fs1 sidecar = Some (File (JSON_stringify metadata))).
  { now destruct (write_at_lookup _ _ _ _ Hw). }
  assert (Hinst1 : lookup fs1 installedPath <> None).
  { apply (lookupO_prefix _ installedPath [".version.json"]).
    unfold sidecar, path_join, lookup in Hside1. rewrite Hside1. discriminate. }
  assert (Hmd1 : metadata_of fs1 installedPath = metadata).
  { unfold metadata_of. fold sidecar. now rewrite Hside1, Hjson. }
  exists fs1. eexists. split; [|split; [|split]].
  - unfold checkVersion. fold installedPath.
    rewrite (bind_run _ _ _ _ _ (existsSync_run _ _)). rewrite Hinst. cbn [negb].
    rewrite (bind_run _ _ _ _ _ (readVersionMetadata_run _ _)).
    unfold metadata_of at 1. fold sidecar. rewrite Hside.
    rewrite (bind_run _ _ _ _ _ (existsSync_run _ _)). rewrite Hsrc.
    change (truthy (Some JNull)) with false. cbn [negb andb].
    assert (Hwrite : writeFileSync sidecar (JSON_stringify metadata) fs = Some (fs1, inl tt)).
    { unfold writeFileSync. now rewrite Hw. }
    rewrite (bind_run _ _ fs fs1 metadata).
    2:{ rewrite (bind_run _ _ _ _ _ (readSourceVersion_run _ _ Hver)).
        rewrite (bind_run _ _ _ _ _ (calculateDirectoryHash_run _ _ _ Hinst)).
        unfold writeVersionMetadata. fold sidecar.
        change (mkMetadata (version_of fs sourcePath) (hash_of fs installedPath)
                  (path_str sourcePath) (JString now) now)
          with (synthesized fs projectPath sourcePath now).
        fold metadata. rewrite (bind_run _ _ _ _ _ Hwrite). reflexivity. }
    change (truthy (Some metadata)) with true. cbn [negb].
    rewrite (bind_run _ _ _ _ _ (existsSync_run _ _)). rewrite Hsrc1. cbn [negb].
    rewrite (bind_run _ _ _ _ _ (readSourceVersion_run _ _ Hver1)).
    rewrite (bind_run _ _ _ _ _ (calculateDirectoryHash_run _ _ _ Hsrc1)).
    reflexivity.
  - unfold stat. now rewrite Hside1.
  - reflexivity.
  - eexists. split.
    + apply (checkVersion_tracked fs1 projectPath sourcePath now' es1).
      * exact Hinst1.
      * fold installedPath. rewrite Hmd1. reflexivity.
      * exact Hsrc1.
      * exact Hver1.
    + cbn [currentVersion]. fold installedPath. rewrite Hmd1. reflexivity.
Qed.

(** [checkVersion] on an instance whose metadata is missing or unreadable,
    with the bundle present: it writes the sidecar and returns. *)
Lemma checkVersion_untracked_returns
      (fs : FS) (projectPath sourcePath : path) (now : string)
      (es ies : list (string * node)) :
  let installedPath := path_join projectPath ".auto-claude" in
  let sidecar := path_join installedPath ".version.json" in
  lookup fs installedPath = Some (Dir ies) ->
  truthy (Some (metadata_of fs installedPath)) = false ->
  (forall es', lookup fs sidecar <> Some (Dir es')) ->
  lookup fs sourcePath = Some (Dir es) ->
  (forall es', lookup fs (path_join sourcePath "VERSION") <> Some (Dir es')) ->
  exists fs' r, checkVersion projectPath sourcePath now fs = Some (fs', inl r).
Proof.
  intros installedPath sidecar Hinst Hfalsy Hside Hsrc Hver.
  set (metadata := metadata_json (synthesized fs projectPath sourcePath now)).
  destruct (write_at_succeeds fs installedPath ".version.json"
              (JSON_stringify metadata) ies Hinst Hside) as [fs1 Hw].
  fold sidecar in Hw.
  assert (Hstat : forall q, q <> sidecar -> stat fs1 q = stat fs q).
  { intros q Hq. exact (write_at_stat_other _ _ _ _ _ Hw Hq). }
  assert (Hsp : sourcePath <> sidecar).
  { intros E. rewrite E in Hsrc. now elim (Hside es). }
  assert (Hvp : path_join sourcePath "VERSION" <> sidecar).
  { unfold sidecar, path_join. intros E. apply app_inj_tail in E. destruct E as [_ E].
    discriminate. }
  destruct (stat_dir fs1 sourcePath) as [es1 Hsrc1].
  { rewrite (Hstat _ Hsp). unfold stat. now rewrite Hsrc. }
  assert (Hver1 : forall es', lookup fs1 (path_join sourcePath "VERSION") <> Some (Dir es')).
  { apply (stat_not_dir fs); [now apply Hstat | exact Hver]. }
  exists fs1. eexists.
  unfold checkVersion. fold installedPath.
  rewrite (bind_run _ _ _ _ _ (existsSync_run _ _)). rewrite Hinst. cbn [negb].
  rewrite (bind_run _ _ _ _ _ (readVersionMetadata_run _ _)).
  rewrite (bind_run _ _ _ _ _ (existsSync_run _ _)). rewrite Hsrc.
  rewrite Hfalsy. cbn [negb andb].
  assert (Hwrite : writeFileSync sidecar (JSON_stringify metadata) fs = Some (fs1, inl tt)).
  { unfold writeFileSync. now rewrite Hw. }
  rewrite (bind_run _ _ fs fs1 metadata).
  2:{ rewrite (bind_run _ _ _ _ _ (readSourceVersion_run _ _ Hver)).
      rewrite (bind_run _ _ _ _ _ (calculateDirectoryHash_run _ _ _ Hinst)).
      unfold writeVersionMetadata. fold sidecar.
      change (mkMetadata (version_of fs sourcePath) (hash_of fs installedPath)
                (path_str sourcePath) (JString now) now)
        with (synthesized fs projectPath sourcePath now).
      fold metadata. rewrite (bind_run _ _ _ _ _ Hwrite). reflexivity. }
  change (truthy (Some metadata)) with true. cbn [negb].
  rewrite (bind_run _ _ _ _ _ (existsSync_run _ _)). rewrite Hsrc1. cbn [negb].
  rewrite (bind_run _ _ _ _ _ (readSourceVersion_run _ _ Hver1)).
  rewrite (bind_run _ _ _ _ _ (calculateDirectoryHash_run _ _ _ Hsrc1)).
  reflexivity.
Qed.

(** C10: every branch of [checkVersion] that returns a result, and what its
    [sourcePath] field holds. Without an installed instance the call returns
    the result without the field. With one, it returns when the bundle is
    missing, and when the bundle is a directory with a readable version
    marker and the metadata is readable or can be written; the field is then
    the path of the installed instance, whatever bundle path the caller gave.
    The call always comes to an end, and no result it returns is otherwise. *)
Theorem checkVersion_sourcePath_is_installedPath
        (fs : FS) (projectPath sourcePath : path) (now : string) :
  let installedPath := path_join projectPath ".auto-claude" in
  let sidecar := path_join installedPath ".version.json" in
  let metadata := metadata_of fs installedPath in
  (lookup fs installedPath = None ->
   checkVersion projectPath sourcePath now fs
   = Some (fs, inl (mkCheck false None None false None)))
  /\ (lookup fs installedPath <> None -> lookup fs sourcePath = None ->
      checkVersion projectPath sourcePath now fs
      = Some (fs, inl (mkCheck true
                         (if truthy (Some metadata) then js_get "version" metadata else None)
                         None false (Some installedPath))))
  /\ (forall es ies,
         lookup fs installedPath = Some (Dir ies) ->
         lookup fs sourcePath = Some (Dir es) ->
         (forall es', lookup fs (path_join sourcePath "VERSION") <> Some (Dir es')) ->
         truthy (Some metadata) = true
         \/ (forall es', lookup fs sidecar <> Some (Dir es')) ->
         exists fs' r,
           checkVersion projectPath sourcePath now fs = Some (fs', inl r)
           /\ isInitialized r = true
           /\ check_sourcePath r = Some installedPath)
  /\ checkVersion projectPath sourcePath now fs <> None
  /\ forall fs' r,
      checkVersion projectPath sourcePath now fs = Some (fs', inl r) ->
      (lookup fs installedPath = None ->
       isInitialized r = false /\ check_sourcePath r = None)
      /\ (lookup fs installedPath <> None ->
          isInitialized r = true
          /\ check_sourcePath r = Some installedPath
          /\ (sourcePath <> installedPath -> check_sourcePath r <> Some sourcePath)).
Proof.
  intros installedPath sidecar metadata.
  assert (Hgen : checkVersion projectPath sourcePath now fs <> None
                 /\ forall fs' r,
                     checkVersion projectPath sourcePath now fs = Some (fs', inl r) ->
                     (lookup fs installedPath = None ->
                      isInitialized r = false /\ check_sourcePath r = None)
                     /\ (lookup fs installedPath <> None ->
                         isInitialized r = true
                         /\ check_sourcePath r = Some installedPath
                         /\ (sourcePath <> installedPath ->
                             check_sourcePath r <> Some sourcePath))).
  { unfold checkVersion. fold installedPath.
    rewrite (bind_run _ _ _ _ _ (existsSync_run _ _)).
    destruct (lookup fs installedPath) eqn:Ei; cbn [negb].
    2:{ split; [discriminate|]. intros fs' r H. injection H as <- <-.
        split; [auto | intros H; now elim H]. }
    set (Q := fun r => isInitialized r = true /\ check_sourcePath r = Some installedPath).
    match goal with
    | |- ?m fs <> None /\ _ =>
        assert (Ht : total m); [|assert (Hr : returns_with Q m)]
    end.
    - repeat first
        [ apply readVersionMetadata_total
        | apply existsSync_total
        | apply readSourceVersion_total
        | apply calculateDirectoryHash_total
        | apply writeFileSync_total
        | apply total_ret
        | apply total_if
        | apply total_bind; [|intros ?] ].
    - repeat first
        [ apply returns_ret; split; reflexivity
        | apply returns_bind; intros ?
        | apply returns_if ].
    - split; [apply Ht|]. intros fs' r H. destruct (Hr _ _ _ H) as [H1 H2].
      split; [discriminate|]. intros _. repeat split; auto. rewrite H2. congruence. }
  split; [|split; [|split; [|exact Hgen]]].
  - intros Hnone. unfold checkVersion. fold installedPath.
    rewrite (bind_run _ _ _ _ _ (existsSync_run _ _)). now rewrite Hnone.
  - intros Hinst Hsrc. unfold checkVersion. fold installedPath.
    rewrite (bind_run _ _ _ _ _ (existsSync_run _ _)).
    destruct (lookup fs installedPath) eqn:Ei; [|contradiction]. cbn [negb].
    rewrite (bind_run _ _ _ _ _ (readVersionMetadata_run _ _)). fold metadata.
    rewrite (bind_run _ _ _ _ _ (existsSync_run _ _)). rewrite Hsrc.
    rewrite andb_false_r.
    rewrite (bind_run _ _ fs fs metadata eq_refl).
    destruct (truthy (Some metadata)); cbn [negb]; [|reflexivity].
    rewrite (bind_run _ _ _ _ _ (existsSync_run _ _)). now rewrite Hsrc.
  - intros es ies Hinst Hsrc Hver Hmd.
    assert (Hex : lookup fs installedPath <> None) by (rewrite Hinst; discriminate).
    assert (Hrun : exists fs' r,
               checkVersion projectPath sourcePath now fs = Some (fs', inl r)).
    { destruct (truthy (Some metadata)) eqn:Ht.
      - exists fs. eexists.
        exact (checkVersion_tracked fs projectPath sourcePath now es Hex Ht Hsrc Hver).
      - destruct Hmd as [Hmd|Hside]; [discriminate|].
        exact (checkVersion_untracked_returns fs projectPath sourcePath now es ies
                 Hinst Ht Hside Hsrc Hver). }
    destruct Hrun as [fs' [r Hrun]]. exists fs', r. split; [exact Hrun|].
    destruct (proj2 (proj2 Hgen fs' r Hrun) Hex) as [H1 [H2 _]]. now split.
Qed.

(** *** the hasher and the order of enumeration *)

Lemma node_ind2 (P : node -> Prop) :
  (forall c, P (File c)) ->
  (forall es, Forall (fun e => P (snd e)) es -> P (Dir es)) ->
  forall t, P t.
Proof.
  intros Hf Hd. fix F 1. intros [c|es]; [apply Hf|].
  apply Hd. induction es as [|[n t] es IH]; constructor; [apply F | exact IH].
Qed.

Lemma sort_insert_perm {A : Type} (cmp : A -> A -> Z) (x : A) (l : list A) :
  Permutation (sort_insert cmp x l) (x :: l).
Proof.
  induction l as [|y l IH]; simpl; [reflexivity|].
  destruct (cmp x y >? 0)%Z; [|reflexivity].
  rewrite IH. apply perm_swap.
Qed.

Lemma array_sort_perm {A : Type} (cmp : A -> A -> Z) (l : list A) :
  Permutation (array_sort cmp l) l.
Proof.
  induction l as [|x l IH]; simpl; [reflexivity|].
  rewrite sort_insert_perm. now constructor.
Qed.

(** Sorting looks at the names only, so it commutes with whatever is done to
    what the names are paired with. *)
Lemma sort_insert_map {A B : Type} (g : string * A -> string * B)
      (x : string * A) (l : list (string * A)) :
  (forall e, fst (g e) = fst e) ->
  sort_insert by_name (g x) (map g l) = map g (sort_insert by_name x l).
Proof.
  intros Hg. induction l as [|y l IH]; simpl; [reflexivity|].
  unfold by_name at 1 3. rewrite !Hg.
  destruct (localeCompare (fst x) (fst y) >? 0)%Z; simpl; [now rewrite IH | reflexivity].
Qed.

Lemma array_sort_map {A B : Type} (g : string * A -> string * B) (l : list (string * A)) :
  (forall e, fst (g e) = fst e) ->
  array_sort by_name (map g l) = map g (array_sort by_name l).
Proof.
  intros Hg. induction l as [|x l IH]; simpl; [reflexivity|].
  rewrite IH. now apply sort_insert_map.
Qed.

(** The visit as the code writes it: sort the listing, then visit the
    entries in that order. *)
Lemma processDirectory_unfold (es : list (string * node)) :
  processDirectory (Dir es) = concat_str (map entry_feed (array_sort by_name es)).
Proof.
  simpl. change (fun e : string * node => (fst e, _))
    with (fun e : string * node => (fst e, entry_feed e)).
  rewrite (array_sort_map (fun e => (fst e, entry_feed e))); [|reflexivity].
  now rewrite map_map.
Qed.

(** The sort is stable: two names that tie stay in the order of the
    enumeration. *)
Remark array_sort_keeps_ties {A : Type} (a b : string * A) :
  localeCompare (fst a) (fst b) = 0%Z ->
  array_sort by_name [a; b] = [a; b].
Proof. intros H. simpl. unfold by_name. now rewrite H. Qed.

Section Sorting.

Hypothesis consistent : consistent_comparator.

Let le {A : Type} (a b : string * A) : Prop := (by_name a b <= 0)%Z.

Lemma by_name_flip {A : Type} (a b : string * A) :
  (by_name a b > 0)%Z -> (by_name b a <= 0)%Z.
Proof.
  unfold by_name. destruct consistent as [Hs _]. intros H.
  pose proof (Hs (fst a) (fst b)) as E.
  destruct (localeCompare (fst a) (fst b)); destruct (localeCompare (fst b) (fst a));
    simpl in *; try lia; discriminate.
Qed.

Lemma by_name_tie {A : Type} (a b : string * A) :
  (by_name a b <= 0)%Z -> (by_name b a <= 0)%Z -> localeCompare (fst a) (fst b) = 0%Z.
Proof.
  unfold by_name. destruct consistent as [Hs _]. intros H1 H2.
  pose proof (Hs (fst a) (fst b)) as E.
  destruct (localeCompare (fst a) (fst b)); destruct (localeCompare (fst b) (fst a));
    simpl in *; try lia; discriminate.
Qed.

Lemma sort_insert_sorted {A : Type} (x : string * A) (l : list (string * A)) :
  StronglySorted le l -> StronglySorted le (sort_insert by_name x l).
Proof.
  induction 1 as [|y l Hl IH Hy]; simpl.
  - repeat constructor.
  - destruct (by_name x y >? 0)%Z eqn:E.
    + constructor; [exact IH|].
      rewrite (Forall_forall (le y)). intros z Hz.
      apply (Permutation_in _ (sort_insert_perm by_name x l)) in Hz.
      destruct Hz as [<-|Hz].
      * apply by_name_flip. lia.
      * rewrite Forall_forall in Hy. now apply Hy.
    + constructor; [now constructor|].
      assert (Hxy : le x y) by (unfold le; lia).
      constructor; [exact Hxy|].
      rewrite Forall_forall in *. intros z Hz. specialize (Hy z Hz).
      destruct consistent as [_ Ht]. unfold le, by_name in *. eapply Ht; eassumption.
Qed.

Lemma array_sort_sorted {A : Type} (l : list (string * A)) :
  StronglySorted le (array_sort by_name l).
Proof.
  induction l as [|x l IH]; simpl; [constructor | now apply sort_insert_sorted].
Qed.

Lemma sorted_perm_unique {A : Type} (l1 : list (string * A)) :
  forall l2,
    StronglySorted le l1 -> StronglySorted le l2 -> Permutation l1 l2 ->
    (forall a b, In a l1 -> In b l1 -> le a b -> le b a -> a = b) ->
    l1 = l2.
Proof.
  induction l1 as [|x l1 IH]; intros l2 S1 S2 Hp Hanti.
  - apply Permutation_nil in Hp. now subst.
  - destruct l2 as [|y l2]; [apply Permutation_sym, Permutation_nil in Hp; discriminate|].
    inversion S1 as [|? ? S1' F1]; subst. inversion S2 as [|? ? S2' F2]; subst.
    rewrite Forall_forall in F1, F2.
    assert (Hxy : x = y).
    { assert (Hx : In x (y :: l2)) by (apply (Permutation_in _ Hp); now left).
      assert (Hy : In y (x :: l1)) by (apply (Permutation_in _ (Permutation_sym Hp)); now left).
      destruct Hx as [->|Hx]; [reflexivity|].
      destruct Hy as [->|Hy]; [reflexivity|].
      apply Hanti; [now left | now right | now apply F1 | now apply F2]. }
    subst y. f_equal. apply IH; auto.
    + now apply Permutation_cons_inv in Hp.
    + intros a b Ha Hb. apply Hanti; now right.
Qed.

Lemma no_tie_with_In (a : string) (l : list string) (b : string) :
  no_tie_with a l = true -> In b l -> localeCompare a b <> 0%Z.
Proof.
  induction l as [|c l IH]; simpl; [tauto|].
  rewrite andb_true_iff, negb_true_iff, Z.eqb_neq. intros [H1 H2] [->|Hb]; auto.
Qed.

Lemma no_ties_tie_eq {A : Type} (l : list (string * A)) (a b : string * A) :
  no_ties (map fst l) = true -> In a l -> In b l ->
  le a b -> le b a -> a = b.
Proof.
  induction l as [|h l IH]; simpl; [tauto|].
  rewrite andb_true_iff. intros [Hh Hl] Ha Hb H1 H2.
  destruct Ha as [->|Ha], Hb as [->|Hb]; auto.
  - exfalso. apply (no_tie_with_In _ _ (fst b) Hh); [now apply in_map|].
    now apply by_name_tie.
  - exfalso. apply (no_tie_with_In _ _ (fst a) Hh); [now apply in_map|].
    now apply by_name_tie.
Qed.

(** Two enumerations of the same entries sort to the same list when no two
    names tie. *)
Lemma array_sort_perm_eq {A : Type} (l l' : list (string * A)) :
  Permutation l l' -> no_ties (map fst l) = true ->
  array_sort by_name l = array_sort by_name l'.
Proof.
  intros Hp Hn. apply sorted_perm_unique.
  - apply array_sort_sorted.
  - apply array_sort_sorted.
  - rewrite !array_sort_perm. exact Hp.
  - intros a b Ha Hb. apply (no_ties_tie_eq l); [exact Hn | |].
    + now apply (Permutation_in _ (array_sort_perm by_name l)).
    + now apply (Permutation_in _ (array_sort_perm by_name l)).
Qed.

Lemma processDirectory_perm (t : node) :
  forall t', tree_perm t t' -> collation_separates t = true ->
             processDirectory t = processDirectory t'.
Proof.
  induction t as [c|es IH] using node_ind2; intros t' Hp Hc.
  - inversion Hp; subst. reflexivity.
  - inversion Hp as [|? es' es'' HF HP]; subst.
    rewrite !processDirectory_unfold.
    simpl in Hc. apply andb_true_iff in Hc. destruct Hc as [Hties Hsub].
    assert (Hfst : map fst es = map fst es').
    { clear -HF. induction HF as [|e e' l l' [He _] _ IHF]; simpl; congruence. }
    assert (Hfeed : forall e e', In e es ->
               fst e = fst e' /\ tree_perm (snd e) (snd e') -> entry_feed e = entry_feed e').
    { intros e e' Hin [Hn Ht]. unfold entry_feed. rewrite <- Hn.
      destruct (shouldExclude (fst e)); [reflexivity|].
      rewrite Forall_forall in IH. rewrite forallb_forall in Hsub.
      pose proof (IH e Hin _ Ht (Hsub e Hin)) as E.
      inversion Ht as [c Ec Ec'|a b c' Ha Hb Ec Ec']; rewrite <- ?Ec, <- ?Ec' in *.
      - reflexivity.
      - now rewrite E. }
    rewrite <- (array_sort_perm_eq es' es'' HP); [|now rewrite <- Hfst].
    assert (Hsorted : Forall2 (fun e e' => fst e = fst e' /\ tree_perm (snd e) (snd e'))
                              es es') by exact HF.
    (* sorting both listings applies the same insertions *)
    assert (Hgen : forall l l',
               Forall2 (fun e e' => fst e = fst e' /\ entry_feed e = entry_feed e') l l' ->
               Forall2 (fun e e' => fst e = fst e' /\ entry_feed e = entry_feed e')
                       (array_sort by_name l) (array_sort by_name l')).
    { induction 1 as [|x x' l l' [Hx1 Hx2] _ IHl]; simpl; [constructor|].
      revert IHl. generalize (array_sort by_name l) (array_sort by_name l').
      induction 1 as [|y y' m m' [Hy1 Hy2] Hm IHm]; simpl.
      - repeat constructor; auto.
      - unfold by_name at 1 3. rewrite <- Hx1, <- Hy1.
        destruct (localeCompare (fst x) (fst y) >? 0)%Z; repeat constructor; auto. }
    assert (Hff : Forall2 (fun e e' => fst e = fst e' /\ entry_feed e = entry_feed e') es es').
    { clear -HF Hfeed. induction HF as [|e e' l l' He _ IHF]; constructor.
      - split; [apply He | apply Hfeed; [now left | exact He]].
      - apply IHF. intros; apply Hfeed; auto. now right. }
    specialize (Hgen _ _ Hff). clear -Hgen.
    induction Hgen as [|e e' l l' [_ He] _ IHg]; simpl; [reflexivity | now rewrite He, IHg].
Qed.

(** C4: when [localeCompare] is a consistent comparison that tells apart
    the names of any two entries of one directory, two directory trees that
    differ only in the order in which each directory enumerates its entries
    have the same hash. *)
Theorem calculateDirectoryHash_order_independent
        (fs fs' : FS) (p p' : path) (es es' : list (string * node)) :
  lookup fs p = Some (Dir es) ->
  lookup fs' p' = Some (Dir es') ->
  tree_perm (Dir es) (Dir es') ->
  collation_separates (Dir es) = true ->
  exists h,
    calculateDirectoryHash p fs = Some (fs, inl h)
    /\ calculateDirectoryHash p' fs' = Some (fs', inl h).
Proof.
  intros H H' Hp Hc. exists (digest16 (processDirectory (Dir es))).
  unfold calculateDirectoryHash. rewrite H, H'.
  now rewrite (processDirectory_perm _ _ Hp Hc).
Qed.

End Sorting.

End Claims.

(** ** The sample runtime, and the claims on sample inputs *)

Lemma compare_le_trans (a : string) :
  forall b c,
    String.compare a b <> Gt -> String.compare b c <> Gt -> String.compare a c <> Gt.
Proof.
  induction a as [|x a IH]; intros [|y b] [|z c]; simpl; try congruence.
  unfold Ascii.compare.
  destruct (N.compare (N_of_ascii x) (N_of_ascii y)) eqn:E1;
    destruct (N.compare (N_of_ascii y) (N_of_ascii z)) eqn:E2;
    try congruence; intros H1 H2.
  - apply N.compare_eq_iff in E1, E2. rewrite E1, E2, N.compare_refl. now apply (IH b c).
  - apply N.compare_eq_iff in E1. rewrite E1, E2. discriminate.
  - apply N.compare_eq_iff in E2. rewrite <- E2, E1. discriminate.
  - rewrite N.compare_lt_iff in E1, E2.
    assert (E : (N_of_ascii x < N_of_ascii z)%N) by lia.
    apply N.compare_lt_iff in E. rewrite E. discriminate.
Qed.

Lemma ordinalCompare_consistent : @consistent_comparator Sample.runtime.
Proof.
  split; simpl; unfold Sample.ordinalCompare.
  - intros a b. rewrite (String.compare_antisym a b).
    destruct (String.compare b a); reflexivity.
  - intros a b c H1 H2.
    assert (Hab : String.compare a b <> Gt)
      by (destruct (String.compare a b); [congruence..|simpl in H1; lia]).
    assert (Hbc : String.compare b c <> Gt)
      by (destruct (String.compare b c); [congruence..|simpl in H2; lia]).
    pose proof (compare_le_trans a b c Hab Hbc).
    destruct (String.compare a c); [lia..|congruence].
Qed.

Import Inputs.

Lemma checkVersion_updateAvailable_witness :
  exists r,
    @checkVersion Sample.runtime project bundle t2 stored_1_0_0
    = Some (stored_1_0_0, inl r)
    /\ (updateAvailable r = true <->
        js_get "sourceHash" (@metadata_of Sample.runtime stored_1_0_0 installed)
        <> Some (JString (@hash_of Sample.runtime stored_1_0_0 bundle))
        /\ js_get "version" (@metadata_of Sample.runtime stored_1_0_0 installed)
           <> Some (JString (version_of stored_1_0_0 bundle))).
Proof.
  eapply (@checkVersion_updateAvailable_iff Sample.runtime stored_1_0_0 project bundle t2).
  - vm_compute. discriminate.
  - vm_compute. reflexivity.
  - vm_compute. reflexivity.
  - intros es'. vm_compute. discriminate.
Defined.

(** The example of the specification: stored version 1.0.0 and hash abc123,
    bundle of version 1.1.0 with another hash. *)
Lemma checkVersion_reports_update :
  exists r,
    @checkVersion Sample.runtime project bundle t2 stored_1_0_0
    = Some (stored_1_0_0, inl r)
    /\ currentVersion r = Some (JString "1.0.0")
    /\ sourceVersion r = Some "1.1.0"
    /\ updateAvailable r = true.
Proof. eexists. repeat (split; [vm_compute; reflexivity|]). vm_compute; reflexivity. Qed.

Lemma bundle_apart_from_installed : apart bundle installed.
Proof. split; intros [r E]; vm_compute in E; discriminate. Qed.

Lemma updateProject_keeps_unshipped_witness :
  lookup stored_1_0_0 (bundle ++ ["notes.txt"]) = None
  /\ exists fs' r,
      @updateProject Sample.runtime 3 project bundle t2 stored_1_0_0 = Some (fs', inl r)
      /\ stat fs' (installed ++ ["notes.txt"]) = Some (KFile "mine")
      /\ grows stored_1_0_0 fs'.
Proof.
  split; [reflexivity|].
  apply (@updateProject_keeps_unshipped_files Sample.runtime 3 stored_1_0_0 project bundle t2
           ["notes.txt"] "mine").
  - exact bundle_apart_from_installed.
  - vm_compute. lia.
  - vm_compute. reflexivity.
  - vm_compute. reflexivity.
  - discriminate.
Defined.

(** The sidecar is a file of the installed instance that the bundle does not
    have, and a successful update changes its bytes. *)
Lemma updateProject_rewrites_sidecar :
  exists fs' r c c',
    apart bundle installed
    /\ depth_at stored_1_0_0 bundle < 3
    /\ lookup stored_1_0_0 (bundle ++ [".version.json"]) = None
    /\ stat stored_1_0_0 (installed ++ [".version.json"]) = Some (KFile c)
    /\ @updateProject Sample.runtime 3 project bundle t2 stored_1_0_0 = Some (fs', inl r)
    /\ success r = true
    /\ stat fs' (installed ++ [".version.json"]) = Some (KFile c')
    /\ String.eqb c c' = false.
Proof.
  do 4 eexists. split; [exact bundle_apart_from_installed|].
  split; [vm_compute; lia|]. repeat (split; [vm_compute; reflexivity|]). vm_compute; reflexivity.
Qed.

(** Why the bundle has to be apart from the installed instance: when it lies
    inside it, the copy reads what it has written, and a file the bundle did
    not have at the start is overwritten. *)
Lemma updateProject_bundle_inside_instance :
  exists fs' r,
    stat bundle_inside_instance (installed ++ ["R"; "x"]) = Some (KFile "mine")
    /\ lookup bundle_inside_instance ((installed ++ ["sub"]) ++ ["R"; "x"]) = None
    /\ @updateProject Sample.runtime 5 project (installed ++ ["sub"]) t2
         bundle_inside_instance = Some (fs', inl r)
    /\ success r = true
    /\ stat fs' (installed ++ ["R"; "x"]) = Some (KFile "new").
Proof. do 2 eexists. repeat (split; [vm_compute; reflexivity|]). vm_compute; reflexivity. Qed.

Lemma updateProject_preserves_witness :
  lookup stored_1_0_0 (bundle ++ ["specs"])
  = Some (Dir [("template", File "shipped")])
  /\ exists fs' r,
      @updateProject Sample.runtime 3 project bundle t2 stored_1_0_0 = Some (fs', inl r)
      /\ lookup fs' (installed ++ [] ++ ["specs"]) = Some (Dir [("001", File "kept")]).
Proof.
  split; [reflexivity|].
  apply (@updateProject_preserves_entries Sample.runtime 3 stored_1_0_0 project bundle t2
           [] "specs" (Dir [("001", File "kept")])).
  - reflexivity.
  - reflexivity.
  - exact bundle_apart_from_installed.
  - vm_compute. lia.
Defined.

(** The local [.env] keeps its content although the bundle has another. *)
Lemma updateProject_keeps_env :
  exists fs' r,
    stat stored_1_0_0 (bundle ++ [".env"]) = Some (KFile "KEY=")
    /\ @updateProject Sample.runtime 3 project bundle t2 stored_1_0_0 = Some (fs', inl r)
    /\ success r = true
    /\ stat fs' (installed ++ [".env"]) = Some (KFile "KEY=secret").
Proof. do 2 eexists. repeat (split; [vm_compute; reflexivity|]). vm_compute; reflexivity. Qed.

Lemma initializeProject_fails_fast_witness :
  exists fs1 r1 msg,
    @initializeProject Sample.runtime 3 project bundle t1 fresh = Some (fs1, inl r1)
    /\ success r1 = true
    /\ @initializeProject Sample.runtime 3 project bundle t2 fs1
       = Some (fs1, inl (mkInit false (Some msg) None None)).
Proof.
  destruct (@initializeProject Sample.runtime 3 project bundle t1 fresh)
    as [[fs1 [r1|e]]|] eqn:E; try (vm_compute in E; discriminate).
  assert (Hs : success r1 = true) by (vm_compute in E; now injection E as _ <-).
  destruct (proj2 (@initializeProject_fails_fast Sample.runtime 3 fresh project bundle t1)
              fs1 r1 E Hs 3 bundle t2) as [msg Hm].
  exists fs1, r1, msg. auto.
Defined.

Lemma initializeProject_scaffolds_witness :
  exists fs' r,
    @initializeProject Sample.runtime 3 project bundle t1 fresh = Some (fs', inl r)
    /\ stat fs' (path_join installed "ideation") = Some KDir
    /\ stat fs' (path_join (path_join installed "ideation") ".gitkeep") = Some (KFile "").
Proof.
  destruct (@initializeProject Sample.runtime 3 project bundle t1 fresh)
    as [[fs' [r|e]]|] eqn:E; try (vm_compute in E; discriminate).
  assert (Hs : success r = true) by (vm_compute in E; now injection E as _ <-).
  exists fs', r. split; [reflexivity|].
  apply (@initializeProject_scaffolds_data_directories Sample.runtime 3 fresh fs' project bundle
           t1 r E Hs "ideation").
  simpl. auto.
Defined.

(** The [roadmap] directory comes from the copy, without a marker, and
    initialize writes a marker into it. *)
Lemma initializeProject_marks_copied_directory :
  exists fs1 fs' r,
    copyDirectoryRecursive 3 bundle installed false fresh = Some (fs1, inl tt)
    /\ stat fs1 (installed ++ ["roadmap"]) = Some KDir
    /\ stat fs1 (installed ++ ["roadmap"; ".gitkeep"]) = None
    /\ @initializeProject Sample.runtime 3 project bundle t1 fresh = Some (fs', inl r)
    /\ success r = true
    /\ stat fs' (installed ++ ["roadmap"; "plan.md"]) = Some (KFile "plan")
    /\ stat fs' (installed ++ ["roadmap"; ".gitkeep"]) = Some (KFile "").
Proof. do 3 eexists. repeat (split; [vm_compute; reflexivity|]). vm_compute; reflexivity. Qed.

Lemma sidecar_timestamps_witness :
  (exists fs' r version sourceHash,
      @updateProject Sample.runtime 3 project bundle t2 Cases.tracked_since_t1
      = Some (fs', inl r)
      /\ stat fs' sidecar
         = Some (KFile (Sample.stringify (metadata_json
             (mkMetadata version sourceHash (path_str bundle) (JString t1) t2)))))
  /\ (exists fs' r version sourceHash,
         @initializeProject Sample.runtime 3 project bundle t1 fresh = Some (fs', inl r)
         /\ stat fs' sidecar
            = Some (KFile (Sample.stringify (metadata_json
                (mkMetadata version sourceHash (path_str bundle) (JString t1) t1))))).
Proof.
  split.
  - destruct (@updateProject Sample.runtime 3 project bundle t2 Cases.tracked_since_t1)
      as [[fs' [r|e]]|] eqn:E; try (vm_compute in E; discriminate).
    assert (Hs : success r = true) by (vm_compute in E; now injection E as _ <-).
    destruct (proj1 (@sidecar_timestamps Sample.runtime 3 Cases.tracked_since_t1 fs' project
                       bundle t2 r) E Hs eq_refl) as [v [h H]].
    exists fs', r, v, h. split; [reflexivity | exact H].
  - destruct (@initializeProject Sample.runtime 3 project bundle t1 fresh)
      as [[fs' [r|e]]|] eqn:E; try (vm_compute in E; discriminate).
    assert (Hs : success r = true) by (vm_compute in E; now injection E as _ <-).
    destruct (proj2 (@sidecar_timestamps Sample.runtime 3 fresh fs' project bundle t1 r)
                E Hs) as [v [h H]].
    exists fs', r, v, h. split; [reflexivity | exact H].
Defined.

(** Stored metadata whose [initializedAt] is missing, or is the empty string:
    the metadata written by a successful update has the time of the update
    instead. *)
Lemma updateProject_initializedAt_not_carried :
  (exists fs' r,
      truthy (Some (@metadata_of Sample.runtime stored_1_0_0 installed)) = true
      /\ js_get "initializedAt" (@metadata_of Sample.runtime stored_1_0_0 installed) = None
      /\ lookup stored_1_0_0 (path_join bundle ".version.json") = None
      /\ @updateProject Sample.runtime 3 project bundle t2 stored_1_0_0 = Some (fs', inl r)
      /\ success r = true
      /\ js_get "initializedAt" (@metadata_of Sample.runtime fs' installed)
         = Some (JString t2))
  /\ (exists fs' r,
         js_get "initializedAt" (@metadata_of Sample.runtime blank_initializedAt installed)
         = Some (JString "")
         /\ lookup blank_initializedAt (path_join bundle ".version.json") = None
         /\ @updateProject Sample.runtime 3 project bundle t2 blank_initializedAt
            = Some (fs', inl r)
         /\ success r = true
         /\ js_get "initializedAt" (@metadata_of Sample.runtime fs' installed)
            = Some (JString t2)).
Proof.
  split; do 2 eexists.
  - repeat (split; [vm_compute; reflexivity|]). vm_compute; reflexivity.
  - repeat (split; [vm_compute; reflexivity|]). vm_compute; reflexivity.
Qed.

(** C6 fails on the code: [updateProject] reads the sidecar after the copy,
    and [.version.json] is not an excluded name. On an instance initialized
    at [t1], updated from a bundle that has a [.version.json] of its own, the
    copy overwrites the sidecar first; the update then succeeds and writes
    the [initializedAt] of the bundle's file, not [t1], with [updatedAt] the
    time of the update. *)
Theorem updateProject_reads_copied_sidecar :
  exists fs' r,
    stat bundle_with_sidecar sidecar
    = Some (KFile (Sample.stringify
                     (metadata_json (mkMetadata "1.0.0" "abc123" "/opt/auto-claude"
                                                (JString t1) t1))))
    /\ js_get "initializedAt" (@metadata_of Sample.runtime bundle_with_sidecar installed)
       = Some (JString t1)
    /\ apart bundle installed
    /\ @updateProject Sample.runtime 3 project bundle t2 bundle_with_sidecar
       = Some (fs', inl r)
    /\ success r = true
    /\ js_get "initializedAt" (@metadata_of Sample.runtime fs' installed)
       = Some (JString "1999-12-31T00:00:00.000Z")
    /\ String.eqb t1 "1999-12-31T00:00:00.000Z" = false
    /\ js_get "updatedAt" (@metadata_of Sample.runtime fs' installed)
       = Some (JString t2).
Proof.
  do 2 eexists. split; [reflexivity|]. split; [vm_compute; reflexivity|].
  split; [exact bundle_apart_from_installed|].
  repeat (split; [vm_compute; reflexivity|]). vm_compute; reflexivity.
Qed.

Lemma checkVersion_synthesizes_once_witness :
  readSourceVersion bundle legacy = Some (legacy, inl (version_of legacy bundle))
  /\ @calculateDirectoryHash Sample.runtime installed legacy
     = Some (legacy, inl (@hash_of Sample.runtime legacy installed))
  /\ exists fs1 r1,
    @checkVersion Sample.runtime project bundle t1 legacy = Some (fs1, inl r1)
    /\ stat fs1 sidecar
       = Some (KFile (Sample.stringify
                        (metadata_json (@synthesized Sample.runtime legacy project bundle t1))))
    /\ currentVersion r1 = Some (JString (version_of legacy bundle))
    /\ exists r2,
        @checkVersion Sample.runtime project bundle t2 fs1 = Some (fs1, inl r2)
        /\ currentVersion r2 = currentVersion r1.
Proof.
  eapply (@checkVersion_synthesizes_once Sample.runtime legacy project bundle t1 t2).
  - vm_compute. reflexivity.
  - vm_compute. reflexivity.
  - vm_compute. reflexivity.
  - intros es'. vm_compute. discriminate.
  - vm_compute. reflexivity.
Defined.

Lemma checkVersion_sourcePath_witness :
  @checkVersion Sample.runtime project bundle t1 fresh
  = Some (fresh, inl (mkCheck false None None false None))
  /\ (exists fs' r,
         @checkVersion Sample.runtime project bundle t2 stored_1_0_0 = Some (fs', inl r)
         /\ isInitialized r = true
         /\ check_sourcePath r = Some installed)
  /\ (exists fs' r,
         @checkVersion Sample.runtime project bundle t1 legacy = Some (fs', inl r)
         /\ isInitialized r = true
         /\ check_sourcePath r = Some installed)
  /\ (exists fs' r,
         @checkVersion Sample.runtime project installed t2 stored_1_0_0 = Some (fs', inl r)
         /\ isInitialized r = true
         /\ check_sourcePath r = Some installed).
Proof.
  split; [|split; [|split]].
  - apply (@checkVersion_sourcePath_is_installedPath Sample.runtime fresh project bundle t1).
    reflexivity.
  - eapply (@checkVersion_sourcePath_is_installedPath Sample.runtime stored_1_0_0 project
              bundle t2).
    + reflexivity.
    + reflexivity.
    + intros es'. vm_compute. discriminate.
    + left. vm_compute. reflexivity.
  - eapply (@checkVersion_sourcePath_is_installedPath Sample.runtime legacy project
              bundle t1).
    + reflexivity.
    + reflexivity.
    + intros es'. vm_compute. discriminate.
    + right. intros es'. vm_compute. discriminate.
  - eapply (@checkVersion_sourcePath_is_installedPath Sample.runtime stored_1_0_0 project
              installed t2).
    + reflexivity.
    + reflexivity.
    + intros es'. vm_compute. discriminate.
    + left. vm_compute. reflexivity.
Defined.

(** The version marker has two lines; what is read is both, not the first. *)
Lemma readSourceVersion_not_first_line :
  readSourceVersion bundle two_line_marker
  = Some (two_line_marker, inl ("1.0.0" +++ Sample.LF +++ "2.0.0"))
  /\ first_line_trimmed ("1.0.0" +++ Sample.LF +++ "2.0.0" +++ Sample.LF) = "1.0.0"
  /\ String.eqb ("1.0.0" +++ Sample.LF +++ "2.0.0") "1.0.0" = false.
Proof. vm_compute. repeat split. Qed.

Lemma listed_tree_perm :
  tree_perm (Dir [("b.txt", File "B"); ("a", Dir [("y", File "1"); ("x", File "2")])])
            (Dir [("a", Dir [("x", File "2"); ("y", File "1")]); ("b.txt", File "B")]).
Proof.
  apply tp_dir with (es' := [("b.txt", File "B");
                             ("a", Dir [("x", File "2"); ("y", File "1")])]).
  - constructor; [split; [reflexivity | constructor]|].
    constructor; [|constructor]. split; [reflexivity|].
    apply tp_dir with (es' := [("y", File "1"); ("x", File "2")]).
    + repeat constructor.
    + apply perm_swap.
  - apply perm_swap.
Qed.

Lemma calculateDirectoryHash_order_witness :
  exists h,
    @calculateDirectoryHash Sample.runtime ["d"] listed_one_way
    = Some (listed_one_way, inl h)
    /\ @calculateDirectoryHash Sample.runtime ["d"] listed_another_way
       = Some (listed_another_way, inl h).
Proof.
  eapply (@calculateDirectoryHash_order_independent Sample.runtime
            ordinalCompare_consistent listed_one_way listed_another_way ["d"] ["d"]).
  - reflexivity.
  - reflexivity.
  - exact listed_tree_perm.
  - vm_compute. reflexivity.
Defined.

Lemma collate_consistent : @consistent_comparator Collating.runtime.
Proof.
  destruct ordinalCompare_consistent as [Hs Ht].
  split; simpl; unfold Collating.collate.
  - intros a b. apply Hs.
  - intros a b c. apply Ht.
Qed.

Lemma tied_tree_perm :
  tree_perm (Dir [("a", File "1"); (Cases.SOH +++ "a", File "2")])
            (Dir [(Cases.SOH +++ "a", File "2"); ("a", File "1")]).
Proof.
  apply tp_dir with (es' := [("a", File "1"); (Cases.SOH +++ "a", File "2")]).
  - repeat constructor.
  - apply perm_swap.
Qed.

(** C4 as the specification states it, for every directory tree, fails: with
    a consistent [localeCompare] that returns 0 for the names ["a"] and
    [U+0001 "a"] (it ignores the control character), the two entries keep the
    order of the enumeration through the stable sort, and the two
    enumerations of the same directory have different hashes. *)
Lemma calculateDirectoryHash_ties_follow_enumeration :
  exists h h',
    @consistent_comparator Collating.runtime
    /\ @localeCompare Collating.runtime "a" (Cases.SOH +++ "a") = 0%Z
    /\ lookup Cases.tied_one_way ["d"]
       = Some (Dir [("a", File "1"); (Cases.SOH +++ "a", File "2")])
    /\ lookup Cases.tied_another_way ["d"]
       = Some (Dir [(Cases.SOH +++ "a", File "2"); ("a", File "1")])
    /\ tree_perm (Dir [("a", File "1"); (Cases.SOH +++ "a", File "2")])
                 (Dir [(Cases.SOH +++ "a", File "2"); ("a", File "1")])
    /\ @calculateDirectoryHash Collating.runtime ["d"] Cases.tied_one_way
       = Some (Cases.tied_one_way, inl h)
    /\ @calculateDirectoryHash Collating.runtime ["d"] Cases.tied_another_way
       = Some (Cases.tied_another_way, inl h')
    /\ String.eqb h h' = false.
Proof.
  do 2 eexists. split; [exact collate_consistent|].
  split; [reflexivity|]. split; [reflexivity|]. split; [reflexivity|].
  split; [exact tied_tree_perm|].
  repeat (split; [vm_compute; reflexivity|]). vm_compute; reflexivity.
Qed.

(** * Further properties of the program *)

(** ** The policy *)

Lemma substring_all (s : string) : substring 0 (String.length s) s = s.
Proof. induction s as [|c s IH]; simpl; [reflexivity | now rewrite IH]. Qed.

Lemma length_app (s t : string) :
  String.length (s +++ t) = String.length s + String.length t.
Proof. induction s as [|c s IH]; simpl; [reflexivity | now rewrite IH]. Qed.

Lemma substring_app_skip (s t : string) (n : nat) :
  substring (String.length s) n (s +++ t) = substring 0 n t.
Proof. induction s as [|c s IH]; simpl; [reflexivity | exact IH]. Qed.

Lemma endsWith_app (s ext : string) : endsWith (s +++ ext) ext = true.
Proof.
  unfold endsWith. rewrite length_app.
  replace (String.length s + String.length ext - String.length ext) with (String.length s) by lia.
  rewrite substring_app_skip, substring_all, String.eqb_refl.
  rewrite andb_true_r. apply Nat.leb_le. lia.
Qed.

Lemma substring_split (s : string) (k : nat) :
  k <= String.length s ->
  s = substring 0 k s +++ substring k (String.length s - k) s.
Proof.
  revert k. induction s as [|c s IH]; intros [|k] Hk; simpl in *; try lia.
  - reflexivity.
  - now rewrite substring_all.
  - f_equal. apply IH. lia.
Qed.

Lemma endsWith_inv (s ext : string) :
  endsWith s ext = true -> exists pre, s = pre +++ ext.
Proof.
  unfold endsWith. rewrite andb_true_iff. intros [Hl He].
  apply Nat.leb_le in Hl. apply String.eqb_eq in He.
  exists (substring 0 (String.length s - String.length ext) s).
  rewrite (substring_split s (String.length s - String.length ext)) at 1 by lia.
  f_equal. replace (String.length s - (String.length s - String.length ext))
    with (String.length ext) by lia. exact He.
Qed.

(** X1: A name is excluded exactly when it is one of the five literal names or
    ends in [.pyc]; the wildcard is a suffix test, so the bare name [.pyc] is
    excluded too. *)
Theorem shouldExclude_iff (n : string) :
  shouldExclude n = true <->
  In n ["__pycache__"; ".DS_Store"; ".env"; "specs"; ".git"]
  \/ exists pre, n = pre +++ ".pyc".
Proof.
  unfold shouldExclude, EXCLUDE_PATTERNS. cbn [matchesAny startsWith String.prefix slice1].
  split.
  - intros H.
    destruct (String.eqb n "__pycache__") eqn:E1; [apply String.eqb_eq in E1; subst; simpl; auto|].
    destruct (String.eqb n ".DS_Store") eqn:E2; [apply String.eqb_eq in E2; subst; simpl; auto|].
    destruct (endsWith n ".pyc") eqn:E3; [right; now apply endsWith_inv|].
    destruct (String.eqb n ".env") eqn:E4; [apply String.eqb_eq in E4; subst; simpl; auto|].
    destruct (String.eqb n "specs") eqn:E5; [apply String.eqb_eq in E5; subst; simpl; auto 6|].
    destruct (String.eqb n ".git") eqn:E6; [apply String.eqb_eq in E6; subst; simpl; auto 7|].
    discriminate.
  - intros [H|[pre ->]].
    + simpl in H. destruct H as [<-|[<-|[<-|[<-|[<-|[]]]]]]; reflexivity.
    + rewrite endsWith_app.
      destruct (String.eqb (pre +++ ".pyc") "__pycache__"); [reflexivity|].
      destruct (String.eqb (pre +++ ".pyc") ".DS_Store"); reflexivity.
Qed.

Lemma not_excluded_not_preserved (n : string) :
  shouldExclude n = false -> shouldPreserve n = false.
Proof.
  intros H. destruct (shouldPreserve n) eqn:E; [|reflexivity].
  apply shouldPreserve_excluded in E. congruence.
Qed.

Lemma copyEntries_ext (rec rec' : path -> path -> bool -> M unit) (src dest : path)
      (u u' : bool) (entries : list Dirent) :
  (forall s d fs, rec s d u fs = rec' s d u' fs) ->
  forall fs, copyEntries rec src dest u entries fs = copyEntries rec' src dest u' entries fs.
Proof.
  intros Hrec. induction entries as [|e rest IH]; intros fs; simpl; [reflexivity|].
  destruct (shouldExclude (name e)) eqn:Ex; [apply IH|].
  rewrite (not_excluded_not_preserved _ Ex), !andb_false_r.
  unfold bind, ret. destruct (isDirectory e).
  - rewrite Hrec. destruct (rec' _ _ u' fs) as [[fs1 [[]|x]]|]; auto.
  - destruct (copyFileSync _ _ fs) as [[fs1 [[]|x]]|]; auto.
Qed.

(** X2: Every preserved name is an excluded name, so the copy does the same in
    update mode as in a fresh install: the mode decides nothing. *)
Theorem copyDirectoryRecursive_mode_irrelevant (fuel : nat) :
  forall (src dest : path) (fs : FS),
    copyDirectoryRecursive fuel src dest true fs
    = copyDirectoryRecursive fuel src dest false fs.
Proof.
  induction fuel as [|fuel IH]; intros src dest fs; [reflexivity|].
  simpl. unfold bind.
  destruct (existsSync dest fs) as [[fs1 [ex|x]]|]; try reflexivity.
  destruct (when (negb ex) (mkdirSync_recursive dest) fs1) as [[fs2 [[]|x]]|]; try reflexivity.
  destruct (readdirSync src fs2) as [[fs3 [entries|x]]|]; try reflexivity.
  apply copyEntries_ext. intros. apply IH.
Qed.

(** ** What the copy installs and what it leaves alone *)

Lemma excluded_not_target (dest rel : path) (n : string) (r p : path) :
  shouldExclude n = true -> copy_targets dest p -> ~ is_prefix (dest ++ rel ++ n :: r) p.
Proof.
  intros Hn [rel' [Hall ->]] [r' E].
  rewrite <- !app_assoc in E. apply app_inv_head in E. subst rel'.
  rewrite Forall_app in Hall. destruct Hall as [_ Hall].
  simpl in Hall. inversion Hall as [|? ? Hex _]. congruence.
Qed.

(** X3: Whatever the mode and however it ends, the copy creates and changes
    nothing at or below an excluded name in the destination. *)
Theorem copyDirectoryRecursive_skips_excluded
        (fuel : nat) (src dest : path) (isUpdate : bool) (fs fs' : FS) (x : unit + exn)
        (rel : path) (n : string) (r : path) :
  copyDirectoryRecursive fuel src dest isUpdate fs = Some (fs', x) ->
  shouldExclude n = true ->
  lookup fs' (dest ++ rel ++ n :: r) = lookup fs (dest ++ rel ++ n :: r).
Proof.
  intros H Hn. apply (copy_frame fuel src dest isUpdate fs fs' x H).
  intros p Hp. now apply excluded_not_target.
Qed.

Lemma copyFileSync_ok (s d : path) (fs fs' : FS) (u : unit) :
  copyFileSync s d fs = Some (fs', inl u) ->
  exists c, lookup fs s = Some (File c) /\ write_at fs d c = Ok fs'.
Proof.
  unfold copyFileSync. destruct (lookup fs s) as [[c|es]|]; try discriminate.
  destruct (write_at fs d c) eqn:E; [|discriminate].
  intros H. injection H as <-. eauto.
Qed.

Lemma stat_file_below (fs : FS) (p : path) (n : string) (r : path) (c k : string) :
  stat fs (p ++ n :: r) = Some (KFile k) -> lookup fs p = Some (File c) -> False.
Proof.
  unfold stat. rewrite lookup_app. intros H E. rewrite E in H. discriminate.
Qed.

(** The loop, on a file of the source below one of the listed names. *)
Lemma copyEntries_installs (fuel : nat) (src dest : path) (u : bool)
      (n : string) (r : path) (c : string) :
  apart src dest ->
  shouldExclude n = false ->
  (forall fs fs', copyDirectoryRecursive fuel (path_join src n) (path_join dest n) u fs
                  = Some (fs', inl tt) ->
                  stat fs (path_join src n ++ r) = Some (KFile c) ->
                  stat fs' (path_join dest n ++ r) = Some (KFile c)) ->
  forall entries fs fs',
    copyEntries (copyDirectoryRecursive fuel) src dest u entries fs = Some (fs', inl tt) ->
    stat fs (src ++ n :: r) = Some (KFile c) ->
    (exists e, In e entries /\ name e = n) ->
    stat fs' (dest ++ n :: r) = Some (KFile c).
Proof.
  intros Ha Hn IHrec. induction entries as [|e0 rest IH]; intros fs fs' H Hsrc [e [Hin He]].
  - destruct Hin.
  - simpl in H. destruct (shouldExclude (name e0)) eqn:Ex.
    { apply (IH fs fs' H Hsrc). destruct Hin as [->|Hin]; [congruence | eauto]. }
    rewrite (not_excluded_not_preserved _ Ex), andb_false_r in H.
    rewrite (bind_run _ _ fs fs false eq_refl) in H.
    apply bind_inl_inv in H. destruct H as [fs1 [[] [Hstep Hrest]]].
    assert (Hfr : frame_outside (copy_targets (path_join dest (name e0))) fs fs1).
    { destruct (isDirectory e0).
      - exact (copy_frame _ _ _ _ _ _ _ Hstep).
      - eapply copyFileSync_frame; [apply copy_targets_self | exact Hstep]. }
    assert (Hsrc1 : stat fs1 (src ++ n :: r) = Some (KFile c)).
    { rewrite <- Hsrc. apply stat_lookup.
      apply (frame_apart _ _ _ _ Hfr). apply apart_below. exact Ha. }
    destruct (existsb (fun e' => String.eqb (name e') n) rest) eqn:Eb.
    { apply existsb_exists in Eb. destruct Eb as [e' [Hin' He']].
      apply String.eqb_eq in He'. apply (IH fs1 fs' Hrest Hsrc1). eauto. }
    assert (He0 : name e0 = n).
    { destruct Hin as [->|Hin]; [exact He|]. exfalso.
      assert (existsb (fun e' => String.eqb (name e') n) rest = true).
      { apply existsb_exists. exists e. split; [exact Hin|]. rewrite He. apply String.eqb_refl. }
      congruence. }
    assert (Hdone : stat fs1 (dest ++ n :: r) = Some (KFile c)).
    { rewrite He0 in Hstep. destruct (isDirectory e0).
      - specialize (IHrec fs fs1 Hstep). unfold path_join in IHrec.
        rewrite <- !app_assoc in IHrec. now apply IHrec.
      - apply copyFileSync_ok in Hstep. destruct Hstep as [c0 [Hl Hw]].
        destruct r as [|m r].
        + unfold stat, path_join in *. rewrite Hl in Hsrc. injection Hsrc as ->.
          now destruct (write_at_lookup _ _ _ _ Hw) as [-> _].
        + exfalso. unfold path_join in Hl.
          apply (stat_file_below fs (src ++ [n]) m r c0 c); [|exact Hl].
          now rewrite <- app_assoc. }
    rewrite <- Hdone.
    apply (copyEntries_stat _ src dest u rest (fun s d => copy_stat fuel s d u) _ _ _ Hrest).
    + rewrite Hdone. discriminate.
    + intros [e' [r' [Hin' [_ E]]]]. apply app_inv_head in E. injection E as E _.
      assert (existsb (fun e' => String.eqb (name e') n) rest = true).
      { apply existsb_exists. exists e'. split; [exact Hin'|]. rewrite E. apply String.eqb_refl. }
      congruence.
Qed.

Lemma assoc_listed (n : string) (r : path) (es : list (string * node)) :
  lookupO (assoc n es) r <> None ->
  exists e, In e (map dirent_of es) /\ name e = n.
Proof.
  induction es as [|[k t] es IH]; simpl; intros H.
  - rewrite lookupO_None in H. now elim H.
  - destruct (String.eqb n k) eqn:Ek.
    + apply String.eqb_eq in Ek. subst. exists (dirent_of (k, t)). auto.
    + destruct (IH H) as [e [Hin He]]. eauto.
Qed.

Lemma lookup_listed (fs : FS) (p : path) (n : string) (r : path) (es : list (string * node)) :
  lookup fs (p ++ n :: r) <> None -> lookup fs p = Some (Dir es) ->
  exists e, In e (map dirent_of es) /\ name e = n.
Proof.
  rewrite lookup_app. intros H E. rewrite E in H. simpl in H.
  now apply (assoc_listed n r es).
Qed.

(** A copy that returns normally has put every file of the source that lies
    below names that are not excluded at the same place in the destination,
    with the same bytes. *)
Lemma copy_installs (fuel : nat) :
  forall (src dest : path) (u : bool) (fs fs' : FS) (rel : path) (c : string),
    apart src dest ->
    copyDirectoryRecursive fuel src dest u fs = Some (fs', inl tt) ->
    Forall (fun n => shouldExclude n = false) rel ->
    stat fs (src ++ rel) = Some (KFile c) ->
    stat fs' (dest ++ rel) = Some (KFile c).
Proof.
  induction fuel as [|fuel IH]; intros src dest u fs fs' rel c Ha H Hrel Hsrc; [discriminate|].
  simpl in H.
  rewrite (bind_run _ _ _ _ _ (existsSync_run _ _)) in H.
  apply bind_inl_inv in H. destruct H as [fs1 [[] [Hmk H]]].
  assert (Hfr : frame_outside (copy_targets dest) fs fs1).
  { revert Hmk. apply preserves_when; [apply preorder_frame_outside|].
    apply mkdirSync_frame, copy_targets_self. }
  assert (Hsrc_eq : forall r, lookup fs1 (src ++ r) = lookup fs (src ++ r)).
  { intros r. apply (frame_apart _ _ _ _ Hfr).
    apply (apart_below src dest r []) in Ha. now rewrite app_nil_r in Ha. }
  apply bind_inl_inv in H. destruct H as [fs2 [entries [Hrd H]]].
  pose proof (readdirSync_pure _ _ _ _ Hrd) as <-.
  unfold readdirSync in Hrd.
  destruct (lookup fs1 src) as [[c0|es]|] eqn:Es; try discriminate.
  injection Hrd as <-.
  destruct rel as [|n r].
  - exfalso. rewrite app_nil_r in Hsrc. unfold stat in Hsrc.
    rewrite <- (app_nil_r src), Hsrc_eq, app_nil_r in Es. rewrite Es in Hsrc. discriminate.
  - inversion Hrel as [|? ? Hn Hr]; subst.
    assert (Hsrc1 : stat fs1 (src ++ n :: r) = Some (KFile c)).
    { rewrite <- Hsrc. apply stat_lookup, Hsrc_eq. }
    apply (copyEntries_installs fuel src dest u n r c Ha Hn) with (entries := map dirent_of es) (fs := fs1).
    + intros f f' Hc Hs. apply (IH _ _ _ _ _ _ _ (apart_below src dest [n] [n] Ha) Hc Hr Hs).
    + exact H.
    + exact Hsrc1.
    + apply (lookup_listed fs1 src n r es); [|exact Es].
      unfold stat in Hsrc1. destruct (lookup fs1 (src ++ n :: r)); [discriminate | discriminate].
Qed.

Section Lifecycle.

Context {RT : Runtime}.

Lemma createDataDirectory_preserves (P : FS -> FS -> Prop) (d : path) :
  preorder P ->
  preserves P (mkdirSync_recursive d) ->
  preserves P (writeFileSync (path_join d ".gitkeep") "") ->
  preserves P (createDataDirectory d).
Proof.
  intros HP Hm Hw. unfold createDataDirectory.
  apply preserves_bind; [exact HP | apply preserves_eq; [exact HP | apply existsSync_pure] |].
  intros ex. apply preserves_bind; [exact HP | now apply preserves_when | intros _; exact Hw].
Qed.

Lemma preserves_initializeProject (P : FS -> FS -> Prop) (fuel : nat) (pp sp : path)
      (now : string) :
  let dot := path_join pp ".auto-claude" in
  preorder P ->
  preserves P (copyDirectoryRecursive fuel sp dot false) ->
  (forall d, preserves P (createDataDirectory (path_join dot d))) ->
  preserves P (copyFileSync (path_join dot ".env.example") (path_join dot ".env")) ->
  (forall c, preserves P (writeFileSync (path_join dot ".version.json") c)) ->
  preserves P (initializeProject fuel pp sp now).
Proof.
  intros dot HP Hc Hd He Hw. unfold initializeProject. fold dot.
  apply preserves_bind; [exact HP | apply preserves_eq; [exact HP | apply existsSync_pure] | intros ex1].
  destruct (negb ex1); [now apply preserves_ret|].
  apply preserves_bind; [exact HP | apply preserves_eq; [exact HP | apply existsSync_pure] | intros ex2].
  destruct (negb ex2); [now apply preserves_ret|].
  apply preserves_bind; [exact HP | apply preserves_eq; [exact HP | apply existsSync_pure] | intros ex3].
  destruct ex3; [now apply preserves_ret|].
  apply preserves_try_catch. unfold initializeBody.
  apply preserves_bind; [exact HP | exact Hc | intros _].
  apply preserves_bind; [exact HP | apply Hd | intros _].
  apply preserves_bind; [exact HP | apply Hd | intros _].
  apply preserves_bind; [exact HP | apply Hd | intros _].
  apply preserves_bind; [exact HP | apply preserves_eq; [exact HP | apply existsSync_pure] | intros a].
  apply preserves_bind; [exact HP | apply preserves_eq; [exact HP | apply existsSync_pure] | intros b].
  apply preserves_bind; [exact HP | now apply preserves_when | intros _].
  apply preserves_bind; [exact HP | apply preserves_eq; [exact HP | apply readSourceVersion_pure] | intros v].
  apply preserves_bind; [exact HP | apply preserves_eq; [exact HP | apply calculateDirectoryHash_pure] | intros h].
  apply preserves_bind; [exact HP | apply Hw | intros _].
  now apply preserves_ret.
Qed.

Lemma preserves_checkVersion (P : FS -> FS -> Prop) (pp sp : path) (now : string) :
  preorder P ->
  (forall c, preserves P
               (writeFileSync (path_join (path_join pp ".auto-claude") ".version.json") c)) ->
  preserves P (checkVersion pp sp now).
Proof.
  intros HP Hw. unfold checkVersion.
  apply preserves_bind; [exact HP | apply preserves_eq; [exact HP | apply existsSync_pure] | intros ex1].
  destruct (negb ex1); [now apply preserves_ret|].
  apply preserves_bind; [exact HP | apply preserves_eq; [exact HP | apply readVersionMetadata_pure] | intros md].
  apply preserves_bind; [exact HP | apply preserves_eq; [exact HP | apply existsSync_pure] | intros ex2].
  apply preserves_bind; [exact HP | |].
  - destruct (negb (truthy (Some md)) && ex2); [|now apply preserves_ret].
    apply preserves_bind; [exact HP | apply preserves_eq; [exact HP | apply readSourceVersion_pure] | intros v].
    apply preserves_bind; [exact HP | apply preserves_eq; [exact HP | apply calculateDirectoryHash_pure] | intros h].
    apply preserves_bind; [exact HP | apply Hw | intros _]. now apply preserves_ret.
  - intros md'. destruct (negb (truthy (Some md'))); [now apply preserves_ret|].
    apply preserves_bind; [exact HP | apply preserves_eq; [exact HP | apply existsSync_pure] | intros ex3].
    destruct (negb ex3); [now apply preserves_ret|].
    apply preserves_bind; [exact HP | apply preserves_eq; [exact HP | apply readSourceVersion_pure] | intros v].
    apply preserves_bind; [exact HP | apply preserves_eq; [exact HP | apply calculateDirectoryHash_pure] | intros h].
    now apply preserves_ret.
Qed.

Lemma copy_targets_inside (d p : path) : copy_targets d p -> inside d p.
Proof. intros [rel [_ ->]]. apply is_prefix_app. Qed.

Lemma apart_not_inside (q d p : path) : apart q d -> inside d p -> ~ is_prefix q p.
Proof.
  intros [H1 H2] Hp H. destruct (is_prefix_both q d p H Hp); contradiction.
Qed.

Lemma initializeProject_frame (fuel : nat) (pp sp : path) (now : string) :
  preserves (frame_outside (inside (path_join pp ".auto-claude")))
            (initializeProject fuel pp sp now).
Proof.
  set (dot := path_join pp ".auto-claude").
  assert (Hin : forall l, inside dot (dot ++ l)) by (intros; apply is_prefix_app).
  apply preserves_initializeProject.
  - apply preorder_frame_outside.
  - eapply preserves_mono; [|apply copy_frame].
    intros fs fs'. apply frame_outside_mono. apply copy_targets_inside.
  - intros d. apply createDataDirectory_preserves.
    + apply preorder_frame_outside.
    + apply mkdirSync_frame. apply Hin.
    + apply writeFileSync_frame. unfold path_join. rewrite <- app_assoc. apply Hin.
  - apply copyFileSync_frame. apply Hin.
  - intros c. apply writeFileSync_frame. apply Hin.
Qed.

Lemma updateProject_frame (fuel : nat) (pp sp : path) (now : string) :
  preserves (frame_outside (inside (path_join pp ".auto-claude")))
            (updateProject fuel pp sp now).
Proof.
  apply preserves_updateProject.
  - apply preorder_frame_outside.
  - eapply preserves_mono; [|apply copy_frame].
    intros fs fs'. apply frame_outside_mono. apply copy_targets_inside.
  - intros c. apply writeFileSync_frame. apply is_prefix_app.
Qed.

Lemma checkVersion_frame (pp sp : path) (now : string) :
  preserves (frame_outside (eq (path_join (path_join pp ".auto-claude") ".version.json")))
            (checkVersion pp sp now).
Proof.
  apply preserves_checkVersion; [apply preorder_frame_outside|].
  intros c. now apply writeFileSync_frame.
Qed.

(** X4: [initializeProject], [updateProject] and [checkVersion] leave every part
    of the file system that is apart from [.auto-claude] as it was: the
    project's own files, and the bundle when it is kept elsewhere. *)
Theorem operations_write_inside_installed
        (fuel : nat) (projectPath sourcePath : path) (now : string) (fs fs' : FS)
        (q : path) :
  apart q (path_join projectPath ".auto-claude") ->
  (forall x, initializeProject fuel projectPath sourcePath now fs = Some (fs', x) ->
             lookup fs' q = lookup fs q)
  /\ (forall x, updateProject fuel projectPath sourcePath now fs = Some (fs', x) ->
                lookup fs' q = lookup fs q)
  /\ (forall x, checkVersion projectPath sourcePath now fs = Some (fs', x) ->
                lookup fs' q = lookup fs q).
Proof.
  intros Ha. repeat split; intros x H.
  - apply (initializeProject_frame _ _ _ _ _ _ _ H). intros p Hp. exact (apart_not_inside q _ p Ha Hp).
  - apply (updateProject_frame _ _ _ _ _ _ _ H). intros p Hp. exact (apart_not_inside q _ p Ha Hp).
  - apply (checkVersion_frame _ _ _ _ _ _ H). intros p <-.
    apply (apart_not_inside q (path_join projectPath ".auto-claude") _ Ha).
    apply is_prefix_app.
Qed.

(** X5: [checkVersion] writes nothing but the sidecar, and nothing at all when
    the project is not initialized, the bundle is missing, or the metadata is
    readable. *)
Theorem checkVersion_writes_only_sidecar
        (projectPath sourcePath : path) (now : string) (fs fs' : FS)
        (x : VersionCheckResult + exn) :
  let installedPath := path_join projectPath ".auto-claude" in
  let sidecar := path_join installedPath ".version.json" in
  checkVersion projectPath sourcePath now fs = Some (fs', x) ->
  (forall q, ~ is_prefix q sidecar -> lookup fs' q = lookup fs q)
  /\ (forall q, q <> sidecar -> stat fs q <> None -> stat fs' q = stat fs q)
  /\ (lookup fs installedPath = None \/ lookup fs sourcePath = None
      \/ truthy (Some (metadata_of fs installedPath)) = true -> fs' = fs).
Proof.
  intros installedPath sidecar H. split; [|split].
  - intros q Hq. apply (checkVersion_frame _ _ _ _ _ _ H). now intros p <-.
  - intros q Hq Hex.
    assert (Hs : preserves (stat_outside (eq sidecar)) (checkVersion projectPath sourcePath now)).
    { apply preserves_checkVersion; [apply preorder_stat_outside|].
      intros c. now apply writeFileSync_stat. }
    apply (Hs _ _ _ H); [exact Hex | congruence].
  - intros Hc. revert H. unfold checkVersion. fold installedPath.
    rewrite (bind_run _ _ _ _ _ (existsSync_run _ _)).
    destruct (lookup fs installedPath) eqn:Ei; cbn [negb].
    2:{ intros H. now injection H as <- _. }
    rewrite (bind_run _ _ _ _ _ (readVersionMetadata_run _ _)).
    rewrite (bind_run _ _ _ _ _ (existsSync_run _ _)).
    assert (Hcond : negb (truthy (Some (metadata_of fs installedPath)))
                    && match lookup fs sourcePath with Some _ => true | None => false end
                    = false).
    { destruct Hc as [Hc|[Hc|Hc]]; [discriminate | | ].
      - rewrite Hc. apply andb_false_r.
      - rewrite Hc. reflexivity. }
    rewrite Hcond.
    rewrite (bind_run _ _ fs fs (metadata_of fs installedPath) eq_refl).
    intros H. symmetry. revert H.
    match goal with |- ?m fs = _ -> _ => assert (Hp : preserves eq m) end.
    { destruct (negb (truthy (Some (metadata_of fs installedPath))));
        [apply preserves_ret, preorder_eq|].
      apply preserves_bind; [apply preorder_eq | apply existsSync_pure | intros ex3].
      destruct (negb ex3); [apply preserves_ret, preorder_eq|].
      apply preserves_bind; [apply preorder_eq | apply readSourceVersion_pure | intros v].
      apply preserves_bind; [apply preorder_eq | apply calculateDirectoryHash_pure | intros h].
      apply preserves_ret, preorder_eq. }
    intros H. exact (Hp _ _ _ H).
Qed.

Lemma initializeBody_installs (fuel : nat) (sp dot : path) (now : string) (fs fs' : FS)
      (r : InitializationResult) (rel : path) (c : string) :
  apart sp dot ->
  initializeBody fuel sp dot now fs = Some (fs', inl r) ->
  Forall (fun n => shouldExclude n = false) rel ->
  stat fs (sp ++ rel) = Some (KFile c) ->
  ~ In rel [[".version.json"]; ["roadmap"; ".gitkeep"]; ["ideation"; ".gitkeep"]] ->
  stat fs' (dot ++ rel) = Some (KFile c).
Proof.
  intros Ha H Hrel Hsrc Hnot.
  apply initializeBody_steps in H.
  destruct H as [f1 [f2 [f3 [f4 [f5 [v [h [Hc [H2 [H3 [H4 [H5 [_ [_ [Hw _]]]]]]]]]]]]]]].
  pose proof (copy_installs _ _ _ _ _ _ _ _ Ha Hc Hrel Hsrc) as H1.
  apply createDataDirectory_ok in H2, H3, H4.
  destruct H2 as [_ [_ S2]]. destruct H3 as [_ [_ S3]]. destruct H4 as [_ [_ S4]].
  assert (Hne : forall l, rel <> l -> dot ++ l <> dot ++ rel).
  { intros l Hl E. apply app_inv_head in E. congruence. }
  assert (Hk : forall f f' l, stat_outside (eq (dot ++ l)) f f' -> rel <> l ->
                              stat f (dot ++ rel) = Some (KFile c) ->
                              stat f' (dot ++ rel) = Some (KFile c)).
  { intros f f' l S Hl E. rewrite <- E. apply S; [rewrite E; discriminate | now apply Hne]. }
  unfold path_join in S2, S3, S4, H5, Hw. rewrite <- !app_assoc in S2, S3, S4. simpl in S2, S3, S4.
  assert (Hexcl : forall n l, shouldExclude n = true -> rel <> n :: l).
  { intros n l Hn E. subst rel. inversion Hrel; congruence. }
  apply (Hk _ _ _ S2) in H1; [|now apply Hexcl].
  apply (Hk _ _ _ S3) in H1; [|intros E; apply Hnot; simpl; auto].
  apply (Hk _ _ _ S4) in H1; [|intros E; apply Hnot; simpl; auto].
  apply (Hk _ _ _ H5) in H1; [|now apply Hexcl].
  rewrite <- H1. apply (write_at_stat_other _ _ _ _ _ Hw).
  apply not_eq_sym, Hne. intros E. apply Hnot. simpl. auto.
Qed.

(** X6: A successful initialize has installed every file of the bundle that lies
    below names that are not excluded, with the bundle's bytes, other than the
    sidecar and the markers of [roadmap] and [ideation], which it writes
    itself. *)
Theorem initializeProject_installs_bundle
        (fuel : nat) (projectPath sourcePath : path) (now : string) (fs fs' : FS)
        (r : InitializationResult) (rel : path) (c : string) :
  let installedPath := path_join projectPath ".auto-claude" in
  apart sourcePath installedPath ->
  initializeProject fuel projectPath sourcePath now fs = Some (fs', inl r) ->
  success r = true ->
  Forall (fun n => shouldExclude n = false) rel ->
  stat fs (sourcePath ++ rel) = Some (KFile c) ->
  ~ In rel [[".version.json"]; ["roadmap"; ".gitkeep"]; ["ideation"; ".gitkeep"]] ->
  stat fs' (installedPath ++ rel) = Some (KFile c).
Proof.
  intros dot Ha H Hs Hrel Hsrc Hnot.
  apply initializeProject_inv in H; [|exact Hs]. destruct H as [_ H].
  exact (initializeBody_installs _ _ _ _ _ _ _ _ _ Ha H Hrel Hsrc Hnot).
Qed.

(** X7: A successful update has brought every file of the bundle that lies below
    names that are not excluded into the installed instance, with the bundle's
    bytes, other than the sidecar. *)
Theorem updateProject_refreshes_files
        (fuel : nat) (projectPath sourcePath : path) (now : string) (fs fs' : FS)
        (r : InitializationResult) (rel : path) (c : string) :
  let installedPath := path_join projectPath ".auto-claude" in
  apart sourcePath installedPath ->
  updateProject fuel projectPath sourcePath now fs = Some (fs', inl r) ->
  success r = true ->
  Forall (fun n => shouldExclude n = false) rel ->
  stat fs (sourcePath ++ rel) = Some (KFile c) ->
  rel <> [".version.json"] ->
  stat fs' (installedPath ++ rel) = Some (KFile c).
Proof.
  intros dot Ha H Hs Hrel Hsrc Hnot.
  apply updateProject_inv in H; [|exact Hs]. destruct H as [_ H].
  apply updateBody_steps in H. fold dot in H.
  destruct H as [f1 [v [h [Hc [Hw _]]]]].
  pose proof (copy_installs _ _ _ _ _ _ _ _ Ha Hc Hrel Hsrc) as H1.
  rewrite <- H1. apply (write_at_stat_other _ _ _ _ _ Hw).
  unfold path_join. intros E. apply app_inv_head in E. contradiction.
Qed.

End Lifecycle.

Section Robustness.

Context {RT : Runtime}.

Lemma bind_throw {A B : Type} (m : M A) (k : A -> M B) (fs fs1 : FS) (e : exn) :
  m fs = Some (fs1, inr e) -> bind m k fs = Some (fs1, inr e).
Proof. unfold bind. now intros ->. Qed.

Lemma lookup_below_file (fs : FS) (p : path) (c n : string) (r : path) :
  lookup fs p = Some (File c) -> lookup fs (p ++ n :: r) = None.
Proof. intros H. rewrite lookup_app, H. reflexivity. Qed.

Lemma stat_file (fs : FS) (p : path) (c : string) :
  stat fs p = Some (KFile c) <-> lookup fs p = Some (File c).
Proof.
  unfold stat. destruct (lookup fs p) as [[k|es]|]; split; intros H; try discriminate;
    injection H as ->; reflexivity.
Qed.

Lemma write_at_keeps_file (fs fs' : FS) (p q : path) (c k : string) :
  write_at fs p c = Ok fs' -> lookup fs q = Some (File k) ->
  exists k', lookup fs' q = Some (File k').
Proof.
  intros Hw Hq. destruct (list_eq_dec string_dec q p) as [->|Hne].
  - exists c. apply (write_at_lookup _ _ _ _ Hw).
  - exists k. apply stat_file. rewrite (write_at_stat_other _ _ _ _ _ Hw Hne).
    now apply stat_file.
Qed.

Lemma readSourceVersion_file_source (sp : path) (fs : FS) (c : string) :
  lookup fs sp = Some (File c) ->
  readSourceVersion sp fs = Some (fs, inl "0.0.0").
Proof.
  intros H. unfold readSourceVersion.
  rewrite (bind_run _ _ _ _ _ (existsSync_run _ _)).
  unfold path_join. now rewrite (lookup_below_file _ _ _ _ _ H).
Qed.

Lemma calculateDirectoryHash_file (p : path) (fs : FS) (c : string) :
  lookup fs p = Some (File c) ->
  calculateDirectoryHash p fs = Some (fs, inr (mkExn ENOTDIR "scandir" p)).
Proof. intros H. unfold calculateDirectoryHash. now rewrite H. Qed.

(** X8: [checkVersion] has no [try]: with the project initialized and the bundle
    path naming a regular file, every call throws. *)
Theorem checkVersion_throws_on_file_source
        (projectPath sourcePath : path) (now : string) (fs : FS) (c : string) :
  lookup fs (path_join projectPath ".auto-claude") <> None ->
  lookup fs sourcePath = Some (File c) ->
  exists fs' e, checkVersion projectPath sourcePath now fs = Some (fs', inr e).
Proof.
  intros Hdot Hsp. unfold checkVersion.
  set (dot := path_join projectPath ".auto-claude") in *.
  rewrite (bind_run _ _ _ _ _ (existsSync_run _ _)).
  destruct (lookup fs dot) as [t|] eqn:Ed; [|contradiction]. cbn [negb].
  rewrite (bind_run _ _ _ _ _ (readVersionMetadata_run _ _)).
  rewrite (bind_run _ _ _ _ _ (existsSync_run _ _)), Hsp.
  assert (Htail : forall fs1 md c1,
             lookup fs1 sourcePath = Some (File c1) -> truthy (Some md) = true ->
             exists e,
               (if negb (truthy (Some md))
                then ret (mkCheck true None None false (Some dot))
                else
                  sourceExists' <- existsSync sourcePath ;;
                  if negb sourceExists'
                  then ret (mkCheck true (js_get "version" md) None false (Some dot))
                  else
                    sourceVersion <- readSourceVersion sourcePath ;;
                    sourceHash <- calculateDirectoryHash sourcePath ;;
                    ret (mkCheck true (js_get "version" md) (Some sourceVersion)
                           (strict_neq (js_get "sourceHash" md) sourceHash
                            && strict_neq (js_get "version" md) sourceVersion)
                           (Some dot))) fs1
               = Some (fs1, inr e)).
  { intros fs1 md c1 H1 Ht. rewrite Ht. cbn [negb].
    rewrite (bind_run _ _ _ _ _ (existsSync_run _ _)), H1. cbn [negb].
    rewrite (bind_run _ _ _ _ _ (readSourceVersion_file_source _ _ _ H1)).
    rewrite (bind_throw _ _ _ _ _ (calculateDirectoryHash_file _ _ _ H1)). eauto. }
  destruct (truthy (Some (metadata_of fs dot))) eqn:Ht; cbn [negb andb].
  - rewrite (bind_run _ _ fs fs (metadata_of fs dot) eq_refl).
    destruct (Htail fs _ c Hsp Ht) as [e He]. rewrite He. eauto.
  - destruct t as [k|es].
    + erewrite bind_throw; [eauto|].
      rewrite (bind_run _ _ _ _ _ (readSourceVersion_file_source _ _ _ Hsp)).
      now rewrite (bind_throw _ _ _ _ _ (calculateDirectoryHash_file _ _ _ Ed)).
    + set (syn := mkMetadata "0.0.0" (hash_of fs dot) (path_str sourcePath) (JString now) now).
      destruct (write_at fs (path_join dot ".version.json")
                         (JSON_stringify (metadata_json syn))) as [fs1|er] eqn:Ew.
      * rewrite (bind_run _ _ fs fs1 (metadata_json syn)).
        2:{ rewrite (bind_run _ _ _ _ _ (readSourceVersion_file_source _ _ _ Hsp)).
            rewrite (bind_run _ _ _ _ _ (calculateDirectoryHash_run _ _ _ Ed)).
            fold syn. unfold writeVersionMetadata, writeFileSync at 1, bind at 1.
            now rewrite Ew. }
        destruct (write_at_keeps_file _ _ _ _ _ _ Ew Hsp) as [c1 H1].
        destruct (Htail fs1 (metadata_json syn) c1 H1 eq_refl) as [e He].
        rewrite He. eauto.
      * erewrite bind_throw; [eauto|].
        rewrite (bind_run _ _ _ _ _ (readSourceVersion_file_source _ _ _ Hsp)).
        rewrite (bind_run _ _ _ _ _ (calculateDirectoryHash_run _ _ _ Ed)).
        fold syn. unfold writeVersionMetadata, writeFileSync at 1, bind at 1.
        now rewrite Ew.
Qed.

End Robustness.

Section Results.

Context {RT : Runtime}.

Lemma try_catch_inv {A : Type} (m : M A) (h : exn -> A) (fs fs' : FS) (x : A + exn) :
  try_catch m h fs = Some (fs', x) ->
  exists a, x = inl a
            /\ (m fs = Some (fs', inl a) \/ exists e, m fs = Some (fs', inr e) /\ a = h e).
Proof.
  unfold try_catch. destruct (m fs) as [[f [a|e]]|]; intros H; try discriminate.
  - injection H as <- <-. exists a. split; [reflexivity | now left].
  - injection H as <- <-. exists (h e). split; [reflexivity | right; now exists e].
Qed.

Lemma failed_mkInit (msg : string) : failed (mkInit false (Some msg) None None).
Proof. repeat split. now exists msg. Qed.

(** X9: [initializeProject] and [updateProject] never throw: whatever goes wrong
    inside them comes back as a failure that carries a message, and a result
    is either a completed one, with a version, or a failed one, with a message
    and no version. *)
Theorem lifecycle_never_throws
        (fuel : nat) (projectPath sourcePath : path) (now : string) (fs fs' : FS)
        (x : InitializationResult + exn) :
  (initializeProject fuel projectPath sourcePath now fs = Some (fs', x) ->
   exists r, x = inl r /\ (completed false r \/ failed r))
  /\ (updateProject fuel projectPath sourcePath now fs = Some (fs', x) ->
      exists r, x = inl r /\ (completed true r \/ failed r)).
Proof.
  split; intros H.
  - unfold initializeProject in H.
    rewrite (bind_run _ _ _ _ _ (existsSync_run _ _)) in H.
    destruct (negb _) in H.
    { injection H as _ <-. eexists. split; [reflexivity | right; apply failed_mkInit]. }
    rewrite (bind_run _ _ _ _ _ (existsSync_run _ _)) in H.
    destruct (negb _) in H.
    { injection H as _ <-. eexists. split; [reflexivity | right; apply failed_mkInit]. }
    rewrite (bind_run _ _ _ _ _ (existsSync_run _ _)) in H.
    destruct (match lookup fs (path_join projectPath ".auto-claude") with
              | Some _ => true | None => false end) in H.
    { injection H as _ <-. eexists. split; [reflexivity | right; apply failed_mkInit]. }
    apply try_catch_inv in H. destruct H as [r [-> [H|[e [_ ->]]]]]; exists r || eexists.
    + split; [reflexivity|]. left. apply initializeBody_steps in H.
      destruct H as [f1 [f2 [f3 [f4 [f5 [v [h [_ [_ [_ [_ [_ [_ [_ [_ ->]]]]]]]]]]]]]]].
      repeat split. now exists v.
    + split; [reflexivity | right; apply failed_mkInit].
  - unfold updateProject in H.
    rewrite (bind_run _ _ _ _ _ (existsSync_run _ _)) in H.
    destruct (negb _) in H.
    { injection H as _ <-. eexists. split; [reflexivity | right; apply failed_mkInit]. }
    rewrite (bind_run _ _ _ _ _ (existsSync_run _ _)) in H.
    destruct (negb _) in H.
    { injection H as _ <-. eexists. split; [reflexivity | right; apply failed_mkInit]. }
    apply try_catch_inv in H. destruct H as [r [-> [H|[e [_ ->]]]]]; exists r || eexists.
    + split; [reflexivity|]. left. apply updateBody_steps in H.
      destruct H as [f1 [v [h [_ [_ ->]]]]]. repeat split. now exists v.
    + split; [reflexivity | right; apply failed_mkInit].
Qed.

Lemma getAutoBuildPath_run (pp : path) (fs : FS) :
  getAutoBuildPath pp fs
  = Some (fs, inl (match lookup fs (path_join pp ".auto-claude") with
                   | Some _ => Some ".auto-claude"
                   | None => None
                   end)).
Proof.
  unfold getAutoBuildPath. rewrite (bind_run _ _ _ _ _ (existsSync_run _ _)).
  now destruct (lookup fs (path_join pp ".auto-claude")).
Qed.

Lemma checkVersion_isInitialized (pp sp : path) (now : string) (fs fs' : FS)
      (r : VersionCheckResult) :
  checkVersion pp sp now fs = Some (fs', inl r) ->
  isInitialized r = match lookup fs (path_join pp ".auto-claude") with
                    | Some _ => true
                    | None => false
                    end.
Proof.
  unfold checkVersion. rewrite (bind_run _ _ _ _ _ (existsSync_run _ _)).
  destruct (lookup fs (path_join pp ".auto-claude")) eqn:Ei; cbn [negb].
  2:{ intros H. now injection H as _ <-. }
  match goal with
  | |- ?m fs = _ -> _ =>
      assert (Hr : returns_with (fun r => isInitialized r = true) m)
  end.
  { repeat first
      [ apply returns_ret; reflexivity
      | apply returns_bind; intros ?
      | apply returns_if ]. }
  intros H. exact (Hr _ _ _ H).
Qed.

(** X10: [getAutoBuildPath] answers ['.auto-claude'] exactly for the projects
    [checkVersion] reports as initialized; a successful [initializeProject]
    starts where it answers [null] and ends where it answers
    ['.auto-claude'], and a successful [updateProject] starts and ends where
    it answers ['.auto-claude']. The source folder [auto-claude] of the
    project plays no part. *)
Theorem getAutoBuildPath_tracks_initialization
        (fuel : nat) (projectPath sourcePath : path) (now : string) (fs fs' : FS) :
  let absent f := getAutoBuildPath projectPath f = Some (f, inl None) in
  let present f := getAutoBuildPath projectPath f = Some (f, inl (Some ".auto-claude")) in
  (absent fs \/ present fs)
  /\ (forall r, checkVersion projectPath sourcePath now fs = Some (fs', inl r) ->
                (isInitialized r = true <-> present fs))
  /\ (forall r, initializeProject fuel projectPath sourcePath now fs = Some (fs', inl r) ->
                success r = true -> absent fs /\ present fs')
  /\ (forall r, updateProject fuel projectPath sourcePath now fs = Some (fs', inl r) ->
                success r = true -> present fs /\ present fs').
Proof.
  intros absent present. unfold absent, present. rewrite !getAutoBuildPath_run.
  repeat split.
  - destruct (lookup fs (path_join projectPath ".auto-claude")); auto.
  - intros Hi. rewrite (checkVersion_isInitialized _ _ _ _ _ _ H) in Hi.
    now destruct (lookup fs (path_join projectPath ".auto-claude")).
  - intros Hp. rewrite (checkVersion_isInitialized _ _ _ _ _ _ H).
    destruct (lookup fs (path_join projectPath ".auto-claude")); [reflexivity | discriminate].
  - apply initializeProject_inv in H; [|assumption]. destruct H as [-> _]. reflexivity.
  - apply initializeProject_inv in H; [|assumption]. destruct H as [_ H].
    apply initializeBody_steps in H.
    destruct H as [f1 [f2 [f3 [f4 [f5 [v [h [_ [_ [_ [_ [_ [_ [_ [Hw _]]]]]]]]]]]]]]].
    apply write_at_parent, stat_dir in Hw. destruct Hw as [es ->]. reflexivity.
  - apply updateProject_inv in H; [|assumption]. destruct H as [H _].
    destruct (lookup fs (path_join projectPath ".auto-claude")); [reflexivity | contradiction].
  - apply updateProject_inv in H; [|assumption]. destruct H as [_ H].
    apply updateBody_steps in H. destruct H as [f1 [v [h [_ [Hw _]]]]].
    apply write_at_parent, stat_dir in Hw. destruct Hw as [es ->]. reflexivity.
Qed.

End Results.

Section Environment.

Context {RT : Runtime}.

Lemma getLocalSourcePath_run (pp : path) (fs : FS) :
  getLocalSourcePath pp fs
  = Some (fs, inl (match lookup fs (path_join (path_join pp "auto-claude") "VERSION") with
                   | Some _ => Some (path_join pp "auto-claude")
                   | None => None
                   end)).
Proof.
  unfold getLocalSourcePath, hasLocalSource.
  rewrite (bind_run _ _ fs fs
             (match lookup fs (path_join (path_join pp "auto-claude") "VERSION") with
              | Some _ => true | None => false end)).
  - now destruct (lookup fs (path_join (path_join pp "auto-claude") "VERSION")).
  - rewrite (bind_run _ _ _ _ _ (existsSync_run _ _)).
    destruct (lookup fs (path_join pp "auto-claude")) eqn:E; [apply existsSync_run|].
    assert (E' : lookup fs (path_join (path_join pp "auto-claude") "VERSION") = None).
    { unfold path_join at 1. rewrite lookup_app, E. reflexivity. }
    now rewrite E'.
Qed.

(** X11: [hasLocalSource] and [getLocalSourcePath] look at nothing but the version
    marker of the project's own [auto-claude] folder: the local source path is
    returned exactly when [auto-claude/VERSION] exists, whether or not the
    project is initialized, and the file system is left as it was. *)
Theorem getLocalSourcePath_iff_version_marker (projectPath : path) (fs : FS) :
  let marker := path_join (path_join projectPath "auto-claude") "VERSION" in
  exists found o,
    hasLocalSource projectPath fs = Some (fs, inl found)
    /\ getLocalSourcePath projectPath fs = Some (fs, inl o)
    /\ (found = true <-> lookup fs marker <> None)
    /\ (o = Some (path_join projectPath "auto-claude") <-> lookup fs marker <> None)
    /\ (o = None <-> lookup fs marker = None).
Proof.
  intros marker. pose proof (getLocalSourcePath_run projectPath fs) as Hg.
  fold marker in Hg. unfold getLocalSourcePath in Hg.
  destruct (hasLocalSource projectPath fs) as [[f [found|e]]|] eqn:Eh;
    unfold bind in Hg; rewrite Eh in Hg; try discriminate.
  assert (f = fs).
  { revert Eh. unfold hasLocalSource.
    rewrite (bind_run _ _ _ _ _ (existsSync_run _ _)).
    destruct (lookup fs (path_join projectPath "auto-claude"));
      intros H; now injection H as <-. }
  subst f. exists found. eexists. split; [reflexivity|].
  split; [unfold getLocalSourcePath, bind; rewrite Eh; exact Hg|].
  destruct (lookup fs marker) eqn:Em; destruct found; simpl in Hg; try discriminate;
    repeat split; intros; try congruence; try discriminate.
Qed.

Lemma sibling_not_inside (dot : path) (n m : string) (p : path) :
  n <> m -> inside (path_join dot m) p -> ~ is_prefix (path_join dot n) p.
Proof.
  unfold inside, path_join. intros Hne [r ->] [r' E].
  rewrite <- !app_assoc in E. apply app_inv_head in E. simpl in E. congruence.
Qed.

Lemma createDataDirectory_frame (d : path) :
  preserves (frame_outside (inside d)) (createDataDirectory d).
Proof.
  apply createDataDirectory_preserves.
  - apply preorder_frame_outside.
  - apply mkdirSync_frame. apply is_prefix_refl.
  - apply writeFileSync_frame. apply is_prefix_app.
Qed.

Lemma createDataDirectory_sibling (dot : path) (m n : string) (fs fs' : FS)
      (x : unit + exn) :
  createDataDirectory (path_join dot m) fs = Some (fs', x) -> n <> m ->
  lookup fs' (path_join dot n) = lookup fs (path_join dot n).
Proof.
  intros H Hne. apply (createDataDirectory_frame _ _ _ _ H).
  intros p Hp. now apply (sibling_not_inside dot n m).
Qed.

Lemma write_at_sibling (dot : path) (m n : string) (c : string) (fs fs' : FS) :
  write_at fs (path_join dot m) c = Ok fs' -> n <> m ->
  lookup fs' (path_join dot n) = lookup fs (path_join dot n).
Proof.
  intros H Hne. apply (write_at_lookup_other _ _ _ _ _ H).
  apply (sibling_not_inside dot n m _ Hne). apply is_prefix_refl.
Qed.

(** The [.env] of a fresh instance is the copy of its [.env.example], or is
    not there. *)
Lemma initializeBody_env (fuel : nat) (sp dot : path) (now : string) (fs fs' : FS)
      (r : InitializationResult) :
  initializeBody fuel sp dot now fs = Some (fs', inl r) ->
  lookup fs dot = None ->
  (lookup fs' (path_join dot ".env.example") = None
   /\ lookup fs' (path_join dot ".env") = None)
  \/ exists c, lookup fs' (path_join dot ".env.example") = Some (File c)
               /\ lookup fs' (path_join dot ".env") = Some (File c).
Proof.
  intros H Hdot. unfold initializeBody in H.
  apply bind_inl_inv in H. destruct H as [f1 [[] [H1 H]]].
  apply bind_inl_inv in H. destruct H as [f2 [[] [H2 H]]].
  apply bind_inl_inv in H. destruct H as [f3 [[] [H3 H]]].
  apply bind_inl_inv in H. destruct H as [f4 [[] [H4 H]]].
  rewrite (bind_run _ _ _ _ _ (existsSync_run _ _)) in H.
  rewrite (bind_run _ _ _ _ _ (existsSync_run _ _)) in H.
  assert (E4 : lookup f4 (path_join dot ".env") = None).
  { rewrite (createDataDirectory_sibling dot "ideation" ".env" _ _ _ H4) by discriminate.
    rewrite (createDataDirectory_sibling dot "roadmap" ".env" _ _ _ H3) by discriminate.
    rewrite (createDataDirectory_sibling dot "specs" ".env" _ _ _ H2) by discriminate.
    assert (E : lookup f1 (dot ++ [] ++ ".env" :: []) = lookup fs (dot ++ [] ++ ".env" :: [])).
    { apply (copy_frame _ _ _ _ _ _ _ H1). intros p Hp.
      now apply excluded_not_target. }
    simpl in E. unfold path_join. rewrite E, lookup_app, Hdot. reflexivity. }
  rewrite E4 in H. rewrite andb_true_r in H.
  apply bind_inl_inv in H. destruct H as [f5 [[] [H5 H]]].
  apply bind_inl_inv in H. destruct H as [f6 [v [Hv H]]].
  pose proof (readSourceVersion_pure _ _ _ _ Hv) as E6. 
  apply bind_inl_inv in H. destruct H as [f7 [h [Hh H]]].
  pose proof (calculateDirectoryHash_pure _ _ _ _ Hh) as E7.
  apply bind_inl_inv in H. destruct H as [f8 [[] [Hw H]]].
  injection H as <- _. subst f7 f6.
  apply writeFileSync_ok in Hw.
  rewrite !(write_at_sibling dot ".version.json" _ _ _ _ Hw) by discriminate.
  destruct (lookup f4 (path_join dot ".env.example")) as [t|] eqn:Ex.
  - simpl in H5. apply copyFileSync_ok in H5. destruct H5 as [c [Hc Hw5]].
    right. exists c. split.
    + rewrite (write_at_sibling dot ".env" _ _ _ _ Hw5) by discriminate.
      congruence.
    + apply (write_at_lookup _ _ _ _ Hw5).
  - simpl in H5. injection H5 as <-. left. now split.
Qed.

Lemma hasCustomEnv_same (d : path) (fs : FS) :
  (lookup fs (path_join d ".env") = None
   \/ exists c, lookup fs (path_join d ".env.example") = Some (File c)
                /\ lookup fs (path_join d ".env") = Some (File c)) ->
  hasCustomEnv d fs = Some (fs, inl false).
Proof.
  intros H. unfold hasCustomEnv. rewrite (bind_run _ _ _ _ _ (existsSync_run _ _)).
  destruct H as [->|[c [He Hc]]]; [reflexivity|].
  rewrite Hc. cbn [negb]. rewrite (bind_run _ _ _ _ _ (existsSync_run _ _)), He. cbn [negb].
  rewrite (bind_run _ _ fs fs c) by (unfold readFileSync; now rewrite Hc).
  rewrite (bind_run _ _ fs fs c) by (unfold readFileSync; now rewrite He).
  unfold ret. now rewrite String.eqb_refl.
Qed.

End Environment.

Section AfterTheFact.

Context {RT : Runtime}.

(** X12: A fresh instance never counts as customised: after a successful
    initialize [hasCustomEnv] answers [false], and when the bundle ships an
    [.env.example] the instance's [.env] has its content (the bundle's own
    [.env] is never installed). *)
Theorem initializeProject_env_from_example
        (fuel : nat) (projectPath sourcePath : path) (now : string) (fs fs' : FS)
        (r : InitializationResult) :
  let installedPath := path_join projectPath ".auto-claude" in
  initializeProject fuel projectPath sourcePath now fs = Some (fs', inl r) ->
  success r = true ->
  hasCustomEnv installedPath fs' = Some (fs', inl false)
  /\ (apart sourcePath installedPath ->
      forall c, stat fs (sourcePath ++ [".env.example"]) = Some (KFile c) ->
                stat fs' (installedPath ++ [".env"]) = Some (KFile c)).
Proof.
  intros dot H Hs. apply initializeProject_inv in H; [|exact Hs].
  destruct H as [Hdot H]. fold dot in Hdot, H.
  pose proof (initializeBody_env _ _ _ _ _ _ _ H Hdot) as He.
  split.
  - apply hasCustomEnv_same. destruct He as [[_ He]|He]; [now left | now right].
  - intros Ha c Hc.
    assert (Hex : stat fs' (dot ++ [".env.example"]) = Some (KFile c)).
    { apply (initializeBody_installs _ _ _ _ _ _ _ [".env.example"] c Ha H).
      - constructor; [reflexivity | constructor].
      - exact Hc.
      - simpl. intros [E|[E|[E|[]]]]; discriminate. }
    apply stat_file in Hex. apply stat_file. unfold path_join in He.
    destruct He as [[He _]|[c' [He He']]]; congruence.
Qed.

Lemma copy_src_dir (fuel : nat) (src dest : path) (u : bool) (fs fs' : FS) :
  copyDirectoryRecursive fuel src dest u fs = Some (fs', inl tt) ->
  ~ is_prefix src dest ->
  exists es, lookup fs src = Some (Dir es).
Proof.
  destruct fuel as [|fuel]; [discriminate|]. intros H Hn. simpl in H.
  rewrite (bind_run _ _ _ _ _ (existsSync_run _ _)) in H.
  apply bind_inl_inv in H. destruct H as [f1 [[] [Hm H]]].
  apply bind_inl_inv in H. destruct H as [f2 [entries [Hr _]]].
  assert (E : lookup f1 src = lookup fs src).
  { destruct (lookup fs dest); simpl in Hm.
    - now injection Hm as <-.
    - unfold mkdirSync_recursive in Hm. destruct (mkdirp_at fs dest) eqn:Em; [|discriminate].
      injection Hm as <-. now apply (mkdirp_at_lookup_other _ _ _ _ Em). }
  unfold readdirSync in Hr. rewrite E in Hr.
  destruct (lookup fs src) as [[k|es]|]; try discriminate. now exists es.
Qed.

Lemma readSourceVersion_inl (sp : path) (fs fs' : FS) (v : string) :
  readSourceVersion sp fs = Some (fs', inl v) ->
  v = version_of fs sp /\ forall es, lookup fs (path_join sp "VERSION") <> Some (Dir es).
Proof.
  unfold readSourceVersion, version_of.
  rewrite (bind_run _ _ _ _ _ (existsSync_run _ _)).
  destruct (lookup fs (path_join sp "VERSION")) as [[c|es]|] eqn:E.
  - rewrite (bind_run _ _ fs fs c) by (unfold readFileSync; now rewrite E).
    intros H. injection H as _ <-. split; [reflexivity | discriminate].
  - unfold bind, readFileSync. rewrite E. discriminate.
  - intros H. injection H as _ <-. split; [reflexivity | discriminate].
Qed.

Lemma calculateDirectoryHash_inl (p : path) (fs fs' : FS) (h : string) :
  calculateDirectoryHash p fs = Some (fs', inl h) -> h = hash_of fs p.
Proof.
  unfold calculateDirectoryHash, hash_of.
  destruct (lookup fs p) as [[c|es]|]; intros H; try discriminate; now injection H as _ <-.
Qed.

Lemma observations_frame (fs fs' : FS) (sp : path) :
  lookup fs' sp = lookup fs sp ->
  version_of fs' sp = version_of fs sp /\ hash_of fs' sp = hash_of fs sp
  /\ lookup fs' (path_join sp "VERSION") = lookup fs (path_join sp "VERSION").
Proof.
  intros E. unfold version_of, hash_of, path_join. rewrite !lookup_app, E. auto.
Qed.

Lemma apart_sidecar (sp dot : path) (n : string) :
  apart sp dot -> ~ is_prefix sp (path_join dot n).
Proof.
  intros [H1 H2] H.
  destruct (is_prefix_both sp dot (path_join dot n) H (is_prefix_app dot [n])); contradiction.
Qed.

(** [checkVersion] on a state whose sidecar records the bundle as it is. *)
Lemma checkVersion_in_step (pp sp : path) (now : string) (fs : FS)
      (md : VersionMetadata) (es : list (string * node)) :
  let dot := path_join pp ".auto-claude" in
  lookup fs (path_join dot ".version.json")
  = Some (File (JSON_stringify (metadata_json md))) ->
  JSON_parse (JSON_stringify (metadata_json md)) = Some (metadata_json md) ->
  version md = version_of fs sp ->
  sourceHash md = hash_of fs sp ->
  lookup fs sp = Some (Dir es) ->
  (forall es', lookup fs (path_join sp "VERSION") <> Some (Dir es')) ->
  checkVersion pp sp now fs
  = Some (fs, inl (mkCheck true (Some (JString (version_of fs sp)))
                     (Some (version_of fs sp)) false (Some dot))).
Proof.
  intros dot Hside Hrt Hv Hh Hsp Hver.
  assert (Hm : metadata_of fs dot = metadata_json md).
  { unfold metadata_of. now rewrite Hside, Hrt. }
  rewrite (checkVersion_tracked fs pp sp now es); fold dot.
  - rewrite Hm. cbn [metadata_json js_get assoc]. simpl.
    rewrite Hv, Hh. unfold strict_neq. rewrite !String.eqb_refl. reflexivity.
  - unfold path_join in Hside. rewrite lookup_app in Hside.
    destruct (lookup fs dot); [discriminate | discriminate Hside].
  - now rewrite Hm.
  - exact Hsp.
  - exact Hver.
Qed.

(** X13: Right after a successful initialize, [checkVersion] against the same
    bundle reports the version just installed as both current and source
    version, no update available, and writes nothing. *)
Theorem checkVersion_after_initialize
        (fuel : nat) (projectPath sourcePath : path) (now now' : string) (fs fs' : FS)
        (r : InitializationResult) :
  let installedPath := path_join projectPath ".auto-claude" in
  let metadata :=
    metadata_json (mkMetadata (version_of fs sourcePath) (hash_of fs sourcePath)
                              (path_str sourcePath) (JString now) now) in
  apart sourcePath installedPath ->
  initializeProject fuel projectPath sourcePath now fs = Some (fs', inl r) ->
  success r = true ->
  JSON_parse (JSON_stringify metadata) = Some metadata ->
  init_version r = Some (version_of fs sourcePath)
  /\ checkVersion projectPath sourcePath now' fs'
     = Some (fs', inl (mkCheck true (Some (JString (version_of fs sourcePath)))
                         (Some (version_of fs sourcePath)) false (Some installedPath))).
Proof.
  intros dot metadata Ha H Hs Hrt.
  assert (Hf : lookup fs' sourcePath = lookup fs sourcePath).
  { apply (initializeProject_frame _ _ _ _ _ _ _ H). intros p Hp.
    exact (apart_not_inside _ _ p Ha Hp). }
  apply initializeProject_inv in H; [|exact Hs]. destruct H as [_ H].
  apply initializeBody_steps in H. fold dot in H.
  destruct H as [f1 [f2 [f3 [f4 [f5 [v [h [Hc [_ [_ [_ [_ [Hv [Hh [Hw ->]]]]]]]]]]]]]]].
  destruct (copy_src_dir _ _ _ _ _ _ Hc (proj1 Ha)) as [es Hes].
  assert (H5 : lookup fs' sourcePath = lookup f5 sourcePath).
  { apply (write_at_lookup_other _ _ _ _ _ Hw). now apply apart_sidecar. }
  destruct (observations_frame _ _ _ Hf) as [Ev [Eh EV]].
  destruct (observations_frame _ _ _ H5) as [Ev5 [Eh5 EV5]].
  apply readSourceVersion_inl in Hv. destruct Hv as [-> Hver].
  apply calculateDirectoryHash_inl in Hh. subst h.
  rewrite <- Ev5, Ev. split; [reflexivity|].
  rewrite <- Ev.
  apply (checkVersion_in_step projectPath sourcePath now' fs'
           (mkMetadata (version_of fs sourcePath) (hash_of fs sourcePath)
                       (path_str sourcePath) (JString now) now) es).
  - fold dot. rewrite <- Ev, Ev5, <- Eh, Eh5. apply (write_at_lookup _ _ _ _ Hw).
  - exact Hrt.
  - simpl. now rewrite Ev.
  - simpl. now rewrite Eh.
  - now rewrite Hf.
  - intros es'. rewrite EV5. apply Hver.
Qed.

Lemma updateBody_steps_full (fuel : nat) (sp dot : path) (now : string)
      (fs fs' : FS) (r : InitializationResult) :
  updateBody fuel sp dot now fs = Some (fs', inl r) ->
  exists fs1,
    copyDirectoryRecursive fuel sp dot true fs = Some (fs1, inl tt)
    /\ (forall es, lookup fs1 (path_join sp "VERSION") <> Some (Dir es))
    /\ write_at fs1 (path_join dot ".version.json")
         (JSON_stringify (metadata_json
            (mkMetadata (version_of fs1 sp) (hash_of fs1 sp) (path_str sp)
               (js_or (js_get "initializedAt" (metadata_of fs1 dot)) (JString now)) now)))
       = Ok fs'
    /\ r = mkInit true None (Some (version_of fs1 sp)) (Some true).
Proof.
  intros H. unfold updateBody in H.
  apply bind_inl_inv in H. destruct H as [f1 [[] [H1 H]]].
  apply bind_inl_inv in H. destruct H as [f2 [v [Hv H]]].
  pose proof (readSourceVersion_pure _ _ _ _ Hv). subst f2.
  apply bind_inl_inv in H. destruct H as [f3 [h [Hh H]]].
  pose proof (calculateDirectoryHash_pure _ _ _ _ Hh). subst f3.
  rewrite (bind_run _ _ _ _ _ (readVersionMetadata_run _ _)) in H.
  apply bind_inl_inv in H. destruct H as [f4 [[] [Hw H]]].
  injection H as <- <-. apply writeFileSync_ok in Hw.
  apply readSourceVersion_inl in Hv. destruct Hv as [-> Hver].
  apply calculateDirectoryHash_inl in Hh. subst h.
  exists f1. auto.
Qed.

(** X14: Right after a successful update, [checkVersion] against the same bundle
    reports the bundle's version as current, no update available, and writes
    nothing. *)
Theorem checkVersion_after_update
        (fuel : nat) (projectPath sourcePath : path) (now now' : string) (fs fs' : FS)
        (r : InitializationResult) :
  let installedPath := path_join projectPath ".auto-claude" in
  let metadata :=
    metadata_json
      (mkMetadata (version_of fs sourcePath) (hash_of fs sourcePath) (path_str sourcePath)
         (js_or (js_get "initializedAt" (metadata_of fs installedPath)) (JString now)) now) in
  apart sourcePath installedPath ->
  lookup fs (path_join sourcePath ".version.json") = None ->
  updateProject fuel projectPath sourcePath now fs = Some (fs', inl r) ->
  success r = true ->
  JSON_parse (JSON_stringify metadata) = Some metadata ->
  init_version r = Some (version_of fs sourcePath)
  /\ checkVersion projectPath sourcePath now' fs'
     = Some (fs', inl (mkCheck true (Some (JString (version_of fs sourcePath)))
                         (Some (version_of fs sourcePath)) false (Some installedPath))).
Proof.
  intros dot metadata Ha Hnone H Hs Hrt.
  assert (Hf : lookup fs' sourcePath = lookup fs sourcePath).
  { apply (updateProject_frame _ _ _ _ _ _ _ H). intros p Hp.
    exact (apart_not_inside _ _ p Ha Hp). }
  apply updateProject_inv in H; [|exact Hs]. destruct H as [Hinst H]. fold dot in Hinst, H.
  apply updateBody_steps_full in H. destruct H as [f1 [Hc [Hver [Hw ->]]]].
  destruct (copy_src_dir _ _ _ _ _ _ Hc (proj1 Ha)) as [es Hes].
  assert (H1 : lookup fs' sourcePath = lookup f1 sourcePath).
  { apply (write_at_lookup_other _ _ _ _ _ Hw). now apply apart_sidecar. }
  assert (Hm : metadata_of f1 dot = metadata_of fs dot).
  { unfold metadata_of, path_join.
    now rewrite (copy_unlisted _ _ _ _ _ _ _ ".version.json" [] Hc Hinst Hnone). }
  destruct (observations_frame _ _ _ Hf) as [Ev [Eh EV]].
  destruct (observations_frame _ _ _ H1) as [Ev1 [Eh1 EV1]].
  rewrite Hm, <- Ev1, <- Eh1, Ev, Eh in Hw.
  rewrite <- Ev1, Ev. split; [reflexivity|].
  rewrite <- Ev.
  apply (checkVersion_in_step projectPath sourcePath now' fs'
           (mkMetadata (version_of fs sourcePath) (hash_of fs sourcePath) (path_str sourcePath)
              (js_or (js_get "initializedAt" (metadata_of fs dot)) (JString now)) now) es).
  - fold dot. apply (write_at_lookup _ _ _ _ Hw).
  - exact Hrt.
  - simpl. now rewrite Ev.
  - simpl. now rewrite Eh.
  - now rewrite Hf.
  - intros es'. rewrite EV1. apply Hver.
Qed.

End AfterTheFact.

Section Fingerprint.

Context {RT : Runtime}.

Lemma shipped_entries_nil : shipped_entries [] = [].
Proof. reflexivity. Qed.

Lemma shipped_entries_cons (e : string * node) (es : list (string * node)) :
  shipped_entries (e :: es)
  = if shouldExclude (fst e) then shipped_entries es
    else (fst e, shipped (snd e)) :: shipped_entries es.
Proof. unfold shipped_entries. simpl. now destruct (shouldExclude (fst e)). Qed.

Lemma shipped_dir (es : list (string * node)) : shipped (Dir es) = Dir (shipped_entries es).
Proof. reflexivity. Qed.

Lemma shipped_entries_eq (es : list (string * node)) :
  shipped_entries es
  = map (fun e => (fst e, shipped (snd e)))
        (filter (fun e => negb (shouldExclude (fst e))) es).
Proof.
  induction es as [|e es IH]; [reflexivity|].
  rewrite shipped_entries_cons. simpl.
  destruct (shouldExclude (fst e)); simpl; now rewrite IH.
Qed.

Lemma sort_insert_front {A : Type} (x : string * A) (l : list (string * A)) :
  Forall (fun z => (by_name x z <= 0)%Z) l -> sort_insert by_name x l = x :: l.
Proof.
  destruct l as [|y l]; [reflexivity|]. intros H. inversion H as [|? ? Hy _]. simpl.
  destruct (by_name x y >? 0)%Z eqn:E; [lia | reflexivity].
Qed.

Lemma Forall_filter {A : Type} (P : A -> Prop) (k : A -> bool) (l : list A) :
  Forall P l -> Forall P (filter k l).
Proof.
  induction 1 as [|x l Hx _ IH]; simpl; [constructor|].
  destruct (k x); [now constructor | exact IH].
Qed.

Section Sorted.

Hypothesis consistent : consistent_comparator.

Lemma sort_insert_filter {A : Type} (k : string * A -> bool) (x : string * A)
      (l : list (string * A)) :
  StronglySorted (fun a b => (by_name a b <= 0)%Z) l ->
  filter k (sort_insert by_name x l)
  = if k x then sort_insert by_name x (filter k l) else filter k l.
Proof.
  induction 1 as [|y l Hl IH Hy]; simpl.
  - now destruct (k x).
  - destruct (by_name x y >? 0)%Z eqn:E; simpl.
    + rewrite IH. destruct (k x), (k y); simpl; rewrite ?E; reflexivity.
    + assert (Hall : Forall (fun z => (by_name x z <= 0)%Z) (y :: l)).
      { constructor; [lia|]. rewrite Forall_forall in *. intros z Hz.
        specialize (Hy z Hz). destruct consistent as [_ Ht].
        unfold by_name in *. apply (Ht _ (fst y)); [lia | exact Hy]. }
      destruct (k x); [|reflexivity].
      symmetry. apply sort_insert_front.
      exact (Forall_filter _ k (y :: l) Hall).
Qed.

Lemma array_sort_filter {A : Type} (k : string * A -> bool) (l : list (string * A)) :
  array_sort by_name (filter k l) = filter k (array_sort by_name l).
Proof.
  induction l as [|x l IH]; [reflexivity|]. simpl.
  rewrite (sort_insert_filter k x _ (array_sort_sorted consistent l)).
  destruct (k x); simpl; now rewrite IH.
Qed.

Lemma feed_filter (l : list (string * node)) :
  concat_str (map entry_feed (filter (fun e => negb (shouldExclude (fst e))) l))
  = concat_str (map entry_feed l).
Proof.
  induction l as [|e l IH]; [reflexivity|]. simpl.
  destruct (shouldExclude (fst e)) eqn:E; simpl; rewrite IH; [|reflexivity].
  unfold entry_feed. now rewrite E.
Qed.

Lemma processDirectory_shipped (t : node) : processDirectory (shipped t) = processDirectory t.
Proof.
  induction t as [c|es IH] using node_ind2; [reflexivity|].
  rewrite shipped_dir, !processDirectory_unfold, shipped_entries_eq.
  rewrite (array_sort_map (fun e => (fst e, shipped (snd e)))) by reflexivity.
  rewrite array_sort_filter, map_map, <- feed_filter. f_equal.
  apply map_ext_in. intros e He. apply filter_In in He. destruct He as [He _].
  apply (Permutation_in _ (array_sort_perm by_name es)) in He.
  rewrite Forall_forall in IH. specialize (IH e He).
  unfold entry_feed. simpl. destruct (shouldExclude (fst e)); [reflexivity|].
  destruct (snd e) as [c|sub]; [reflexivity|].
  rewrite shipped_dir in *. now rewrite IH.
Qed.

(** X15: The fingerprint depends only on what is shipped: two directories that
    agree once their excluded entries ([specs], [.env], [.git],
    [__pycache__], [.DS_Store], [*.pyc]) are left out, at every level, have
    the same hash. *)
Theorem calculateDirectoryHash_ignores_excluded
        (fs fs' : FS) (p p' : path) (es es' : list (string * node)) :
  lookup fs p = Some (Dir es) ->
  lookup fs' p' = Some (Dir es') ->
  shipped (Dir es) = shipped (Dir es') ->
  exists h,
    calculateDirectoryHash p fs = Some (fs, inl h)
    /\ calculateDirectoryHash p' fs' = Some (fs', inl h).
Proof.
  intros H H' E. exists (digest16 (processDirectory (Dir es))).
  unfold calculateDirectoryHash. rewrite H, H'. split; [reflexivity|].
  now rewrite <- (processDirectory_shipped (Dir es)), E, processDirectory_shipped.
Qed.

End Sorted.

End Fingerprint.

(** ** The copy into a fresh directory *)

Lemma modifyO_ext_at (mk : bool) (f g : option node -> result node) (p : path) :
  forall o, f (lookupO o p) = g (lookupO o p) -> modifyO mk f o p = modifyO mk g o p.
Proof.
  induction p as [|n p IH]; intros o H; simpl in *; [exact H|].
  destruct o as [[c|es]|].
  - reflexivity.
  - now rewrite (IH _ H).
  - destruct mk; [|reflexivity]. rewrite (IH None); [reflexivity|].
    now rewrite lookupO_None.
Qed.

Lemma graft_any (p : path) (a b : node) :
  forall o t, modifyO true (fun _ => Ok a) o p = Ok t ->
              exists t', modifyO true (fun _ => Ok b) o p = Ok t'.
Proof.
  induction p as [|n p IH]; intros o t H; simpl in *; [eauto|].
  destruct o as [[c|es]|]; [discriminate| |].
  - destruct (modifyO true (fun _ => Ok a) (assoc n es) p) eqn:E; [|discriminate].
    destruct (IH _ _ E) as [t' ->]. eauto.
  - destruct (modifyO true (fun _ => Ok a) None p) eqn:E; [|discriminate].
    destruct (IH _ _ E) as [t' ->]. eauto.
Qed.

Lemma set_entry_twice {A : Type} (k : string) (v w : A) (l : list (string * A)) :
  set_entry k w (set_entry k v l) = set_entry k w l.
Proof.
  induction l as [|[k' v'] l IH]; simpl.
  - now rewrite String.eqb_refl.
  - destruct (String.eqb k k') eqn:E; simpl.
    + now rewrite String.eqb_refl.
    + now rewrite E, IH.
Qed.

Lemma set_entry_fresh {A : Type} (k : string) (v : A) (l : list (string * A)) :
  assoc k l = None -> set_entry k v l = l ++ [(k, v)].
Proof.
  induction l as [|[k' v'] l IH]; simpl; [reflexivity|].
  destruct (String.eqb k k'); [discriminate|]. intros H. now rewrite IH.
Qed.

(** A change one step below a grafted directory is a graft of the changed
    directory. *)
Lemma graft_child (mk : bool) (g : option node -> result node) (n : string)
      (L : list (string * node)) (d : path) :
  forall o t1,
    modifyO true (fun _ => Ok (Dir L)) o d = Ok t1 ->
    modifyO mk g (Some t1) (d ++ [n])
    = match g (assoc n L) with
      | Ok c => modifyO true (fun _ => Ok (Dir (set_entry n c L))) o d
      | Err e => Err e
      end.
Proof.
  induction d as [|m d IH]; intros o t1 H; simpl in H.
  - injection H as <-. simpl. now destruct (g (assoc n L)).
  - destruct o as [[c|es]|]; [discriminate| |].
    + destruct (modifyO true (fun _ => Ok (Dir L)) (assoc m es) d) as [c1|] eqn:E;
        [|discriminate].
      injection H as <-. cbn [app modifyO]. rewrite assoc_set_same, (IH _ _ E).
      destruct (g (assoc n L)) as [c|e]; [|reflexivity]. cbn [modifyO].
      destruct (modifyO true (fun _ => Ok (Dir (set_entry n c L))) (assoc m es) d);
        [|reflexivity].
      now rewrite set_entry_twice.
    + destruct (modifyO true (fun _ => Ok (Dir L)) None d) as [c1|] eqn:E; [|discriminate].
      injection H as <-. cbn [app modifyO assoc]. rewrite String.eqb_refl, (IH _ _ E).
      destruct (g (assoc n L)) as [c|e]; [|reflexivity]. cbn [modifyO].
      destruct (modifyO true (fun _ => Ok (Dir (set_entry n c L))) None d); [|reflexivity].
      cbn [set_entry]. now rewrite String.eqb_refl.
Qed.

Lemma graft_lookup (fs fs' : FS) (p : path) (t : node) :
  graft fs p t = Ok fs' -> lookup fs' p = Some t.
Proof.
  intros H. apply modifyO_at in H. destruct H as [c [E H]]. now injection E as <-.
Qed.

Lemma graft_lookup_apart (fs fs' : FS) (p q : path) (t : node) :
  graft fs p t = Ok fs' -> apart q p -> lookup fs' q = lookup fs q.
Proof. intros H Ha. exact (modifyO_apart _ _ _ _ _ _ H Ha). Qed.

Lemma mkdirp_at_fresh (fs : FS) (p : path) :
  lookup fs p = None -> mkdirp_at fs p = graft fs p (Dir []).
Proof.
  intros H. unfold mkdirp_at, graft. apply modifyO_ext_at.
  unfold lookup in H. now rewrite H.
Qed.

Lemma distinct_not_In (a : string) (l : list string) :
  existsb (String.eqb a) l = false -> ~ In a l.
Proof.
  intros H Hin. assert (E : existsb (String.eqb a) l = true).
  { apply existsb_exists. exists a. split; [exact Hin | apply String.eqb_refl]. }
  congruence.
Qed.

Lemma distinct_app (l1 l2 : list string) :
  distinct (l1 ++ l2) = true ->
  distinct l2 = true /\ forall a, In a l1 -> ~ In a l2.
Proof.
  induction l1 as [|x l1 IH]; simpl; intros H.
  - split; [exact H | tauto].
  - apply andb_true_iff in H. destruct H as [Hx H]. destruct (IH H) as [H2 Hd].
    split; [exact H2|]. intros a [<-|Ha]; [|now apply Hd].
    apply negb_true_iff, distinct_not_In in Hx. intros Hin. apply Hx.
    apply in_or_app. now right.
Qed.

Lemma assoc_app_fresh {A : Type} (n : string) (l1 l2 : list (string * A)) :
  ~ In n (map fst l1) -> assoc n (l1 ++ l2) = assoc n l2.
Proof.
  induction l1 as [|[k v] l1 IH]; simpl; [reflexivity|]. intros H.
  destruct (String.eqb n k) eqn:E.
  - apply String.eqb_eq in E. subst k. tauto.
  - apply IH. tauto.
Qed.

Lemma assoc_fresh {A : Type} (n : string) (l : list (string * A)) :
  ~ In n (map fst l) -> assoc n l = None.
Proof. intros H. rewrite <- (app_nil_r l). now rewrite assoc_app_fresh. Qed.

Lemma shipped_entries_app (l1 l2 : list (string * node)) :
  shipped_entries (l1 ++ l2) = shipped_entries l1 ++ shipped_entries l2.
Proof.
  induction l1 as [|e l1 IH]; [reflexivity|].
  rewrite <- app_comm_cons, !shipped_entries_cons, IH.
  now destruct (shouldExclude (fst e)).
Qed.

Lemma shipped_entries_names (l : list (string * node)) (n : string) :
  In n (map fst (shipped_entries l)) -> In n (map fst l).
Proof.
  induction l as [|e l IH]; [tauto|]. rewrite shipped_entries_cons.
  destruct (shouldExclude (fst e)); simpl; tauto.
Qed.

Lemma entry_position (es1 es2 : list (string * node)) (n : string) (t : node) :
  distinct (map fst (es1 ++ (n, t) :: es2)) = true ->
  assoc n (es1 ++ (n, t) :: es2) = Some t /\ assoc n (shipped_entries es1) = None.
Proof.
  intros H. rewrite map_app in H. apply distinct_app in H. destruct H as [_ Hd].
  assert (Hn : ~ In n (map fst es1)).
  { intros Hin. apply (Hd n Hin). simpl. now left. }
  split.
  - rewrite assoc_app_fresh by exact Hn. simpl. now rewrite String.eqb_refl.
  - apply assoc_fresh. intros Hin. apply Hn. now apply shipped_entries_names.
Qed.

Lemma well_formed_entry (es1 es2 : list (string * node)) (n : string) (t : node) :
  well_formed (Dir (es1 ++ (n, t) :: es2)) = true ->
  well_formed t = true /\ depth t < depth (Dir (es1 ++ (n, t) :: es2)).
Proof.
  simpl. intros H. apply andb_true_iff in H. destruct H as [_ H].
  rewrite forallb_app in H. apply andb_true_iff in H. destruct H as [_ H].
  simpl in H. apply andb_true_iff in H. destruct H as [H _]. split; [exact H|].
  induction es1 as [|e es1 IH]; simpl; lia.
Qed.

Section FreshCopy.

Context {RT : Runtime}.

Lemma copyEntries_fresh (fuel : nat) (src dest : path) (u : bool) (fs : FS)
      (es : list (string * node)) :
  (forall src' dest' fs1 es' f1,
      lookup fs1 src' = Some (Dir es') -> well_formed (Dir es') = true ->
      depth (Dir es') < fuel -> apart src' dest' -> lookup fs1 dest' = None ->
      graft fs1 dest' (Dir []) = Ok f1 ->
      exists fs', copyDirectoryRecursive fuel src' dest' u fs1 = Some (fs', inl tt)
                  /\ graft fs1 dest' (shipped (Dir es')) = Ok fs') ->
  lookup fs src = Some (Dir es) -> well_formed (Dir es) = true ->
  depth (Dir es) < S fuel -> apart src dest ->
  forall es2 es1 f,
    es = es1 ++ es2 ->
    graft fs dest (Dir (shipped_entries es1)) = Ok f ->
    exists f', copyEntries (copyDirectoryRecursive fuel) src dest u (map dirent_of es2) f
               = Some (f', inl tt)
               /\ graft fs dest (Dir (shipped_entries es)) = Ok f'.
Proof.
  intros IH Hsrc Hwf Hdepth Ha.
  induction es2 as [|[n t] es2 IHes]; intros es1 f Hes Hg.
  - rewrite app_nil_r in Hes. subst es1. exists f. now split.
  - assert (Hes' : es = (es1 ++ [(n, t)]) ++ es2) by now rewrite <- app_assoc.
    simpl. destruct (shouldExclude n) eqn:Ex.
    { apply (IHes (es1 ++ [(n, t)]) f Hes').
      rewrite shipped_entries_app, shipped_entries_cons. simpl. rewrite Ex.
      now rewrite shipped_entries_nil, app_nil_r. }
    rewrite (not_excluded_not_preserved _ Ex), andb_false_r.
    rewrite (bind_run _ _ f f false eq_refl).
    assert (Hd : distinct (map fst es) = true).
    { simpl in Hwf. now apply andb_true_iff in Hwf. }
    rewrite Hes in Hd, Hwf, Hdepth.
    destruct (entry_position _ _ _ _ Hd) as [Hpos Hfresh].
    destruct (well_formed_entry _ _ _ _ Hwf) as [Hwt Hdt].
    assert (Hsrcn : lookup f (path_join src n) = Some t).
    { rewrite (graft_lookup_apart _ _ _ _ _ Hg).
      - unfold path_join. now rewrite lookup_app, Hsrc, Hes.
      - rewrite <- (app_nil_r dest). now apply apart_below. }
    assert (Hsh : shipped_entries (es1 ++ [(n, t)])
                  = set_entry n (shipped t) (shipped_entries es1)).
    { rewrite shipped_entries_app, shipped_entries_cons. simpl.
      rewrite Ex, shipped_entries_nil. now rewrite set_entry_fresh. }
    destruct t as [c|sub]; simpl.
    + pose proof (graft_child false (put_file c) n _ dest _ _ Hg) as Hw.
      rewrite Hfresh in Hw. simpl in Hw.
      destruct (graft_any dest _ (Dir (set_entry n (File c) (shipped_entries es1))) _ _ Hg)
        as [f1 Hf1].
      unfold graft in Hf1. rewrite Hf1 in Hw.
      rewrite (bind_run _ _ f f1 tt).
      2:{ unfold copyFileSync. rewrite Hsrcn. unfold write_at, path_join. now rewrite Hw. }
      apply (IHes (es1 ++ [(n, File c)]) f1 Hes'). rewrite Hsh. exact Hf1.
    + assert (Hdn : lookup f (path_join dest n) = None).
      { unfold path_join. rewrite lookup_app, (graft_lookup _ _ _ _ Hg). simpl.
        now rewrite Hfresh. }
      assert (Hmk : exists f1, graft f (path_join dest n) (Dir []) = Ok f1).
      { unfold graft, path_join.
        rewrite (graft_child true (fun _ => Ok (Dir [])) n _ dest _ _ Hg).
        exact (graft_any dest _ _ _ _ Hg). }
      destruct Hmk as [f1 Hmk].
      destruct (IH (path_join src n) (path_join dest n) f sub f1 Hsrcn Hwt)
        as [f' [Hrun Hres]]; try assumption.
      * simpl in Hdt, Hdepth |- *. lia.
      * now apply apart_below.
      * rewrite (bind_run _ _ f f' tt Hrun).
        apply (IHes (es1 ++ [(n, Dir sub)]) f' Hes'). rewrite Hsh.
        unfold graft, path_join in Hres.
        rewrite (graft_child true (fun _ => Ok (shipped (Dir sub))) n _ dest _ _ Hg) in Hres.
        exact Hres.
Qed.

(** The copy of a well-formed directory into a place that does not exist
    yet returns, and leaves there the directory without its excluded
    entries, in the order of the enumeration. *)
Lemma copy_fresh (fuel : nat) :
  forall src dest u fs es f0,
    lookup fs src = Some (Dir es) -> well_formed (Dir es) = true ->
    depth (Dir es) < fuel -> apart src dest -> lookup fs dest = None ->
    graft fs dest (Dir []) = Ok f0 ->
    exists fs', copyDirectoryRecursive fuel src dest u fs = Some (fs', inl tt)
                /\ graft fs dest (shipped (Dir es)) = Ok fs'.
Proof.
  induction fuel as [|fuel IH]; intros src dest u fs es f0 Hsrc Hwf Hdepth Ha Hdest Hg;
    [lia|].
  simpl copyDirectoryRecursive.
  rewrite (bind_run _ _ _ _ _ (existsSync_run _ _)), Hdest. cbn [negb when].
  rewrite (bind_run _ _ fs f0 tt).
  2:{ unfold mkdirSync_recursive. now rewrite (mkdirp_at_fresh _ _ Hdest), Hg. }
  assert (Hsrc0 : lookup f0 src = Some (Dir es)).
  { rewrite (graft_lookup_apart _ _ _ _ _ Hg); [exact Hsrc|]. exact Ha. }
  rewrite (bind_run _ _ f0 f0 (map dirent_of es)).
  2:{ unfold readdirSync. now rewrite Hsrc0. }
  rewrite shipped_dir.
  apply (copyEntries_fresh fuel src dest u fs es (fun s d f1 e f2 => IH s d u f1 e f2)
           Hsrc Hwf Hdepth Ha es [] f0 eq_refl).
  exact Hg.
Qed.

End FreshCopy.

Lemma assoc_shipped (n : string) (es : list (string * node)) :
  shouldExclude n = false ->
  assoc n (shipped_entries es) = option_map shipped (assoc n es).
Proof.
  intros Hn. induction es as [|[k v] es IH]; [reflexivity|].
  rewrite shipped_entries_cons. cbn [fst snd assoc].
  destruct (String.eqb n k) eqn:E.
  - apply String.eqb_eq in E. subst k. rewrite Hn. cbn [assoc].
    now rewrite String.eqb_refl.
  - destruct (shouldExclude k); [exact IH|]. cbn [assoc]. now rewrite E.
Qed.

Lemma assoc_shipped_excluded (n : string) (es : list (string * node)) :
  shouldExclude n = true -> assoc n (shipped_entries es) = None.
Proof.
  intros Hn. induction es as [|[k v] es IH]; [reflexivity|].
  rewrite shipped_entries_cons. cbn [fst snd].
  destruct (shouldExclude k) eqn:Ek; [exact IH|]. cbn [assoc].
  destruct (String.eqb n k) eqn:E; [|exact IH].
  apply String.eqb_eq in E. congruence.
Qed.

Lemma lookupO_shipped (rel : path) :
  forall o, Forall (fun n => shouldExclude n = false) rel ->
            lookupO (option_map shipped o) rel = option_map shipped (lookupO o rel).
Proof.
  induction rel as [|n rel IH]; intros o H; [reflexivity|].
  inversion H as [|? ? Hn Hrel]. subst. destruct o as [[c|es]|]; try reflexivity.
  cbn [option_map lookupO]. rewrite shipped_dir. cbn [lookupO].
  rewrite (assoc_shipped _ _ Hn). now apply IH.
Qed.

Lemma is_file_shipped (o : option node) : is_file (option_map shipped o) = is_file o.
Proof. now destruct o as [[c|es]|]. Qed.

Lemma is_dir_shipped (o : option node) : is_dir (option_map shipped o) = is_dir o.
Proof. now destruct o as [[c|es]|]. Qed.

Lemma graft_succeeds (t : node) (n : string) (pes : list (string * node)) (d : path) :
  forall o, lookupO o d = Some (Dir pes) ->
            exists t', modifyO true (fun _ => Ok t) o (d ++ [n]) = Ok t'.
Proof.
  induction d as [|m d IH]; intros o H; simpl in H.
  - subst o. simpl. eauto.
  - destruct o as [[c|es]|]; try discriminate. cbn [app modifyO].
    destruct (IH _ H) as [t' ->]. eauto.
Qed.

Lemma mkdirp_at_succeeds (fs : FS) (d : path) (n : string) (pes : list (string * node)) :
  lookup fs d = Some (Dir pes) -> is_file (lookup fs (path_join d n)) = false ->
  exists fs', mkdirp_at fs (path_join d n) = Ok fs'.
Proof.
  intros Hd Hn. unfold mkdirp_at, path_join in *.
  destruct (lookup fs (d ++ [n])) as [[c|es]|] eqn:E; [discriminate| |].
  - rewrite (modifyO_ext_at true ensure_dir (fun _ => Ok (Dir es))).
    + exact (graft_succeeds _ n pes d _ Hd).
    + unfold lookup in E. now rewrite E.
  - rewrite (modifyO_ext_at true ensure_dir (fun _ => Ok (Dir []))).
    + exact (graft_succeeds _ n pes d _ Hd).
    + unfold lookup in E. now rewrite E.
Qed.

Lemma is_dir_false (o : option node) :
  is_dir o = false -> forall es, o <> Some (Dir es).
Proof. intros H es E. subst o. discriminate. Qed.

Lemma below_sibling_not_inside (dot : path) (n m : string) (r p : path) :
  n <> m -> inside (path_join dot m) p -> ~ is_prefix (dot ++ n :: r) p.
Proof.
  unfold inside, path_join. intros Hne [r1 ->] [r' E].
  rewrite <- !app_assoc in E. apply app_inv_head in E. simpl in E. congruence.
Qed.

Section Liveness.

Context {RT : Runtime}.

Lemma createDataDirectory_below_sibling (dot : path) (m n : string) (r : path)
      (fs fs' : FS) (x : unit + exn) :
  createDataDirectory (path_join dot m) fs = Some (fs', x) -> n <> m ->
  lookup fs' (dot ++ n :: r) = lookup fs (dot ++ n :: r).
Proof.
  intros H Hne. apply (createDataDirectory_frame _ _ _ _ H).
  intros p Hp. now apply (below_sibling_not_inside dot n m).
Qed.

Lemma createDataDirectory_outside (dot : path) (m : string) (q : path)
      (fs fs' : FS) (x : unit + exn) :
  createDataDirectory (path_join dot m) fs = Some (fs', x) -> apart q dot ->
  lookup fs' q = lookup fs q.
Proof.
  intros H Ha. apply (createDataDirectory_frame _ _ _ _ H).
  intros p Hp. apply (apart_not_inside q dot p Ha).
  destruct Hp as [r ->]. unfold path_join, inside. rewrite <- app_assoc. apply is_prefix_app.
Qed.

Lemma createDataDirectory_succeeds (d : path) (n : string) (fs : FS)
      (pes : list (string * node)) :
  lookup fs d = Some (Dir pes) ->
  is_file (lookup fs (path_join d n)) = false ->
  is_dir (lookup fs (path_join (path_join d n) ".gitkeep")) = false ->
  exists fs', createDataDirectory (path_join d n) fs = Some (fs', inl tt)
              /\ exists pes', lookup fs' d = Some (Dir pes').
Proof.
  intros Hd Hn Hk. unfold createDataDirectory.
  rewrite (bind_run _ _ _ _ _ (existsSync_run _ _)).
  assert (Hstep : exists f1 es1,
             when (negb match lookup fs (path_join d n) with
                        | Some _ => true | None => false end)
                  (mkdirSync_recursive (path_join d n)) fs = Some (f1, inl tt)
             /\ lookup f1 (path_join d n) = Some (Dir es1)
             /\ is_dir (lookup f1 (path_join (path_join d n) ".gitkeep")) = false
             /\ stat f1 d = Some KDir).
  { destruct (lookup fs (path_join d n)) as [[c|es]|] eqn:E; [discriminate| |].
    - exists fs, es. repeat split; auto. unfold stat. now rewrite Hd.
    - destruct (mkdirp_at_succeeds fs d n pes Hd) as [f1 Hm]; [now rewrite E|].
      exists f1, []. cbn [negb when]. unfold mkdirSync_recursive. rewrite Hm.
      split; [reflexivity|].
      destruct (mkdirp_at_lookup _ _ _ Hm) as [[_ H1]|[es [H0 _]]]; [|congruence].
      split; [exact H1|]. split.
      + unfold path_join at 1. rewrite lookup_app, H1. reflexivity.
      + rewrite (mkdirp_at_stat_existing _ _ _ d Hm); unfold stat; rewrite Hd;
          [reflexivity | discriminate]. }
  destruct Hstep as [f1 [es1 [Hrun [H1 [Hk1 Hd1]]]]].
  rewrite (bind_run _ _ _ _ _ Hrun).
  destruct (write_at_succeeds f1 (path_join d n) ".gitkeep" "" es1 H1
              (is_dir_false _ Hk1)) as [f2 Hw].
  exists f2. unfold writeFileSync. rewrite Hw. split; [reflexivity|].
  apply stat_dir. rewrite (write_at_stat_other _ _ _ _ _ Hw); [exact Hd1|].
  unfold path_join. rewrite <- app_assoc. intros E.
  rewrite <- (app_nil_r d) in E at 1. apply app_inv_head in E. discriminate.
Qed.

End Liveness.

Section Success.

Context {RT : Runtime}.


(** X17: [initializeProject] succeeds on every well-formed bundle it can install:
    the bundle is a directory apart from the instance to be made, the project
    is a directory without [.auto-claude], and the few entries
    [initializeProject] writes itself are not in the way. *)
Theorem initializeProject_succeeds
        (fuel : nat) (projectPath sourcePath : path) (now : string) (fs : FS)
        (es pes : list (string * node)) :
  let installedPath := path_join projectPath ".auto-claude" in
  lookup fs sourcePath = Some (Dir es) ->
  well_formed (Dir es) = true ->
  depth (Dir es) < fuel ->
  installable es = true ->
  lookup fs projectPath = Some (Dir pes) ->
  lookup fs installedPath = None ->
  apart sourcePath installedPath ->
  exists fs',
    initializeProject fuel projectPath sourcePath now fs
    = Some (fs', inl (mkInit true None (Some (version_of fs sourcePath)) (Some false))).
Proof.
  intros dot Hsp Hwf Hdepth Hinst Hpp Hdot Ha.
  unfold installable in Hinst.
  apply andb_true_iff in Hinst. destruct Hinst as [Hinst Hver].
  apply andb_true_iff in Hinst. destruct Hinst as [Hinst Hside].
  apply andb_true_iff in Hinst. destruct Hinst as [Hinst Hex].
  apply andb_true_iff in Hinst. destruct Hinst as [Hinst Hik].
  apply andb_true_iff in Hinst. destruct Hinst as [Hinst Hi].
  apply andb_true_iff in Hinst. destruct Hinst as [Hr Hrk].
  apply negb_true_iff in Hver, Hside, Hex, Hik, Hi, Hr, Hrk.
  unfold initializeProject. fold dot.
  rewrite (bind_run _ _ _ _ _ (existsSync_run _ _)), Hsp. cbn [negb].
  rewrite (bind_run _ _ _ _ _ (existsSync_run _ _)), Hpp. cbn [negb].
  rewrite (bind_run _ _ _ _ _ (existsSync_run _ _)), Hdot.
  assert (Hbody : exists fs',
             initializeBody fuel sourcePath dot now fs
             = Some (fs', inl (mkInit true None (Some (version_of fs sourcePath))
                                 (Some false)))).
  2:{ destruct Hbody as [fs' Hb]. exists fs'. unfold try_catch. now rewrite Hb. }
  unfold initializeBody.
  (* the copy *)
  destruct (graft_succeeds (Dir []) ".auto-claude" pes projectPath _ Hpp) as [f0 Hg0].
  destruct (copy_fresh fuel sourcePath dot false fs es f0 Hsp Hwf Hdepth Ha Hdot Hg0)
    as [f1 [Hc Hg1]].
  rewrite (bind_run _ _ _ _ _ Hc).
  pose proof (graft_lookup _ _ _ _ Hg1) as Hd1.
  assert (Hin1 : forall rel, Forall (fun n => shouldExclude n = false) rel ->
                             lookup f1 (dot ++ rel)
                             = option_map shipped (lookupO (Some (Dir es)) rel)).
  { intros rel Hrel. rewrite lookup_app, Hd1.
    exact (lookupO_shipped rel (Some (Dir es)) Hrel). }
  assert (Hex1 : forall n r, shouldExclude n = true -> lookup f1 (dot ++ n :: r) = None).
  { intros n r Hn. rewrite lookup_app, Hd1, shipped_dir. cbn [lookupO].
    rewrite (assoc_shipped_excluded _ _ Hn). apply lookupO_None. }
  assert (Hout1 : forall q, apart q dot -> lookup f1 q = lookup fs q).
  { intros q Hq. exact (graft_lookup_apart _ _ _ _ _ Hg1 Hq). }
  rewrite shipped_dir in Hd1.
  (* specs *)
  destruct (createDataDirectory_succeeds dot "specs" f1 _ Hd1) as [f2 [H2 [L2 Hd2]]].
  { unfold path_join. now rewrite (Hex1 "specs" []). }
  { unfold path_join. rewrite <- app_assoc. cbn [app]. now rewrite (Hex1 "specs" [".gitkeep"]). }
  rewrite (bind_run _ _ _ _ _ H2).
  (* roadmap *)
  destruct (createDataDirectory_succeeds dot "roadmap" f2 _ Hd2) as [f3 [H3 [L3 Hd3]]].
  { rewrite (createDataDirectory_sibling dot "specs" "roadmap" _ _ _ H2) by discriminate.
    unfold path_join. rewrite (Hin1 ["roadmap"]) by (repeat constructor).
    now rewrite is_file_shipped. }
  { unfold path_join. rewrite <- app_assoc. cbn [app].
    rewrite (createDataDirectory_below_sibling dot "specs" "roadmap" _ _ _ _ H2)
      by discriminate.
    rewrite (Hin1 ["roadmap"; ".gitkeep"]) by (repeat constructor).
    now rewrite is_dir_shipped. }
  rewrite (bind_run _ _ _ _ _ H3).
  (* ideation *)
  destruct (createDataDirectory_succeeds dot "ideation" f3 _ Hd3) as [f4 [H4 [L4 Hd4]]].
  { rewrite (createDataDirectory_sibling dot "roadmap" "ideation" _ _ _ H3) by discriminate.
    rewrite (createDataDirectory_sibling dot "specs" "ideation" _ _ _ H2) by discriminate.
    unfold path_join. rewrite (Hin1 ["ideation"]) by (repeat constructor).
    now rewrite is_file_shipped. }
  { unfold path_join. rewrite <- app_assoc. cbn [app].
    rewrite (createDataDirectory_below_sibling dot "roadmap" "ideation" _ _ _ _ H3)
      by discriminate.
    rewrite (createDataDirectory_below_sibling dot "specs" "ideation" _ _ _ _ H2)
      by discriminate.
    rewrite (Hin1 ["ideation"; ".gitkeep"]) by (repeat constructor).
    now rewrite is_dir_shipped. }
  rewrite (bind_run _ _ _ _ _ H4).
  assert (Hsib4 : forall n, n <> "specs" -> n <> "roadmap" -> n <> "ideation" ->
                            lookup f4 (path_join dot n) = lookup f1 (path_join dot n)).
  { intros n N1 N2 N3.
    rewrite (createDataDirectory_sibling dot "ideation" n _ _ _ H4) by exact N3.
    rewrite (createDataDirectory_sibling dot "roadmap" n _ _ _ H3) by exact N2.
    now rewrite (createDataDirectory_sibling dot "specs" n _ _ _ H2) by exact N1. }
  assert (Hout4 : forall q, apart q dot -> lookup f4 q = lookup fs q).
  { intros q Hq.
    rewrite (createDataDirectory_outside dot "ideation" q _ _ _ H4 Hq).
    rewrite (createDataDirectory_outside dot "roadmap" q _ _ _ H3 Hq).
    rewrite (createDataDirectory_outside dot "specs" q _ _ _ H2 Hq).
    now apply Hout1. }
  (* .env *)
  rewrite (bind_run _ _ _ _ _ (existsSync_run _ _)).
  rewrite (bind_run _ _ _ _ _ (existsSync_run _ _)).
  assert (Henv4 : lookup f4 (path_join dot ".env") = None).
  { rewrite Hsib4 by discriminate. unfold path_join. now apply (Hex1 ".env" []). }
  assert (Hexa4 : lookup f4 (path_join dot ".env.example")
                  = option_map shipped (assoc ".env.example" es)).
  { rewrite Hsib4 by discriminate. unfold path_join.
    now rewrite (Hin1 [".env.example"]) by (repeat constructor). }
  assert (Hsid4 : lookup f4 (path_join dot ".version.json")
                  = option_map shipped (assoc ".version.json" es)).
  { rewrite Hsib4 by discriminate. unfold path_join.
    now rewrite (Hin1 [".version.json"]) by (repeat constructor). }
  rewrite Henv4, Hexa4. cbn [negb]. rewrite andb_true_r.
  assert (Hstep : exists f5 L5,
             when match option_map shipped (assoc ".env.example" es) with
                  | Some _ => true | None => false end
                  (copyFileSync (path_join dot ".env.example") (path_join dot ".env")) f4
             = Some (f5, inl tt)
             /\ lookup f5 dot = Some (Dir L5)
             /\ lookup f5 (path_join dot ".version.json")
                = lookup f4 (path_join dot ".version.json")
             /\ forall q, apart q dot -> lookup f5 q = lookup f4 q).
  { destruct (assoc ".env.example" es) as [[c|d]|] eqn:E; [| discriminate |].
    - cbn [option_map when]. simpl in Hexa4.
      destruct (write_at_succeeds f4 dot ".env" c L4 Hd4) as [f5 Hw].
      { rewrite Henv4. discriminate. }
      assert (Hd5 : stat f5 dot = Some KDir) by exact (write_at_parent _ _ _ _ _ Hw).
      apply stat_dir in Hd5. destruct Hd5 as [L5 Hd5].
      exists f5, L5. unfold copyFileSync. rewrite Hexa4, Hw.
      split; [reflexivity|]. split; [exact Hd5|]. split.
      + apply (write_at_sibling dot ".env" ".version.json" _ _ _ Hw). discriminate.
      + intros q Hq. apply (write_at_lookup_other _ _ _ _ _ Hw).
        intros Hpre. destruct Hq as [Hq1 Hq2].
        destruct (is_prefix_both q dot (path_join dot ".env") Hpre (is_prefix_app dot _));
          contradiction.
    - exists f4, L4. cbn [option_map when]. auto. }
  destruct Hstep as [f5 [L5 [Hrun [Hd5 [Hsid5 Hout5]]]]].
  rewrite (bind_run _ _ _ _ _ Hrun).
  (* the version marker and the hash *)
  assert (Hsp5 : lookup f5 sourcePath = lookup fs sourcePath).
  { rewrite (Hout5 _ Ha). now apply Hout4. }
  destruct (observations_frame _ _ _ Hsp5) as [Ev [Eh EV]].
  rewrite (bind_run _ _ f5 f5 (version_of f5 sourcePath)).
  2:{ apply readSourceVersion_run. intros es'. rewrite EV.
      unfold path_join. rewrite lookup_app, Hsp. cbn [lookupO].
      now apply is_dir_false. }
  rewrite (bind_run _ _ f5 f5 (hash_of f5 sourcePath)).
  2:{ apply (calculateDirectoryHash_run _ _ es). now rewrite Hsp5. }
  (* the sidecar *)
  destruct (write_at_succeeds f5 dot ".version.json"
              (JSON_stringify (metadata_json
                 (mkMetadata (version_of f5 sourcePath) (hash_of f5 sourcePath)
                             (path_str sourcePath) (JString now) now)))
              L5 Hd5) as [f6 Hw].
  { rewrite Hsid5, Hsid4. apply is_dir_false. now rewrite is_dir_shipped. }
  exists f6. unfold writeVersionMetadata.
  rewrite (bind_run _ _ f5 f6 tt) by (unfold writeFileSync; now rewrite Hw).
  unfold ret. now rewrite Ev.
Qed.

End Success.

Section FailFast.

Context {RT : Runtime}.

(** X18: [updateProject] installs nothing: with the bundle or the instance
    missing it reports a failure and leaves the file system as it was, and it
    succeeds only where both were there. *)
Theorem updateProject_fails_fast
        (fuel : nat) (projectPath sourcePath : path) (now : string) (fs : FS) :
  let installedPath := path_join projectPath ".auto-claude" in
  (lookup fs sourcePath = None \/ lookup fs installedPath = None ->
   exists msg,
     updateProject fuel projectPath sourcePath now fs
     = Some (fs, inl (mkInit false (Some msg) None None)))
  /\ (forall fs' r,
         updateProject fuel projectPath sourcePath now fs = Some (fs', inl r) ->
         success r = true ->
         lookup fs sourcePath <> None /\ lookup fs installedPath <> None).
Proof.
  intros dot. split.
  - intros H. unfold updateProject. fold dot.
    rewrite (bind_run _ _ _ _ _ (existsSync_run _ _)).
    destruct (lookup fs sourcePath) eqn:Es; cbn [negb]; [|eexists; reflexivity].
    rewrite (bind_run _ _ _ _ _ (existsSync_run _ _)).
    destruct H as [H|H]; [discriminate|]. rewrite H. cbn [negb]. eexists; reflexivity.
  - intros fs' r H Hs. split.
    + intros Es. revert H. unfold updateProject.
      rewrite (bind_run _ _ _ _ _ (existsSync_run _ _)), Es. cbn [negb].
      intros H. injection H as _ <-. discriminate.
    + now apply updateProject_inv in H.
Qed.

End FailFast.

(** ** The copy onto what is there *)

Lemma overlay_entries_nil (acc : list (string * node)) : overlay_entries [] acc = Some acc.
Proof. reflexivity. Qed.

Lemma overlay_entries_cons (e : string * node) (l acc : list (string * node)) :
  overlay_entries (e :: l) acc
  = if shouldExclude (fst e) then overlay_entries l acc
    else match overlay (assoc (fst e) acc) (snd e) with
         | Some t => overlay_entries l (set_entry (fst e) t acc)
         | None => None
         end.
Proof.
  unfold overlay_entries. cbn [overlay option_map].
  destruct (shouldExclude (fst e)); [reflexivity|].
  destruct (overlay (assoc (fst e) acc) (snd e)); reflexivity.
Qed.

Lemma overlay_onto_dir (L es : list (string * node)) :
  overlay (Some (Dir L)) (Dir es) = option_map Dir (overlay_entries es L).
Proof.
  unfold overlay_entries. cbn [overlay].
  match goal with |- option_map Dir ?x = _ => destruct x end; reflexivity.
Qed.

Lemma overlay_onto_nothing (es : list (string * node)) :
  overlay None (Dir es) = option_map Dir (overlay_entries es []).
Proof.
  unfold overlay_entries. cbn [overlay].
  match goal with |- option_map Dir ?x = _ => destruct x end; reflexivity.
Qed.

Lemma set_entry_same {A : Type} (k : string) (v : A) (l : list (string * A)) :
  assoc k l = Some v -> set_entry k v l = l.
Proof.
  induction l as [|[k' v'] l IH]; simpl; [discriminate|].
  destruct (String.eqb k k') eqn:E.
  - intros H. injection H as ->. apply String.eqb_eq in E. now subst k'.
  - intros H. now rewrite IH.
Qed.

Lemma graft_same (p : path) :
  forall (x t : node), lookupO (Some x) p = Some t ->
                       modifyO true (fun _ => Ok t) (Some x) p = Ok x.
Proof.
  induction p as [|n p IH]; intros x t H; simpl in H.
  - now injection H as ->.
  - destruct x as [c|es]; [discriminate|]. cbn [modifyO].
    destruct (assoc n es) as [c|] eqn:E; [|now rewrite lookupO_None in H].
    rewrite (IH c t H). now rewrite (set_entry_same _ _ _ E).
Qed.

Lemma modifyO_below_file (mk : bool) (g : option node -> result node) (n : string)
      (c : string) (d : path) :
  forall o, lookupO o d = Some (File c) -> modifyO mk g o (d ++ [n]) = Err ENOTDIR.
Proof.
  induction d as [|m d IH]; intros o H; simpl in H.
  - now subst o.
  - destruct o as [[k|es]|]; try discriminate. cbn [app modifyO]. now rewrite (IH _ H).
Qed.

Section Overlay.

Context {RT : Runtime}.

(** The loop, when the destination is a regular file. *)
Lemma copyEntries_onto_file (fuel : nat) (src dest : path) (u : bool) (f : FS)
      (es : list (string * node)) (c0 : string) :
  lookup f src = Some (Dir es) -> well_formed (Dir es) = true ->
  depth (Dir es) < S fuel ->
  lookup f dest = Some (File c0) ->
  forall es2 es1,
    es = es1 ++ es2 ->
    match shipped_entries es2 with
    | [] => copyEntries (copyDirectoryRecursive fuel) src dest u (map dirent_of es2) f
            = Some (f, inl tt)
    | _ :: _ => exists e,
        copyEntries (copyDirectoryRecursive fuel) src dest u (map dirent_of es2) f
        = Some (f, inr e)
    end.
Proof.
  intros Hsrc Hwf Hdepth Hdest.
  induction es2 as [|[n t] es2 IHes]; intros es1 Hes; [reflexivity|].
  assert (Hes' : es = (es1 ++ [(n, t)]) ++ es2) by now rewrite <- app_assoc.
  rewrite shipped_entries_cons. simpl. destruct (shouldExclude n) eqn:Ex.
  { exact (IHes _ Hes'). }
  rewrite (not_excluded_not_preserved _ Ex), andb_false_r.
  rewrite (bind_run _ _ f f false eq_refl).
  assert (Hd : distinct (map fst es) = true).
  { simpl in Hwf. now apply andb_true_iff in Hwf. }
  rewrite Hes in Hd, Hwf, Hdepth.
  destruct (entry_position _ _ _ _ Hd) as [Hpos _].
  destruct (well_formed_entry _ _ _ _ Hwf) as [_ Hdt].
  assert (Hsrcn : lookup f (path_join src n) = Some t).
  { unfold path_join. now rewrite lookup_app, Hsrc, Hes. }
  destruct t as [c|sub]; simpl.
  - eexists. apply bind_throw. unfold copyFileSync. rewrite Hsrcn.
    unfold write_at, path_join. now rewrite (modifyO_below_file _ _ _ _ _ _ Hdest).
  - destruct fuel as [|fuel]; [simpl in Hdt, Hdepth; lia|].
    eexists. apply bind_throw. simpl copyDirectoryRecursive.
    rewrite (bind_run _ _ _ _ _ (existsSync_run _ _)).
    unfold path_join at 1. rewrite (lookup_below_file _ _ _ _ _ Hdest). cbn [negb when].
    apply bind_throw. unfold mkdirSync_recursive, mkdirp_at, path_join.
    now rewrite (modifyO_below_file _ _ _ _ _ _ Hdest).
Qed.

Lemma copyEntries_overlay (fuel : nat) (src dest : path) (u : bool) (fs : FS)
      (es : list (string * node)) :
  (forall src' dest' fs1 es' f1,
      lookup fs1 src' = Some (Dir es') -> well_formed (Dir es') = true ->
      depth (Dir es') < fuel -> apart src' dest' ->
      graft fs1 dest' (Dir []) = Ok f1 ->
      match overlay (lookup fs1 dest') (Dir es') with
      | Some t => exists fs', copyDirectoryRecursive fuel src' dest' u fs1 = Some (fs', inl tt)
                              /\ graft fs1 dest' t = Ok fs'
      | None => exists fs' e, copyDirectoryRecursive fuel src' dest' u fs1 = Some (fs', inr e)
      end) ->
  lookup fs src = Some (Dir es) -> well_formed (Dir es) = true ->
  depth (Dir es) < S fuel -> apart src dest ->
  forall es2 es1 acc f,
    es = es1 ++ es2 ->
    graft fs dest (Dir acc) = Ok f ->
    match overlay_entries es2 acc with
    | Some L => exists f',
        copyEntries (copyDirectoryRecursive fuel) src dest u (map dirent_of es2) f
        = Some (f', inl tt)
        /\ graft fs dest (Dir L) = Ok f'
    | None => exists f' e,
        copyEntries (copyDirectoryRecursive fuel) src dest u (map dirent_of es2) f
        = Some (f', inr e)
    end.
Proof.
  intros IH Hsrc Hwf Hdepth Ha.
  induction es2 as [|[n t] es2 IHes]; intros es1 acc f Hes Hg.
  - rewrite overlay_entries_nil. exists f. now split.
  - assert (Hes' : es = (es1 ++ [(n, t)]) ++ es2) by now rewrite <- app_assoc.
    rewrite overlay_entries_cons. simpl. destruct (shouldExclude n) eqn:Ex.
    { exact (IHes _ acc f Hes' Hg). }
    rewrite (not_excluded_not_preserved _ Ex), andb_false_r.
    rewrite (bind_run _ _ f f false eq_refl).
    assert (Hd : distinct (map fst es) = true).
    { simpl in Hwf. now apply andb_true_iff in Hwf. }
    rewrite Hes in Hd, Hwf, Hdepth.
    destruct (entry_position _ _ _ _ Hd) as [Hpos _].
    destruct (well_formed_entry _ _ _ _ Hwf) as [Hwt Hdt].
    assert (Hsrcn : lookup f (path_join src n) = Some t).
    { rewrite (graft_lookup_apart _ _ _ _ _ Hg).
      - unfold path_join. now rewrite lookup_app, Hsrc, Hes.
      - rewrite <- (app_nil_r dest). now apply apart_below. }
    assert (Hdn : lookup f (path_join dest n) = assoc n acc).
    { unfold path_join. now rewrite lookup_app, (graft_lookup _ _ _ _ Hg). }
    destruct t as [c|sub]; simpl isDirectory; cbv iota.
    + pose proof (graft_child false (put_file c) n _ dest _ _ Hg) as Hw.
      cbn [overlay].
      destruct (assoc n acc) as [[k|sub']|] eqn:En; cbn [put_file] in Hw.
      * destruct (graft_any dest _ (Dir (set_entry n (File c) acc)) _ _ Hg) as [f1 Hf1].
        unfold graft in Hf1. rewrite Hf1 in Hw.
        rewrite (bind_run _ _ f f1 tt).
        2:{ unfold copyFileSync. rewrite Hsrcn. unfold write_at, path_join. now rewrite Hw. }
        exact (IHes _ _ f1 Hes' Hf1).
      * exists f. eexists. apply bind_throw. unfold copyFileSync. rewrite Hsrcn.
        unfold write_at, path_join. now rewrite Hw.
      * destruct (graft_any dest _ (Dir (set_entry n (File c) acc)) _ _ Hg) as [f1 Hf1].
        unfold graft in Hf1. rewrite Hf1 in Hw.
        rewrite (bind_run _ _ f f1 tt).
        2:{ unfold copyFileSync. rewrite Hsrcn. unfold write_at, path_join. now rewrite Hw. }
        exact (IHes _ _ f1 Hes' Hf1).
    + assert (Hmk : exists f1, graft f (path_join dest n) (Dir []) = Ok f1).
      { unfold graft, path_join.
        rewrite (graft_child true (fun _ => Ok (Dir [])) n _ dest _ _ Hg).
        exact (graft_any dest _ _ _ _ Hg). }
      destruct Hmk as [f1 Hmk].
      assert (Hdsub : depth (Dir sub) < fuel) by (simpl in Hdt, Hdepth |- *; lia).
      pose proof (IH (path_join src n) (path_join dest n) f sub f1 Hsrcn Hwt Hdsub
                     (apart_below _ _ [n] [n] Ha) Hmk) as Hrec.
      rewrite Hdn in Hrec.
      destruct (overlay (assoc n acc) (Dir sub)) as [t'|].
      * destruct Hrec as [f' [Hrun Hres]]. rewrite (bind_run _ _ f f' tt Hrun).
        apply (IHes _ _ f' Hes'). unfold graft, path_join in Hres.
        rewrite (graft_child true (fun _ => Ok t') n _ dest _ _ Hg) in Hres.
        exact Hres.
      * destruct Hrec as [f' [e Hrun]]. exists f', e. now apply bind_throw.
Qed.

(** What the copy does, on every well-formed source: it returns exactly when
    the overlay is defined, and then the destination holds the overlay. *)
Lemma copy_overlay (fuel : nat) :
  forall src dest u fs es f0,
    lookup fs src = Some (Dir es) -> well_formed (Dir es) = true ->
    depth (Dir es) < fuel -> apart src dest ->
    graft fs dest (Dir []) = Ok f0 ->
    match overlay (lookup fs dest) (Dir es) with
    | Some t => exists fs', copyDirectoryRecursive fuel src dest u fs = Some (fs', inl tt)
                            /\ graft fs dest t = Ok fs'
    | None => exists fs' e, copyDirectoryRecursive fuel src dest u fs = Some (fs', inr e)
    end.
Proof.
  induction fuel as [|fuel IH]; intros src dest u fs es f0 Hsrc Hwf Hdepth Ha Hg; [lia|].
  simpl copyDirectoryRecursive.
  rewrite (bind_run _ _ _ _ _ (existsSync_run _ _)).
  destruct (lookup fs dest) as [[c0|L]|] eqn:Hdest; cbn [negb when].
  - rewrite (bind_run _ _ fs fs tt eq_refl).
    rewrite (bind_run _ _ fs fs (map dirent_of es)).
    2:{ unfold readdirSync. now rewrite Hsrc. }
    pose proof (copyEntries_onto_file fuel src dest u fs es c0 Hsrc Hwf Hdepth Hdest es []
                  eq_refl) as Hloop.
    cbn [overlay]. destruct (shipped_entries es).
    + exists fs. split; [exact Hloop|]. unfold graft. now apply graft_same.
    + destruct Hloop as [e He]. now exists fs, e.
  - rewrite (bind_run _ _ fs fs tt eq_refl).
    rewrite (bind_run _ _ fs fs (map dirent_of es)).
    2:{ unfold readdirSync. now rewrite Hsrc. }
    rewrite overlay_onto_dir.
    assert (Hg' : graft fs dest (Dir L) = Ok fs) by (unfold graft; now apply graft_same).
    pose proof (copyEntries_overlay fuel src dest u fs es
                  (fun s d f1 e f2 => IH s d u f1 e f2) Hsrc Hwf Hdepth Ha es [] L fs
                  eq_refl Hg') as Hloop.
    destruct (overlay_entries es L); exact Hloop.
  - rewrite (bind_run _ _ fs f0 tt).
    2:{ unfold mkdirSync_recursive. now rewrite (mkdirp_at_fresh _ _ Hdest), Hg. }
    assert (Hsrc0 : lookup f0 src = Some (Dir es)).
    { rewrite (graft_lookup_apart _ _ _ _ _ Hg); [exact Hsrc|]. exact Ha. }
    rewrite (bind_run _ _ f0 f0 (map dirent_of es)).
    2:{ unfold readdirSync. now rewrite Hsrc0. }
    rewrite overlay_onto_nothing.
    pose proof (copyEntries_overlay fuel src dest u fs es
                  (fun s d f1 e f2 => IH s d u f1 e f2) Hsrc Hwf Hdepth Ha es [] [] f0
                  eq_refl Hg) as Hloop.
    destruct (overlay_entries es []); exact Hloop.
Qed.

End Overlay.

Section Outcome.

Context {RT : Runtime}.

(** X19: The copy on every well-formed source directory that is apart from the
    destination, into a directory that exists: it returns without an error
    exactly when the overlay of the source on what the destination holds is
    defined, the destination then holds that overlay, and nothing apart from
    the destination has changed; otherwise it throws. The mode plays no
    part. *)
Theorem copyDirectoryRecursive_is_overlay
        (fuel : nat) (src parent : path) (name : string) (isUpdate : bool) (fs : FS)
        (es pes : list (string * node)) :
  let dest := path_join parent name in
  lookup fs src = Some (Dir es) ->
  well_formed (Dir es) = true ->
  depth (Dir es) < fuel ->
  apart src dest ->
  lookup fs parent = Some (Dir pes) ->
  match overlay (lookup fs dest) (Dir es) with
  | Some t =>
      exists fs',
        copyDirectoryRecursive fuel src dest isUpdate fs = Some (fs', inl tt)
        /\ lookup fs' dest = Some t
        /\ forall q, apart q dest -> lookup fs' q = lookup fs q
  | None =>
      exists fs' e, copyDirectoryRecursive fuel src dest isUpdate fs = Some (fs', inr e)
  end.
Proof.
  intros dest Hsrc Hwf Hdepth Ha Hp.
  destruct (graft_succeeds (Dir []) name pes parent _ Hp) as [f0 Hg0].
  pose proof (copy_overlay fuel src dest isUpdate fs es f0 Hsrc Hwf Hdepth Ha Hg0) as H.
  destruct (overlay (lookup fs dest) (Dir es)) as [t|]; [|exact H].
  destruct H as [fs' [Hc Hg]]. exists fs'. split; [exact Hc|]. split.
  - exact (graft_lookup _ _ _ _ Hg).
  - intros q Hq. exact (graft_lookup_apart _ _ _ _ _ Hg Hq).
Qed.

Lemma readSourceVersion_throws (sp : path) (fs : FS) (es : list (string * node)) :
  lookup fs (path_join sp "VERSION") = Some (Dir es) ->
  exists e, readSourceVersion sp fs = Some (fs, inr e).
Proof.
  intros H. unfold readSourceVersion.
  rewrite (bind_run _ _ _ _ _ (existsSync_run _ _)), H.
  eexists. apply bind_throw. unfold readFileSync. now rewrite H.
Qed.

(** X20: The outcome of [updateProject] on every well-formed bundle that is apart
    from the instance: it succeeds exactly when the overlay of the bundle on
    the instance is a directory, the bundle's [VERSION] is not a directory and
    the overlay has no directory named [.version.json]; the instance is then
    the overlay with the new sidecar, the version returned is the bundle's,
    and nothing apart from the instance has changed. In every other case it
    returns a failure with a message. *)
Theorem updateProject_outcome
        (fuel : nat) (projectPath sourcePath : path) (now : string) (fs : FS)
        (es : list (string * node)) (instance : node) :
  let installedPath := path_join projectPath ".auto-claude" in
  lookup fs sourcePath = Some (Dir es) ->
  well_formed (Dir es) = true ->
  depth (Dir es) < fuel ->
  apart sourcePath installedPath ->
  lookup fs installedPath = Some instance ->
  match overlay (Some instance) (Dir es) with
  | Some (Dir L) =>
      if is_dir (assoc "VERSION" es) || is_dir (assoc ".version.json" L)
      then exists fs' msg,
          updateProject fuel projectPath sourcePath now fs
          = Some (fs', inl (mkInit false (Some msg) None None))
      else exists fs',
          updateProject fuel projectPath sourcePath now fs
          = Some (fs', inl (mkInit true None (Some (version_of fs sourcePath)) (Some true)))
          /\ lookup fs' installedPath
             = Some (Dir (set_entry ".version.json"
                  (File (JSON_stringify (metadata_json
                     (mkMetadata (version_of fs sourcePath) (hash_of fs sourcePath)
                        (path_str sourcePath)
                        (js_or (js_get "initializedAt" (metadata_of (Dir L) []))
                               (JString now))
                        now))))
                  L))
          /\ forall q, apart q installedPath -> lookup fs' q = lookup fs q
  | _ =>
      exists fs' msg,
        updateProject fuel projectPath sourcePath now fs
        = Some (fs', inl (mkInit false (Some msg) None None))
  end.
Proof.
  intros dot Hsp Hwf Hdepth Ha Hdot.
  assert (Hg0 : exists f0, graft fs dot (Dir []) = Ok f0).
  { apply (graft_any dot instance (Dir []) (Some fs) fs). now apply graft_same. }
  destruct Hg0 as [f0 Hg0].
  pose proof (copy_overlay fuel sourcePath dot true fs es f0 Hsp Hwf Hdepth Ha Hg0) as Hc.
  rewrite Hdot in Hc.
  unfold updateProject. fold dot.
  rewrite (bind_run _ _ _ _ _ (existsSync_run _ _)), Hsp. cbn [negb].
  rewrite (bind_run _ _ _ _ _ (existsSync_run _ _)), Hdot. cbn [negb].
  assert (Hfail : forall f e,
             updateBody fuel sourcePath dot now fs = Some (f, inr e) ->
             exists fs' msg,
               try_catch (updateBody fuel sourcePath dot now)
                         (fun e => mkInit false (Some (message e)) None None) fs
               = Some (fs', inl (mkInit false (Some msg) None None))).
  { intros f e H. exists f, (message e). unfold try_catch. now rewrite H. }
  destruct (overlay (Some instance) (Dir es)) as [t|].
  2:{ destruct Hc as [f1 [e Hc]]. apply (Hfail f1 e). unfold updateBody.
      now apply bind_throw. }
  destruct Hc as [f1 [Hc Hg]].
  assert (Hsp1 : lookup f1 sourcePath = lookup fs sourcePath).
  { exact (graft_lookup_apart _ _ _ _ _ Hg Ha). }
  destruct (observations_frame _ _ _ Hsp1) as [Ev [Eh EV]].
  assert (HV : lookup f1 (path_join sourcePath "VERSION") = assoc "VERSION" es).
  { rewrite EV. unfold path_join. now rewrite lookup_app, Hsp. }
  assert (Hhash : calculateDirectoryHash sourcePath f1
                  = Some (f1, inl (hash_of f1 sourcePath))).
  { apply (calculateDirectoryHash_run _ _ es). now rewrite Hsp1. }
  assert (Hbody :
             (forall es', assoc "VERSION" es <> Some (Dir es')) ->
             updateBody fuel sourcePath dot now fs
             = (writeVersionMetadata dot
                  (mkMetadata (version_of fs sourcePath) (hash_of fs sourcePath)
                     (path_str sourcePath)
                     (js_or (js_get "initializedAt" (metadata_of f1 dot)) (JString now))
                     now) ;;;
                ret (mkInit true None (Some (version_of fs sourcePath)) (Some true))) f1).
  { intros Hv. unfold updateBody. rewrite (bind_run _ _ _ _ _ Hc).
    rewrite (bind_run _ _ f1 f1 (version_of f1 sourcePath)).
    2:{ apply readSourceVersion_run. intros es'. rewrite HV. apply Hv. }
    rewrite (bind_run _ _ _ _ _ Hhash).
    rewrite (bind_run _ _ _ _ _ (readVersionMetadata_run _ _)).
    now rewrite Ev, Eh. }
  destruct t as [c0|L].
  - (* the instance is a regular file and nothing is shipped *)
    pose proof (graft_lookup _ _ _ _ Hg) as Hd1.
    destruct (is_dir (assoc "VERSION" es)) eqn:Hv.
    + destruct (assoc "VERSION" es) as [[k|ves]|] eqn:E; try discriminate.
      destruct (readSourceVersion_throws sourcePath f1 ves) as [e He];
        [now rewrite HV|].
      apply (Hfail f1 e). unfold updateBody. rewrite (bind_run _ _ _ _ _ Hc).
      now apply bind_throw.
    + eapply Hfail. rewrite (Hbody (is_dir_false _ Hv)). apply bind_throw.
      unfold writeVersionMetadata, writeFileSync, write_at, path_join.
      now rewrite (modifyO_below_file _ _ _ _ _ _ Hd1).
  - destruct (is_dir (assoc "VERSION" es)) eqn:Hv; cbn [orb].
    + destruct (assoc "VERSION" es) as [[k|ves]|] eqn:E; try discriminate.
      destruct (readSourceVersion_throws sourcePath f1 ves) as [e He];
        [now rewrite HV|].
      apply (Hfail f1 e). unfold updateBody. rewrite (bind_run _ _ _ _ _ Hc).
      now apply bind_throw.
    + assert (Hm : metadata_of f1 dot = metadata_of (Dir L) []).
      { unfold metadata_of, path_join.
        now rewrite lookup_app, (graft_lookup _ _ _ _ Hg). }
      pose proof (fun c => graft_child false (put_file c) ".version.json" L dot _ _ Hg)
        as Hw.
      destruct (is_dir (assoc ".version.json" L)) eqn:Hs.
      * eapply Hfail. rewrite (Hbody (is_dir_false _ Hv)). apply bind_throw.
        unfold writeVersionMetadata, writeFileSync, write_at, path_join. rewrite Hw.
        destruct (assoc ".version.json" L) as [[k|ses]|]; try discriminate. reflexivity.
      * set (c := JSON_stringify (metadata_json
                    (mkMetadata (version_of fs sourcePath) (hash_of fs sourcePath)
                       (path_str sourcePath)
                       (js_or (js_get "initializedAt" (metadata_of (Dir L) []))
                              (JString now)) now))).
        destruct (graft_any dot _ (Dir (set_entry ".version.json" (File c) L)) _ _ Hg)
          as [f2 Hf2].
        exists f2. split; [|split].
        -- unfold try_catch. rewrite (Hbody (is_dir_false _ Hv)), Hm. fold c.
           rewrite (bind_run _ _ f1 f2 tt); [reflexivity|].
           unfold writeVersionMetadata, writeFileSync, write_at, path_join. rewrite Hw.
           destruct (assoc ".version.json" L) as [[k|ses]|]; try discriminate;
             cbn [put_file]; unfold graft, c in Hf2; now rewrite Hf2.
        -- exact (graft_lookup _ _ _ _ Hf2).
        -- intros q Hq. exact (graft_lookup_apart _ _ _ _ _ Hf2 Hq).
Qed.

End Outcome.

Section Necessity.

Context {RT : Runtime}.

Lemma createDataDirectory_inv (d : path) (fs fs' : FS) :
  createDataDirectory d fs = Some (fs', inl tt) ->
  is_file (lookup fs d) = false
  /\ is_dir (lookup fs (path_join d ".gitkeep")) = false.
Proof.
  unfold createDataDirectory. rewrite (bind_run _ _ _ _ _ (existsSync_run _ _)).
  intros H. apply bind_inl_inv in H. destruct H as [f1 [[] [Hm Hw]]].
  apply writeFileSync_ok in Hw.
  destruct (lookup fs d) as [[c|es]|] eqn:E; cbn [negb when] in Hm.
  - injection Hm as <-. unfold write_at, path_join in Hw.
    now rewrite (modifyO_below_file _ _ _ _ _ _ E) in Hw.
  - injection Hm as <-. split; [reflexivity|].
    destruct (write_at_lookup _ _ _ _ Hw) as [_ Hn].
    destruct (lookup fs (path_join d ".gitkeep")) as [[c|es']|]; try reflexivity.
    now elim (Hn es').
  - split; [reflexivity|]. unfold path_join. now rewrite lookup_app, E.
Qed.

Lemma when_copyFileSync_frame (b : bool) (dot : path) (m n : string) (fs fs' : FS)
      (x : unit + exn) :
  when b (copyFileSync (path_join dot m) (path_join dot n)) fs = Some (fs', x) ->
  (forall k, k <> n -> lookup fs' (path_join dot k) = lookup fs (path_join dot k))
  /\ (forall q, apart q dot -> lookup fs' q = lookup fs q).
Proof.
  intros H.
  assert (Hp : preserves (frame_outside (eq (path_join dot n)))
                         (when b (copyFileSync (path_join dot m) (path_join dot n)))).
  { apply preserves_when; [apply preorder_frame_outside|]. now apply copyFileSync_frame. }
  split.
  - intros k Hk. apply (Hp _ _ _ H). intros p <-.
    apply (sibling_not_inside dot k n _ Hk). apply is_prefix_refl.
  - intros q Hq. apply (Hp _ _ _ H). intros p <-.
    apply (apart_not_inside q dot _ Hq). apply is_prefix_app.
Qed.

(** X21: the conditions under which [initializeProject] is shown to succeed
    are the ones it needs: on a well-formed bundle apart from the instance,
    in a project that is a directory, a successful initialize means that
    [roadmap] and [ideation] were not regular files of the bundle and held no
    directory named [.gitkeep], and that [.env.example], [.version.json] and
    [VERSION] were not directories. *)
Theorem initializeProject_needs_installable
        (fuel : nat) (projectPath sourcePath : path) (now : string) (fs fs' : FS)
        (es pes : list (string * node)) (r : InitializationResult) :
  let installedPath := path_join projectPath ".auto-claude" in
  lookup fs sourcePath = Some (Dir es) ->
  well_formed (Dir es) = true ->
  depth (Dir es) < fuel ->
  lookup fs projectPath = Some (Dir pes) ->
  apart sourcePath installedPath ->
  initializeProject fuel projectPath sourcePath now fs = Some (fs', inl r) ->
  success r = true ->
  installable es = true.
Proof.
  intros dot Hsp Hwf Hdepth Hpp Ha H Hs.
  apply initializeProject_inv in H; [|exact Hs]. destruct H as [Hdot H]. fold dot in Hdot, H.
  unfold initializeBody in H.
  apply bind_inl_inv in H. destruct H as [f1 [[] [H1 H]]].
  apply bind_inl_inv in H. destruct H as [f2 [[] [H2 H]]].
  apply bind_inl_inv in H. destruct H as [f3 [[] [H3 H]]].
  apply bind_inl_inv in H. destruct H as [f4 [[] [H4 H]]].
  rewrite (bind_run _ _ _ _ _ (existsSync_run _ _)) in H.
  rewrite (bind_run _ _ _ _ _ (existsSync_run _ _)) in H.
  apply bind_inl_inv in H. destruct H as [f5 [[] [H5 H]]].
  apply bind_inl_inv in H. destruct H as [f6 [v [Hv H]]].
  pose proof (readSourceVersion_pure _ _ _ _ Hv). subst f6.
  apply bind_inl_inv in H. destruct H as [f7 [h [Hh H]]].
  pose proof (calculateDirectoryHash_pure _ _ _ _ Hh). subst f7.
  apply bind_inl_inv in H. destruct H as [f8 [[] [Hw _]]].
  apply writeFileSync_ok in Hw.
  (* what the copy left *)
  destruct (graft_succeeds (Dir []) ".auto-claude" pes projectPath _ Hpp) as [f0 Hg0].
  destruct (copy_fresh fuel sourcePath dot false fs es f0 Hsp Hwf Hdepth Ha Hdot Hg0)
    as [f1' [Hc Hg1]].
  rewrite H1 in Hc. injection Hc as <-.
  pose proof (graft_lookup _ _ _ _ Hg1) as Hd1.
  assert (Hin1 : forall rel, Forall (fun n => shouldExclude n = false) rel ->
                             lookup f1 (dot ++ rel)
                             = option_map shipped (lookupO (Some (Dir es)) rel)).
  { intros rel Hrel. rewrite lookup_app, Hd1.
    exact (lookupO_shipped rel (Some (Dir es)) Hrel). }
  assert (Hex1 : forall n r, shouldExclude n = true -> lookup f1 (dot ++ n :: r) = None).
  { intros n r0 Hn. rewrite lookup_app, Hd1, shipped_dir. cbn [lookupO].
    rewrite (assoc_shipped_excluded _ _ Hn). apply lookupO_None. }
  (* roadmap and ideation *)
  destruct (createDataDirectory_inv _ _ _ H3) as [Hr Hrk].
  rewrite (createDataDirectory_sibling dot "specs" "roadmap" _ _ _ H2) in Hr by discriminate.
  unfold path_join in Hr, Hrk. rewrite <- app_assoc in Hrk. cbn [app] in Hrk.
  rewrite (createDataDirectory_below_sibling dot "specs" "roadmap" _ _ _ _ H2) in Hrk
    by discriminate.
  rewrite (Hin1 ["roadmap"]) in Hr by (repeat constructor).
  rewrite (Hin1 ["roadmap"; ".gitkeep"]) in Hrk by (repeat constructor).
  rewrite is_file_shipped in Hr. rewrite is_dir_shipped in Hrk.
  destruct (createDataDirectory_inv _ _ _ H4) as [Hi Hik].
  rewrite (createDataDirectory_sibling dot "roadmap" "ideation" _ _ _ H3) in Hi by discriminate.
  rewrite (createDataDirectory_sibling dot "specs" "ideation" _ _ _ H2) in Hi by discriminate.
  unfold path_join in Hi, Hik. rewrite <- app_assoc in Hik. cbn [app] in Hik.
  rewrite (createDataDirectory_below_sibling dot "roadmap" "ideation" _ _ _ _ H3) in Hik
    by discriminate.
  rewrite (createDataDirectory_below_sibling dot "specs" "ideation" _ _ _ _ H2) in Hik
    by discriminate.
  rewrite (Hin1 ["ideation"]) in Hi by (repeat constructor).
  rewrite (Hin1 ["ideation"; ".gitkeep"]) in Hik by (repeat constructor).
  rewrite is_file_shipped in Hi. rewrite is_dir_shipped in Hik.
  (* the other entries of the instance *)
  assert (Hsib4 : forall n, n <> "specs" -> n <> "roadmap" -> n <> "ideation" ->
                            lookup f4 (path_join dot n) = lookup f1 (path_join dot n)).
  { intros n N1 N2 N3.
    rewrite (createDataDirectory_sibling dot "ideation" n _ _ _ H4) by exact N3.
    rewrite (createDataDirectory_sibling dot "roadmap" n _ _ _ H3) by exact N2.
    now rewrite (createDataDirectory_sibling dot "specs" n _ _ _ H2) by exact N1. }
  assert (Hout4 : forall q, apart q dot -> lookup f4 q = lookup fs q).
  { intros q Hq.
    rewrite (createDataDirectory_outside dot "ideation" q _ _ _ H4 Hq).
    rewrite (createDataDirectory_outside dot "roadmap" q _ _ _ H3 Hq).
    rewrite (createDataDirectory_outside dot "specs" q _ _ _ H2 Hq).
    exact (graft_lookup_apart _ _ _ _ _ Hg1 Hq). }
  assert (Henv4 : lookup f4 (path_join dot ".env") = None).
  { rewrite Hsib4 by discriminate. unfold path_join. now apply (Hex1 ".env" []). }
  assert (Hexa4 : lookup f4 (path_join dot ".env.example")
                  = option_map shipped (assoc ".env.example" es)).
  { rewrite Hsib4 by discriminate. unfold path_join.
    now rewrite (Hin1 [".env.example"]) by (repeat constructor). }
  assert (Hsid4 : lookup f4 (path_join dot ".version.json")
                  = option_map shipped (assoc ".version.json" es)).
  { rewrite Hsib4 by discriminate. unfold path_join.
    now rewrite (Hin1 [".version.json"]) by (repeat constructor). }
  destruct (when_copyFileSync_frame _ dot ".env.example" ".env" _ _ _ H5) as [Hsib5 Hout5].
  (* .env.example *)
  assert (Hexa : is_dir (assoc ".env.example" es) = false).
  { rewrite Henv4, Hexa4 in H5.
    destruct (assoc ".env.example" es) as [[c|d]|] eqn:E; try reflexivity.
    cbn [option_map negb andb when] in H5. unfold copyFileSync in H5.
    rewrite Hexa4 in H5. simpl in H5. discriminate. }
  (* VERSION *)
  assert (Hver : is_dir (assoc "VERSION" es) = false).
  { apply readSourceVersion_inl in Hv. destruct Hv as [_ Hv].
    assert (E : lookup f5 (path_join sourcePath "VERSION") = assoc "VERSION" es).
    { rewrite Hout5, Hout4.
      - unfold path_join. now rewrite lookup_app, Hsp.
      - rewrite <- (app_nil_r dot). now apply apart_below.
      - rewrite <- (app_nil_r dot). now apply apart_below. }
    rewrite E in Hv. destruct (assoc "VERSION" es) as [[c|d]|]; try reflexivity.
    now elim (Hv d). }
  (* .version.json *)
  assert (Hside : is_dir (assoc ".version.json" es) = false).
  { destruct (write_at_lookup _ _ _ _ Hw) as [_ Hn].
    rewrite (Hsib5 ".version.json"), Hsid4 in Hn by discriminate.
    destruct (assoc ".version.json" es) as [[c|d]|]; try reflexivity.
    cbn [option_map] in Hn. rewrite shipped_dir in Hn. now elim (Hn (shipped_entries d)). }
  change (lookupO (Some (Dir es)) ["roadmap"]) with (assoc "roadmap" es) in Hr.
  change (lookupO (Some (Dir es)) ["roadmap"; ".gitkeep"])
    with (lookupO (assoc "roadmap" es) [".gitkeep"]) in Hrk.
  change (lookupO (Some (Dir es)) ["ideation"]) with (assoc "ideation" es) in Hi.
  change (lookupO (Some (Dir es)) ["ideation"; ".gitkeep"])
    with (lookupO (assoc "ideation" es) [".gitkeep"]) in Hik.
  unfold installable. now rewrite Hr, Hrk, Hi, Hik, Hexa, Hside, Hver.
Qed.

End Necessity.

Section NoFalsePositive.

Context {RT : Runtime}.

(** X22: [checkVersion] never reports an update for a version that is
    already installed: whenever it returns [updateAvailable], on any file
    system, the project is initialized, the bundle has been read, and the
    current version it reports is not the string of the bundle's version. *)
Theorem checkVersion_update_means_other_version
        (projectPath sourcePath : path) (now : string) (fs fs' : FS)
        (r : VersionCheckResult) :
  checkVersion projectPath sourcePath now fs = Some (fs', inl r) ->
  updateAvailable r = true ->
  isInitialized r = true
  /\ exists v, sourceVersion r = Some v /\ currentVersion r <> Some (JString v).
Proof.
  set (Q := fun r : VersionCheckResult =>
              updateAvailable r = true ->
              isInitialized r = true
              /\ exists v, sourceVersion r = Some v /\ currentVersion r <> Some (JString v)).
  assert (Hr : returns_with Q (checkVersion projectPath sourcePath now)).
  { unfold checkVersion.
    repeat first
      [ apply returns_ret; intros H; discriminate H
      | apply returns_bind; intros ?
      | apply returns_if ].
    apply returns_ret. intros H. cbn [updateAvailable] in H.
    apply andb_true_iff in H. destruct H as [_ H]. apply strict_neq_true in H.
    split; [reflexivity|]. eexists. split; [reflexivity | exact H]. }
  intros H. exact (Hr _ _ _ H).
Qed.

End NoFalsePositive.

(** ** The further properties on sample inputs *)

Import Cases.

Lemma copyDirectoryRecursive_skips_excluded_witness :
  exists fs' x,
    copyDirectoryRecursive 3 bundle installed true stored_1_0_0 = Some (fs', x)
    /\ lookup fs' (installed ++ [] ++ ".env" :: [])
       = lookup stored_1_0_0 (installed ++ [] ++ ".env" :: []).
Proof.
  destruct (copyDirectoryRecursive 3 bundle installed true stored_1_0_0)
    as [[fs' x]|] eqn:E; [|vm_compute in E; discriminate].
  exists fs', x. split; [reflexivity|].
  apply (copyDirectoryRecursive_skips_excluded 3 bundle installed true stored_1_0_0 fs' x
           [] ".env" [] E).
  reflexivity.
Defined.

Lemma initializeProject_installs_bundle_witness :
  exists fs' r,
    @initializeProject Sample.runtime 3 project bundle t1 fresh = Some (fs', inl r)
    /\ stat fs' (installed ++ ["roadmap"; "plan.md"]) = Some (KFile "plan").
Proof.
  destruct (@initializeProject Sample.runtime 3 project bundle t1 fresh)
    as [[fs' [r|e]]|] eqn:E; try (vm_compute in E; discriminate).
  assert (Hs : success r = true) by (vm_compute in E; now injection E as _ <-).
  exists fs', r. split; [reflexivity|].
  apply (@initializeProject_installs_bundle Sample.runtime 3 project bundle t1 fresh fs' r
           ["roadmap"; "plan.md"] "plan" bundle_apart_from_installed E Hs).
  - repeat constructor.
  - reflexivity.
  - simpl. intros [H|[H|[H|[]]]]; discriminate.
Defined.

Lemma updateProject_refreshes_files_witness :
  exists fs' r,
    @updateProject Sample.runtime 3 project bundle t2 stored_1_0_0 = Some (fs', inl r)
    /\ stat fs' (installed ++ ["README.md"]) = Some (KFile "read me").
Proof.
  destruct (@updateProject Sample.runtime 3 project bundle t2 stored_1_0_0)
    as [[fs' [r|e]]|] eqn:E; try (vm_compute in E; discriminate).
  assert (Hs : success r = true) by (vm_compute in E; now injection E as _ <-).
  exists fs', r. split; [reflexivity|].
  apply (@updateProject_refreshes_files Sample.runtime 3 project bundle t2 stored_1_0_0 fs' r
           ["README.md"] "read me" bundle_apart_from_installed E Hs).
  - repeat constructor.
  - reflexivity.
  - discriminate.
Defined.

Lemma project_src_apart_from_installed : apart (project ++ ["src"]) installed.
Proof. split; intros [r E]; vm_compute in E; discriminate. Qed.

Lemma operations_write_inside_installed_witness :
  exists fs' r,
    @initializeProject Sample.runtime 3 project bundle t1 fresh = Some (fs', inl r)
    /\ lookup fs' (project ++ ["src"]) = lookup fresh (project ++ ["src"]).
Proof.
  destruct (@initializeProject Sample.runtime 3 project bundle t1 fresh)
    as [[fs' [r|e]]|] eqn:E; try (vm_compute in E; discriminate).
  exists fs', r. split; [reflexivity|].
  exact (proj1 (@operations_write_inside_installed Sample.runtime 3 project bundle t1
                  fresh fs' (project ++ ["src"]) project_src_apart_from_installed)
               _ E).
Defined.

Lemma checkVersion_writes_only_sidecar_witness :
  exists fs' x,
    @checkVersion Sample.runtime project bundle t1 legacy = Some (fs', x)
    /\ stat fs' (installed ++ ["README.md"]) = stat legacy (installed ++ ["README.md"]).
Proof.
  destruct (@checkVersion Sample.runtime project bundle t1 legacy)
    as [[fs' x]|] eqn:E; [|vm_compute in E; discriminate].
  exists fs', x. split; [reflexivity|].
  apply (proj1 (proj2 (@checkVersion_writes_only_sidecar Sample.runtime project bundle t1
                         legacy fs' x E))).
  - discriminate.
  - discriminate.
Defined.

Lemma checkVersion_throws_on_file_source_witness :
  exists fs' e,
    @checkVersion Sample.runtime project marker t2 stored_1_0_0 = Some (fs', inr e).
Proof.
  apply (@checkVersion_throws_on_file_source Sample.runtime project marker t2 stored_1_0_0
           ("1.1.0" +++ Sample.LF)).
  - vm_compute. discriminate.
  - reflexivity.
Defined.

Lemma initializeProject_env_from_example_witness :
  exists fs' r,
    @initializeProject Sample.runtime 3 project bundle t1 with_example = Some (fs', inl r)
    /\ hasCustomEnv installed fs' = Some (fs', inl false)
    /\ stat fs' (installed ++ [".env"]) = Some (KFile "KEY=").
Proof.
  destruct (@initializeProject Sample.runtime 3 project bundle t1 with_example)
    as [[fs' [r|e]]|] eqn:E; try (vm_compute in E; discriminate).
  assert (Hs : success r = true) by (vm_compute in E; now injection E as _ <-).
  exists fs', r. split; [reflexivity|].
  destruct (@initializeProject_env_from_example Sample.runtime 3 project bundle t1
              with_example fs' r E Hs) as [H1 H2].
  split; [exact H1|]. apply (H2 bundle_apart_from_installed). reflexivity.
Defined.

Lemma checkVersion_after_initialize_witness :
  exists fs' r,
    @initializeProject Sample.runtime 3 project bundle t1 fresh = Some (fs', inl r)
    /\ init_version r = Some "1.1.0"
    /\ @checkVersion Sample.runtime project bundle t2 fs'
       = Some (fs', inl (mkCheck true (Some (JString "1.1.0")) (Some "1.1.0") false
                           (Some installed))).
Proof.
  destruct (@initializeProject Sample.runtime 3 project bundle t1 fresh)
    as [[fs' [r|e]]|] eqn:E; try (vm_compute in E; discriminate).
  assert (Hs : success r = true) by (vm_compute in E; now injection E as _ <-).
  exists fs', r. split; [reflexivity|].
  apply (@checkVersion_after_initialize Sample.runtime 3 project bundle t1 t2 fresh fs' r
           bundle_apart_from_installed E Hs).
  vm_compute. reflexivity.
Defined.

Lemma checkVersion_after_update_witness :
  exists fs' r,
    @updateProject Sample.runtime 3 project bundle t2 stored_1_0_0 = Some (fs', inl r)
    /\ init_version r = Some "1.1.0"
    /\ @checkVersion Sample.runtime project bundle t2 fs'
       = Some (fs', inl (mkCheck true (Some (JString "1.1.0")) (Some "1.1.0") false
                           (Some installed))).
Proof.
  destruct (@updateProject Sample.runtime 3 project bundle t2 stored_1_0_0)
    as [[fs' [r|e]]|] eqn:E; try (vm_compute in E; discriminate).
  assert (Hs : success r = true) by (vm_compute in E; now injection E as _ <-).
  exists fs', r. split; [reflexivity|].
  apply (@checkVersion_after_update Sample.runtime 3 project bundle t2 t2 stored_1_0_0 fs' r
           bundle_apart_from_installed eq_refl E Hs).
  vm_compute. reflexivity.
Defined.

Lemma calculateDirectoryHash_ignores_excluded_witness :
  exists h,
    @calculateDirectoryHash Sample.runtime bundle with_example = Some (with_example, inl h)
    /\ @calculateDirectoryHash Sample.runtime bundle used_bundle = Some (used_bundle, inl h).
Proof.
  eapply (@calculateDirectoryHash_ignores_excluded Sample.runtime ordinalCompare_consistent
            with_example used_bundle bundle bundle).
  - reflexivity.
  - reflexivity.
  - vm_compute. reflexivity.
Defined.


Lemma initializeProject_succeeds_witness :
  exists fs',
    @initializeProject Sample.runtime 3 project bundle t1 fresh
    = Some (fs', inl (mkInit true None (Some "1.1.0") (Some false))).
Proof.
  eapply (@initializeProject_succeeds Sample.runtime 3 project bundle t1 fresh).
  - reflexivity.
  - reflexivity.
  - vm_compute. lia.
  - reflexivity.
  - reflexivity.
  - reflexivity.
  - exact bundle_apart_from_installed.
Defined.

Lemma updateProject_fails_fast_witness :
  exists msg,
    @updateProject Sample.runtime 3 project bundle t2 fresh
    = Some (fresh, inl (mkInit false (Some msg) None None)).
Proof.
  apply (proj1 (@updateProject_fails_fast Sample.runtime 3 project bundle t2 fresh)).
  right. reflexivity.
Defined.

Lemma copyDirectoryRecursive_is_overlay_witness :
  exists fs',
    copyDirectoryRecursive 3 bundle installed true stored_1_0_0 = Some (fs', inl tt)
    /\ stat fs' (installed ++ ["notes.txt"]) = Some (KFile "mine")
    /\ stat fs' (installed ++ ["README.md"]) = Some (KFile "read me")
    /\ stat fs' (installed ++ ["specs"; "001"]) = Some (KFile "kept").
Proof.
  pose proof (@copyDirectoryRecursive_is_overlay 3 bundle project ".auto-claude" true
                stored_1_0_0
                ltac:(let l := eval cbv in
                        (match lookup stored_1_0_0 bundle with
                         | Some (Dir l) => l
                         | _ => []
                         end) in exact l)
                ltac:(let l := eval cbv in
                        (match lookup stored_1_0_0 project with
                         | Some (Dir l) => l
                         | _ => []
                         end) in exact l)
                eq_refl eq_refl ltac:(vm_compute; lia) bundle_apart_from_installed eq_refl)
    as H.
  vm_compute overlay in H. cbv beta iota in H.
  destruct H as [fs' [H1 [H2 _]]]. exists fs'. split; [exact H1|].
  unfold stat. change installed with (path_join project ".auto-claude").
  rewrite !lookup_app, H2. repeat split.
Defined.

Lemma updateProject_outcome_witness :
  exists fs',
    @updateProject Sample.runtime 3 project bundle t2 stored_1_0_0
    = Some (fs', inl (mkInit true None (Some "1.1.0") (Some true)))
    /\ lookup fs' (project ++ ["src"]) = lookup stored_1_0_0 (project ++ ["src"]).
Proof.
  pose proof (@updateProject_outcome Sample.runtime 3 project bundle t2 stored_1_0_0
                ltac:(let l := eval cbv in
                        (match lookup stored_1_0_0 bundle with
                         | Some (Dir l) => l
                         | _ => []
                         end) in exact l)
                ltac:(let l := eval cbv in
                        (match lookup stored_1_0_0 installed with
                         | Some t => t
                         | _ => Dir []
                         end) in exact l)
                eq_refl eq_refl ltac:(vm_compute; lia) bundle_apart_from_installed eq_refl)
    as H.
  vm_compute overlay in H. cbv beta iota in H.
  vm_compute orb in H. cbv beta iota in H.
  destruct H as [fs' [H1 [_ H3]]]. exists fs'. split; [exact H1|].
  apply H3. exact project_src_apart_from_installed.
Defined.

Lemma initializeProject_needs_installable_witness :
  exists fs' r,
    @initializeProject Sample.runtime 3 project bundle t1 fresh = Some (fs', inl r)
    /\ installable (match bundle_1_1_0 with Dir l => l | File _ => [] end) = true.
Proof.
  destruct (@initializeProject Sample.runtime 3 project bundle t1 fresh)
    as [[fs' [r|e]]|] eqn:E; try (vm_compute in E; discriminate).
  assert (Hs : success r = true) by (vm_compute in E; now injection E as _ <-).
  exists fs', r. split; [reflexivity|].
  apply (@initializeProject_needs_installable Sample.runtime 3 project bundle t1 fresh fs'
           _ [("src", Dir [])] r eq_refl eq_refl).
  - vm_compute. lia.
  - reflexivity.
  - exact bundle_apart_from_installed.
  - exact E.
  - exact Hs.
Defined.

Lemma checkVersion_update_means_other_version_witness :
  exists r,
    @checkVersion Sample.runtime project bundle t2 stored_1_0_0 = Some (stored_1_0_0, inl r)
    /\ isInitialized r = true
    /\ exists v, sourceVersion r = Some v /\ currentVersion r <> Some (JString v).
Proof.
  destruct (@checkVersion Sample.runtime project bundle t2 stored_1_0_0)
    as [[fs' [r|e]]|] eqn:E; try (vm_compute in E; discriminate).
  assert (Hfs : fs' = stored_1_0_0) by (vm_compute in E; now injection E as <- _).
  assert (Hu : updateAvailable r = true) by (vm_compute in E; now injection E as _ <-).
  subst fs'. exists r. split; [reflexivity|].
  exact (@checkVersion_update_means_other_version Sample.runtime project bundle t2
           stored_1_0_0 stored_1_0_0 r E Hu).
Defined.
